(** * Minesweeper bot: the game engine of src/index.ts

    A shallow embedding of the engine (board generation, cascading reveal,
    chord and auto-flag, win detection, the JSON persistence boundary) and
    the properties of its specification.

    Conventions of the embedding.
    - JavaScript numbers that the engine uses are integers (grid coordinates,
      cell values, counters, epoch milliseconds): they are modelled by [Z].
    - A grid is an array of row arrays, [list (list A)].  The rows are built
      by [Array(n).fill(null).map(() => Array(n).fill(v))] or by [JSON.parse],
      so no two rows are the same object and an update of one cell does not
      alias another row.
    - Reading [g[row][col]] raises a [TypeError] when [g[row]] is
      [undefined] and yields [undefined] when only the column is missing:
      reads return [res (option A)].
    - The game object is mutated in place and owned by one request:
      it is threaded through the functions as a value. *)

From Stdlib Require Import ZArith List Bool Lia Ascii.
From stdpp Require Import base option list strings pretty.

Local Open Scope Z_scope.

(** ** Configuration: [GAME_CONFIG] and [DIRECTIONS] *)

Definition ROWS : Z := 8.
Definition COLS : Z := 8.
Definition MINES : Z := 10.
Definition MAX_REVEALS : Z := 50.

Definition DIRECTIONS : list (Z * Z) :=
  [ (-1, -1); (-1, 0); (-1, 1);
    (0, -1); (0, 1);
    (1, -1); (1, 0); (1, 1) ].

(** ** Outcomes of a computation

    [Stop TypeError]: the JavaScript code throws (a property of [undefined]
    is read or written).  [Stop OutOfFuel]: the recursion fuel or the stream
    of random samples given to the model ran out before the code returned.
    [Stop Grown]: a write outside a row, where JavaScript would grow the
    array; lists do not represent the grown array, the model stops there.
    [Stop Malformed]: the stored value does not have the shape of a game;
    the source does not check the shape, the typed model stops there. *)

Inductive stop : Set := TypeError | OutOfFuel | Grown | Malformed.

Inductive res (A : Type) : Type :=
| Ret (a : A)
| Stop (e : stop).
Arguments Ret {A} a.
Arguments Stop {A} e.

#[global] Instance res_ret : MRet res := @Ret.
#[global] Instance res_bind : MBind res := fun A B f m =>
  match m with
  | Ret a => f a
  | Stop e => Stop e
  end.

(** A [for ... of] loop over a list, threading the loop state. *)
Fixpoint forEach {A St : Type} (body : St -> A -> res St) (s : St)
  (l : list A) : res St :=
  match l with
  | [] => Ret s
  | x :: l' => s' ← body s x; forEach body s' l'
  end.

(** ** Arrays and grids *)

(** [arr[i]] for an integer [i]: [None] is JavaScript's [undefined]. *)
Definition idx {A : Type} (l : list A) (i : Z) : option A :=
  if decide (0 ≤ i) then l !! Z.to_nat i else None.

(** The value of [g[row][col]] when it does not throw. *)
Definition cell {A : Type} (g : list (list A)) (row col : Z) : option A :=
  rw ← idx g row; idx rw col.

(** The grid after [g[row][col] = v] at a position that exists. *)
Definition put {A : Type} (g : list (list A)) (row col : Z) (v : A)
  : list (list A) :=
  if decide (0 ≤ row ∧ 0 ≤ col)
  then alter (fun rw => <[Z.to_nat col := v]> rw) (Z.to_nat row) g
  else g.

(** Reading [g[row][col]]. *)
Definition rd {A : Type} (g : list (list A)) (row col : Z) : res (option A) :=
  match idx g row with
  | None => Stop TypeError
  | Some rw => Ret (idx rw col)
  end.

(** Writing [g[row][col] = v]. *)
Definition wr {A : Type} (g : list (list A)) (row col : Z) (v : A)
  : res (list (list A)) :=
  match idx g row with
  | None => Stop TypeError
  | Some rw =>
      if decide (0 ≤ col < Z.of_nat (length rw))
      then Ret (put g row col v)
      else Stop Grown
  end.

(** Truthiness of a boolean cell; [undefined] is falsy. *)
Definition truthy (o : option bool) : bool :=
  match o with
  | Some b => b
  | None => false
  end.

(** [v === k], [v > 0] and [v <= 0] on a numeric cell; a comparison with
    [undefined] is false. *)
Definition is_num (k : Z) (o : option Z) : bool :=
  match o with
  | Some v => v =? k
  | None => false
  end.

Definition gt0 (o : option Z) : bool :=
  match o with
  | Some v => 0 <? v
  | None => false
  end.

Definition le0 (o : option Z) : bool :=
  match o with
  | Some v => v <=? 0
  | None => false
  end.

Definition is_mine (o : option Z) : bool := is_num (-1) o.

(** The positions visited by
    [for (row = 0; row < ROWS; row++) for (col = 0; col < COLS; col++)],
    in the order of the visit. *)
Definition cells : list (Z * Z) :=
  row ← seqZ 0 ROWS; col ← seqZ 0 COLS; [(row, col)].

(** [Array(ROWS).fill(null).map(() => Array(COLS).fill(v))] *)
Definition newGrid {A : Type} (v : A) : list (list A) :=
  replicate (Z.to_nat ROWS) (replicate (Z.to_nat COLS) v).

(** ** The engine *)

Definition isValidPosition (row col : Z) : bool :=
  (0 <=? row) && (row <? ROWS) && (0 <=? col) && (col <? COLS).

(** The inner loop of [calculateNumbers]: the mines around a cell. *)
Definition countAround (board : list (list Z)) (row col : Z) : res Z :=
  forEach (fun count '(dx, dy) =>
             let newRow := row + dx in
             let newCol := col + dy in
             if isValidPosition newRow newCol
             then v ← rd board newRow newCol;
                  Ret (if is_mine v then count + 1 else count)
             else Ret count)
          0 DIRECTIONS.

Definition calculateNumbers (board : list (list Z)) : res (list (list Z)) :=
  forEach (fun board '(row, col) =>
             v ← rd board row col;
             if negb (is_mine v)
             then count ← countAround board row col;
                  wr board row col count
             else Ret board)
          board cells.

Record Game : Type := mkGame {
  board : list (list Z);
  mask : list (list bool);
  flags : list (list bool);
  gameOver : bool;
  won : bool;
  startTime : Z;
  moves : Z;
  endTime : option Z
}.

Definition set_mask (g : Game) (m : list (list bool)) : Game :=
  mkGame (board g) m (flags g) (gameOver g) (won g) (startTime g) (moves g)
         (endTime g).

Definition set_flags (g : Game) (f : list (list bool)) : Game :=
  mkGame (board g) (mask g) f (gameOver g) (won g) (startTime g) (moves g)
         (endTime g).

Definition inc_moves (g : Game) : Game :=
  mkGame (board g) (mask g) (flags g) (gameOver g) (won g) (startTime g)
         (moves g + 1) (endTime g).

(** [game.gameOver = true; game.endTime = Date.now()] *)
Definition end_game (g : Game) (now : Z) : Game :=
  mkGame (board g) (mask g) (flags g) true (won g) (startTime g) (moves g)
         (Some now).

(** [game.gameOver = true; game.won = true; game.endTime = Date.now()] *)
Definition win_game (g : Game) (now : Z) : Game :=
  mkGame (board g) (mask g) (flags g) true true (startTime g) (moves g)
         (Some now).

(** The [while (minesPlaced < MINES)] loop of [createNewGame].  Each element
    of [samples] is one pair
    [(Math.floor(Math.random() * ROWS), Math.floor(Math.random() * COLS))];
    the loop consumes as many pairs as it needs. *)
Fixpoint placeMines (samples : list (Z * Z)) (board : list (list Z))
  (minesPlaced : Z) : res (list (list Z)) :=
  if minesPlaced <? MINES then
    match samples with
    | [] => Stop OutOfFuel
    | (row, col) :: samples' =>
        v ← rd board row col;
        if negb (is_mine v)
        then board' ← wr board row col (-1);
             placeMines samples' board' (minesPlaced + 1)
        else placeMines samples' board minesPlaced
    end
  else Ret board.

(** [now] is the value of [Date.now()]. *)
Definition createNewGame (samples : list (Z * Z)) (now : Z) : res Game :=
  board ← placeMines samples (newGrid 0) 0;
  board ← calculateNumbers board;
  Ret (mkGame board (newGrid false) (newGrid false) false false now 0 None).

(** The neighbour scan of [autoFlag]: the flagged neighbours are counted,
    the hidden unflagged ones are counted and collected. *)
Definition scanAround (game : Game) (row col : Z)
  : res (Z * Z * list (Z * Z)) :=
  forEach (fun '(flaggedCount, hiddenCount, hiddenPositions) '(dx, dy) =>
             let newRow := row + dx in
             let newCol := col + dy in
             if isValidPosition newRow newCol
             then f ← rd (flags game) newRow newCol;
                  if truthy f
                  then Ret (flaggedCount + 1, hiddenCount, hiddenPositions)
                  else m ← rd (mask game) newRow newCol;
                       if negb (truthy m)
                       then Ret (flaggedCount, hiddenCount + 1,
                                 hiddenPositions ++ [(newRow, newCol)])
                       else Ret (flaggedCount, hiddenCount, hiddenPositions)
             else Ret (flaggedCount, hiddenCount, hiddenPositions))
          (0, 0, []) DIRECTIONS.

(** [for (const [r, c] of hiddenPositions) game.flags[r][c] = true] *)
Definition flagAll (game : Game) (positions : list (Z * Z)) : res Game :=
  forEach (fun game '(r, c) =>
             f ← wr (flags game) r c true;
             Ret (set_flags game f))
          game positions.

(** [board[row][col] - flaggedCount === hiddenCount] *)
Definition remaining_is (o : option Z) (flaggedCount hiddenCount : Z) : bool :=
  match o with
  | Some v => v - flaggedCount =? hiddenCount
  | None => false
  end.

Definition autoFlag (game : Game) (row col : Z) : res (Game * bool) :=
  m ← rd (mask game) row col;
  if negb (truthy m) then Ret (game, false) else
  v ← rd (board game) row col;
  if le0 v then Ret (game, false) else
  '(flaggedCount, hiddenCount, hiddenPositions) ← scanAround game row col;
  if (0 <? hiddenCount) && remaining_is v flaggedCount hiddenCount
  then game' ← flagAll game hiddenPositions; Ret (game', true)
  else Ret (game, false).

(** [revealEmpty].  The recursion of the source is bounded by the budget:
    every call that recurses has decremented it.  [fuel] bounds the depth
    of the recursion; [revealEmpty] below supplies enough of it. *)
Fixpoint revealEmpty_fuel (fuel : nat) (game : Game) (row col : Z)
  (maxReveals : Z) : res (Game * Z) :=
  if negb (isValidPosition row col) then Ret (game, maxReveals) else
  m ← rd (mask game) row col;
  if truthy m then Ret (game, maxReveals) else
  f ← rd (flags game) row col;
  if truthy f then Ret (game, maxReveals) else
  if maxReveals <=? 0 then Ret (game, maxReveals) else
  match fuel with
  | O => Stop OutOfFuel
  | S fuel' =>
      mask' ← wr (mask game) row col true;
      let game := set_mask game mask' in
      let maxReveals := maxReveals - 1 in
      v ← rd (board game) row col;
      if is_num 0 v
      then forEach (fun '(game, maxReveals) '(dx, dy) =>
                      let newRow := row + dx in
                      let newCol := col + dy in
                      revealEmpty_fuel fuel' game newRow newCol maxReveals)
                   (game, maxReveals) DIRECTIONS
      else Ret (game, maxReveals)
  end.

Definition revealEmpty (game : Game) (row col : Z) (maxReveals : Z)
  : res (Game * Z) :=
  revealEmpty_fuel (Z.to_nat maxReveals) game row col maxReveals.

(** The mine disclosure of the loss transition (the same double loop in the
    chord branch and in the direct-click branch). *)
Definition revealMines (game : Game) : res Game :=
  forEach (fun game '(r, c) =>
             v ← rd (board game) r c;
             if is_mine v
             then m ← wr (mask game) r c true; Ret (set_mask game m)
             else Ret game)
          game cells.

Definition mineHit (game : Game) (now : Z) : res Game :=
  revealMines (end_game game now).

(** The neighbour scan of the chord branch of [handleRequest]. *)
Definition scanChord (game : Game) (row col : Z) : res (Z * list (Z * Z)) :=
  forEach (fun '(flagCount, unopenedCells) '(dx, dy) =>
             let newRow := row + dx in
             let newCol := col + dy in
             if isValidPosition newRow newCol
             then f ← rd (flags game) newRow newCol;
                  if truthy f
                  then Ret (flagCount + 1, unopenedCells)
                  else m ← rd (mask game) newRow newCol;
                       if negb (truthy m)
                       then Ret (flagCount, unopenedCells ++ [(newRow, newCol)])
                       else Ret (flagCount, unopenedCells)
             else Ret (flagCount, unopenedCells))
          (0, []) DIRECTIONS.

(** The [hitMine] loop: is one of the collected cells a mine?  The [break]
    is the short-circuit of the fold. *)
Fixpoint anyMine (game : Game) (positions : list (Z * Z)) : res bool :=
  match positions with
  | [] => Ret false
  | (r, c) :: positions' =>
      v ← rd (board game) r c;
      if is_mine v then Ret true else anyMine game positions'
  end.

(** [for (const [r, c] of unopenedCells) revealEmpty(game, r, c)] *)
Definition revealAll (game : Game) (positions : list (Z * Z)) : res Game :=
  forEach (fun game '(r, c) =>
             '(game', _) ← revealEmpty game r c MAX_REVEALS; Ret game')
          game positions.

(** The move of [handleRequest]: the chord branch on a revealed numbered
    cell, the direct click on an unflagged cell, nothing on a flagged one. *)
Definition applyMove (game : Game) (row col : Z) (now : Z) : res Game :=
  m ← rd (mask game) row col;
  v ← (if truthy m then rd (board game) row col else Ret None);
  if truthy m && gt0 v then
    '(flagCount, unopenedCells) ← scanChord game row col;
    if is_num flagCount v then
      hitMine ← anyMine game unopenedCells;
      if hitMine : bool then mineHit game now
      else
        game ← revealAll game unopenedCells;
        Ret (if 0 <? Z.of_nat (length unopenedCells) then inc_moves game
             else game)
    else
      '(game, flagged) ← autoFlag game row col;
      Ret (if flagged : bool then inc_moves game else game)
  else
    f ← rd (flags game) row col;
    if negb (truthy f) then
      let game := inc_moves game in
      v ← rd (board game) row col;
      if is_mine v then mineHit game now
      else '(game, _) ← revealEmpty game row col MAX_REVEALS; Ret game
    else Ret game.

(** The two counters of the win check. *)
Definition countFlags (game : Game) : res (Z * Z) :=
  forEach (fun '(correctFlags, totalFlags) '(r, c) =>
             f ← rd (flags game) r c;
             if truthy f
             then v ← rd (board game) r c;
                  Ret (if is_mine v then correctFlags + 1 else correctFlags,
                       totalFlags + 1)
             else Ret (correctFlags, totalFlags))
          (0, 0) cells.

Definition checkWin (game : Game) (now : Z) : res Game :=
  if negb (gameOver game) then
    '(correctFlags, totalFlags) ← countFlags game;
    if (correctFlags =? MINES) && (totalFlags =? MINES)
    then Ret (win_game game now)
    else Ret game
  else Ret game.

(** One cell action on a loaded game that is not over: the move, then the
    win check; the result is the game that is stored back. *)
Definition cellAction (game : Game) (row col : Z) (now : Z) : res Game :=
  game ← applyMove game row col now;
  checkWin game now.

(** ** The persistence boundary *)

#[local] Unset Elimination Schemes.

(** JavaScript values, as far as the game object needs them. *)
Inductive jsval : Type :=
| VUndefined
| VNull
| VBool (b : bool)
| VNum (n : Z)
| VArr (items : list jsval)
| VObj (props : list (string * jsval)).

(** The syntax tree of a JSON text. *)
Inductive json : Type :=
| JNull
| JBool (b : bool)
| JNum (n : Z)
| JArr (items : list json)
| JObj (members : list (string * json)).

#[local] Set Elimination Schemes.

(** [JSON.stringify]: a property whose value is [undefined] is left out of
    an object, an [undefined] array element is written [null]; at the top
    an [undefined] value has no JSON text. *)
Fixpoint stringify_value (v : jsval) : option json :=
  match v with
  | VUndefined => None
  | VNull => Some JNull
  | VBool b => Some (JBool b)
  | VNum n => Some (JNum n)
  | VArr items =>
      Some (JArr ((fun x => default JNull (stringify_value x)) <$> items))
  | VObj props =>
      Some (JObj
        ((fix members (ps : list (string * jsval)) : list (string * json) :=
            match ps with
            | [] => []
            | (k, x) :: ps' =>
                match stringify_value x with
                | Some j => (k, j) :: members ps'
                | None => members ps'
                end
            end) props))
  end.

(** [JSON.parse] on the syntax tree. *)
Fixpoint parse_value (j : json) : jsval :=
  match j with
  | JNull => VNull
  | JBool b => VBool b
  | JNum n => VNum n
  | JArr items => VArr (parse_value <$> items)
  | JObj members =>
      VObj ((fix props (ms : list (string * json)) : list (string * jsval) :=
               match ms with
               | [] => []
               | (k, x) :: ms' => (k, parse_value x) :: props ms'
               end) members)
  end.

(** [obj.key]: a property that is missing reads as [undefined]. *)
Fixpoint lookupProp (props : list (string * jsval)) (key : string) : jsval :=
  match props with
  | [] => VUndefined
  | (k, v) :: props' =>
      if String.eqb k key then v else lookupProp props' key
  end.

Definition getProp (v : jsval) (key : string) : res jsval :=
  match v with
  | VObj props => Ret (lookupProp props key)
  | VUndefined | VNull => Stop TypeError
  | _ => Ret VUndefined
  end.

(** The game object as a JavaScript value: the object literal of
    [createNewGame], with its [endTime] property. *)
Definition gridToJS {A : Type} (item : A -> jsval) (g : list (list A)) : jsval :=
  VArr ((fun rw => VArr (item <$> rw)) <$> g).

Definition toJS (g : Game) : jsval :=
  VObj [ ("board", gridToJS VNum (board g));
         ("mask", gridToJS VBool (mask g));
         ("flags", gridToJS VBool (flags g));
         ("gameOver", VBool (gameOver g));
         ("won", VBool (won g));
         ("startTime", VNum (startTime g));
         ("moves", VNum (moves g));
         ("endTime", match endTime g with
                     | Some t => VNum t
                     | None => VUndefined
                     end) ]%string.

(** The typed view of a JavaScript value that the handler uses as a game. *)
Definition asNum (v : jsval) : res Z :=
  match v with VNum n => Ret n | _ => Stop Malformed end.

Definition asBool (v : jsval) : res bool :=
  match v with VBool b => Ret b | _ => Stop Malformed end.

Fixpoint asList {A : Type} (item : jsval -> res A) (l : list jsval)
  : res (list A) :=
  match l with
  | [] => Ret []
  | v :: l' => x ← item v; xs ← asList item l'; Ret (x :: xs)
  end.

Definition asArray {A : Type} (item : jsval -> res A) (v : jsval)
  : res (list A) :=
  match v with VArr items => asList item items | _ => Stop Malformed end.

Definition asGrid {A : Type} (item : jsval -> res A) (v : jsval)
  : res (list (list A)) :=
  asArray (asArray item) v.

Definition asGame (v : jsval) : res Game :=
  board ← getProp v "board" ≫= asGrid asNum;
  mask ← getProp v "mask" ≫= asGrid asBool;
  flags ← getProp v "flags" ≫= asGrid asBool;
  gameOver ← getProp v "gameOver" ≫= asBool;
  won ← getProp v "won" ≫= asBool;
  startTime ← getProp v "startTime" ≫= asNum;
  moves ← getProp v "moves" ≫= asNum;
  endTime ← getProp v "endTime";
  endTime ← match endTime with
            | VUndefined => Ret None
            | VNum t => Ret (Some t)
            | _ => Stop Malformed
            end;
  Ret (mkGame board mask flags gameOver won startTime moves endTime).

(** [JSON.stringify(game)] and [JSON.parse(gameStr)]. *)
Definition encode (g : Game) : option json := stringify_value (toJS g).

Definition decode (j : json) : res Game := asGame (parse_value j).

(** The cell action of [handleRequest] on the stored value of the chat:
    [get], [JSON.parse], the move and the win check, [put] of
    [JSON.stringify(game)], and [delete] when the game is over.  The result
    is the stored value after the request. *)
Definition handleCallback (stored : option json) (row col now : Z)
  : res (option json) :=
  match stored with
  | None => Ret None
  | Some gameStr =>
      game ← decode gameStr;
      if gameOver game then Ret stored
      else game ← cellAction game row col now;
           Ret (if gameOver game then None else encode game)
  end.

(** The updates that [handleRequest] distinguishes: the commands [/start]
    and [/newgame], a callback whose data is [c_<row>_<col>], anything
    else. *)
Inductive update : Set :=
| NewGame
| CellClick (row col : Z)
| Other.

(** [handleRequest] as a function of the stored value of the chat: the
    value stored under [game:<chatId>] after the request.  [samples] are
    the random samples available to a new game and [now] is [Date.now()]. *)
Definition handleRequest (u : update) (samples : list (Z * Z)) (now : Z)
  (stored : option json) : res (option json) :=
  match u with
  | NewGame => game ← createNewGame samples now; Ret (encode game)
  | CellClick row col => handleCallback stored row col now
  | Other => Ret stored
  end.

(** * Notions of the specification *)

#[global] Arguments ROWS : simpl never.
#[global] Arguments COLS : simpl never.
#[global] Arguments MINES : simpl never.
#[global] Arguments MAX_REVEALS : simpl never.
#[global] Arguments cells : simpl never.
#[global] Arguments DIRECTIONS : simpl never.

(** A grid of the configured shape. *)
Definition wf_grid {A : Type} (g : list (list A)) : Prop :=
  length g = Z.to_nat ROWS /\ Forall (fun rw => length rw = Z.to_nat COLS) g.

(** ** Board generation *)

(** The cell at [p] holds a mine. *)
Definition mineAt (board : list (list Z)) (p : Z * Z) : Prop :=
  cell board p.1 p.2 = Some (-1).

#[global] Instance mineAt_dec board p : Decision (mineAt board p).
Proof. unfold mineAt. apply _. Defined.
#[global] Typeclasses Opaque mineAt.

(** The number of cells of the grid that hold [-1]. *)
Definition countMines (board : list (list Z)) : Z :=
  Z.of_nat (length (filter (mineAt board) cells)).

(** The in-bounds 8-directional neighbours of a cell. *)
Definition neighbours (row col : Z) : list (Z * Z) :=
  filter (fun p => isValidPosition p.1 p.2 = true)
         ((fun d => (row + d.1, col + d.2)) <$> DIRECTIONS).

(** The number of in-bounds neighbours that hold [-1], counted directly. *)
Definition adjacentMines (board : list (list Z)) (row col : Z) : Z :=
  Z.of_nat (length (filter (mineAt board) (neighbours row col))).

(** The invariant of a generated board. *)
Definition board_ok (board : list (list Z)) : Prop :=
  wf_grid board /\
  forall row col, isValidPosition row col = true ->
    cell board row col <> Some (-1) ->
    cell board row col = Some (adjacentMines board row col).

(** The range of [Math.floor(Math.random() * ROWS)] and of its column
    counterpart. *)
Definition sample_ok (p : Z * Z) : Prop := isValidPosition p.1 p.2 = true.

(** The body of the double loop of [calculateNumbers]. *)
Local Abbreviation numberCell :=
  (fun (board : list (list Z)) '(row, col) =>
     v ← rd board row col;
     if negb (is_mine v)
     then count ← countAround board row col; wr board row col count
     else Ret board).

(** ** Games *)

(** A game whose three grids have the configured shape. *)
Definition wf_game (g : Game) : Prop :=
  wf_grid (board g) /\ wf_grid (mask g) /\ wf_grid (flags g).

(** The game after [game.mask[row][col] = true]. *)
Definition reveal (g : Game) (row col : Z) : Game :=
  set_mask g (put (mask g) row col true).

(** ** The cascading reveal *)

(** The call does nothing: one of the four guards of [revealEmpty] holds. *)
Definition reveal_skips (g : Game) (row col b : Z) : Prop :=
  isValidPosition row col = false \/ cell (mask g) row col = Some true \/
  cell (flags g) row col = Some true \/ b ≤ 0.

(** The call reveals its cell: no guard holds. *)
Definition reveal_fires (g : Game) (row col b : Z) : Prop :=
  isValidPosition row col = true /\ cell (mask g) row col = Some false /\
  cell (flags g) row col = Some false /\ 0 < b.

(** The cell at [p] is revealed. *)
Definition revealedAt (m : list (list bool)) (p : Z * Z) : Prop :=
  cell m p.1 p.2 = Some true.

(** The mask entry at [p] is [false] in [m] and [true] in [m']. *)
Definition turnedOn (m m' : list (list bool)) (p : Z * Z) : Prop :=
  cell m p.1 p.2 = Some false /\ cell m' p.1 p.2 = Some true.

#[global] Instance revealedAt_dec m p : Decision (revealedAt m p).
Proof. unfold revealedAt. apply _. Defined.
#[global] Typeclasses Opaque revealedAt.

#[global] Instance turnedOn_dec m m' p : Decision (turnedOn m m' p).
Proof. unfold turnedOn. apply _. Defined.
#[global] Typeclasses Opaque turnedOn.

Definition countRevealed (m : list (list bool)) : Z :=
  Z.of_nat (length (filter (revealedAt m) cells)).

(** The number of mask entries that changed from [false] to [true]. *)
Definition newlyRevealed (m m' : list (list bool)) : Z :=
  Z.of_nat (length (filter (turnedOn m m') cells)).

(** No entry of [m] that is [true] is anything else in [m']. *)
Definition mask_grows (m m' : list (list bool)) : Prop :=
  forall row col, cell m row col = Some true -> cell m' row col = Some true.

(** The scalar fields of the game are the same. *)
Definition same_status (g g' : Game) : Prop :=
  gameOver g' = gameOver g /\ won g' = won g /\
  startTime g' = startTime g /\ moves g' = moves g /\ endTime g' = endTime g.

(** What one call of [revealEmpty] keeps and changes. *)
Definition reveal_rel (s s' : Game * Z) : Prop :=
  flags s'.1 = flags s.1 /\ same_status s.1 s'.1 /\
  mask_grows (mask s.1) (mask s'.1) /\
  (forall row col, cell (mask s'.1) row col = Some true ->
     cell (mask s.1) row col = Some true \/
     cell (flags s.1) row col = Some false) /\
  countRevealed (mask s'.1) = countRevealed (mask s.1) + (s.2 - s'.2) /\
  s'.2 ≤ s.2 /\ (0 ≤ s'.2 \/ s'.2 = s.2).

(** ** The neighbour scans *)

Definition flaggedAt (f : list (list bool)) (p : Z * Z) : Prop :=
  cell f p.1 p.2 = Some true.

#[global] Instance flaggedAt_dec f p : Decision (flaggedAt f p).
Proof. unfold flaggedAt. apply _. Defined.
#[global] Typeclasses Opaque flaggedAt.

(** A neighbour that is neither flagged nor revealed. *)
Definition hiddenUnflagged (g : Game) (p : Z * Z) : Prop :=
  ¬ flaggedAt (flags g) p /\ ¬ revealedAt (mask g) p.

#[global] Instance hiddenUnflagged_dec g p : Decision (hiddenUnflagged g p).
Proof. unfold hiddenUnflagged. apply _. Defined.
#[global] Typeclasses Opaque hiddenUnflagged.

(** The number of flagged neighbours of a cell. *)
Definition flagCount (g : Game) (row col : Z) : Z :=
  Z.of_nat (length (filter (flaggedAt (flags g)) (neighbours row col))).

(** The hidden unflagged neighbours of a cell, in the order of
    [DIRECTIONS]. *)
Definition hiddenNeighbours (g : Game) (row col : Z) : list (Z * Z) :=
  filter (hiddenUnflagged g) (neighbours row col).

Local Abbreviation offsets row col ds :=
  (filter (fun p : Z * Z => isValidPosition p.1 p.2 = true)
          ((fun d : Z * Z => (row + d.1, col + d.2)) <$> ds)).

Local Abbreviation chordScanBody game row col :=
  (fun '(flagCount, unopenedCells) '(dx, dy) =>
     let newRow := row + dx in
     let newCol := col + dy in
     if isValidPosition newRow newCol
     then f ← rd (flags game) newRow newCol;
          if truthy f
          then Ret (flagCount + 1, unopenedCells)
          else m ← rd (mask game) newRow newCol;
               if negb (truthy m)
               then Ret (flagCount, unopenedCells ++ [(newRow, newCol)])
               else Ret (flagCount, unopenedCells)
     else Ret (flagCount, unopenedCells)).

Local Abbreviation autoScanBody game row col :=
  (fun '(flaggedCount, hiddenCount, hiddenPositions) '(dx, dy) =>
     let newRow := row + dx in
     let newCol := col + dy in
     if isValidPosition newRow newCol
     then f ← rd (flags game) newRow newCol;
          if truthy f
          then Ret (flaggedCount + 1, hiddenCount, hiddenPositions)
          else m ← rd (mask game) newRow newCol;
               if negb (truthy m)
               then Ret (flaggedCount, hiddenCount + 1,
                         hiddenPositions ++ [(newRow, newCol)])
               else Ret (flaggedCount, hiddenCount, hiddenPositions)
     else Ret (flaggedCount, hiddenCount, hiddenPositions)).

Local Abbreviation discloseBody :=
  (fun (game : Game) '(r, c) =>
     v ← rd (board game) r c;
     if is_mine v
     then m ← wr (mask game) r c true; Ret (set_mask game m)
     else Ret game).

(** What a sequence of cascades keeps and changes. *)
Definition cascade_rel (g g' : Game) : Prop :=
  board g' = board g /\ flags g' = flags g /\ same_status g g' /\
  mask_grows (mask g) (mask g') /\
  forall row col, cell (mask g') row col = Some true ->
    cell (mask g) row col = Some true \/ cell (flags g) row col = Some false.

(** ** The win check *)

(** A flag on a mine. *)
Definition correctFlagAt (g : Game) (p : Z * Z) : Prop :=
  flaggedAt (flags g) p /\ mineAt (board g) p.

#[global] Instance correctFlagAt_dec g p : Decision (correctFlagAt g p).
Proof. unfold correctFlagAt. apply _. Defined.
#[global] Typeclasses Opaque correctFlagAt.

Definition totalFlags (g : Game) : Z :=
  Z.of_nat (length (filter (flaggedAt (flags g)) cells)).

Definition correctFlags (g : Game) : Z :=
  Z.of_nat (length (filter (correctFlagAt g) cells)).

(** The win condition of the handler. *)
Definition wins (g : Game) : Prop :=
  correctFlags g = MINES /\ totalFlags g = MINES.

#[global] Instance wins_dec g : Decision (wins g).
Proof. unfold wins. apply _. Defined.
#[global] Typeclasses Opaque wins.

Local Abbreviation countBody game :=
  (fun '(correctFlags, totalFlags) '(r, c) =>
     f ← rd (flags game) r c;
     if truthy f
     then v ← rd (board game) r c;
          Ret (if is_mine v then correctFlags + 1 else correctFlags,
               totalFlags + 1)
     else Ret (correctFlags, totalFlags)).

(** The condition under which [autoFlag] flags: some neighbour is hidden
    and unflagged, and there are as many of them as mines unaccounted
    for. *)
Definition autoFlag_fires (g : Game) (row col v : Z) : Prop :=
  0 < Z.of_nat (length (hiddenNeighbours g row col)) /\
  v - flagCount g row col = Z.of_nat (length (hiddenNeighbours g row col)).

#[global] Instance autoFlag_fires_dec g row col v :
  Decision (autoFlag_fires g row col v).
Proof. unfold autoFlag_fires. apply _. Defined.
#[global] Typeclasses Opaque autoFlag_fires.

(** No revealed cell carries a flag. *)
Definition tidy (g : Game) : Prop :=
  forall row col, cell (mask g) row col = Some true ->
                  cell (flags g) row col = Some false.

(** What every move keeps: the board, the start time and [won]; the mask
    only grows; and unless the move ends the game it keeps [gameOver],
    [endTime] and the separation of flags and revealed cells. *)
Definition move_rel (g g1 : Game) : Prop :=
  wf_game g1 /\ board g1 = board g /\ startTime g1 = startTime g /\
  won g1 = won g /\ mask_grows (mask g) (mask g1) /\
  (gameOver g1 = true \/
   (gameOver g1 = gameOver g /\ endTime g1 = endTime g /\
    (tidy g -> tidy g1))).

(** ** Reachable games *)

(** The games that the handler can hold: a new game, and the result of a
    cell action on a reachable game that is not over (the handler returns
    at once on a game that is over). *)
Inductive reachable : Game -> Prop :=
| reach_new samples now g :
    Forall sample_ok samples ->
    createNewGame samples now = Ret g ->
    reachable g
| reach_move g row col now g' :
    reachable g -> gameOver g = false ->
    cellAction g row col now = Ret g' ->
    reachable g'.

(** The invariant of the reachable games. *)
Definition consistent (g : Game) : Prop :=
  wf_game g /\ board_ok (board g) /\ countMines (board g) = MINES /\
  (gameOver g = false ->
   won g = false /\ endTime g = None /\ ¬ wins g /\ tidy g).

(** ** A game played through the model *)

(** Twelve samples: the second repeats the first and is rejected, the
    eleventh places the tenth mine and the last is not consumed. *)
Definition demoSamples : list (Z * Z) :=
  [ (0, 0); (0, 0); (1, 1); (2, 2); (3, 3); (4, 4); (5, 5); (6, 6); (7, 7);
    (0, 7); (7, 0); (3, 4) ].

Definition demoBoard : list (list Z) :=
  [ [-1;  2;  1;  0;  0;  0;  1; -1];
    [ 2; -1;  2;  1;  0;  0;  1;  1];
    [ 1;  2; -1;  2;  1;  0;  0;  0];
    [ 0;  1;  2; -1;  2;  1;  0;  0];
    [ 0;  0;  1;  2; -1;  2;  1;  0];
    [ 0;  0;  0;  1;  2; -1;  2;  1];
    [ 1;  1;  0;  0;  1;  2; -1;  2];
    [-1;  1;  0;  0;  0;  1;  2; -1] ].

Definition demoGame : Game :=
  mkGame demoBoard (newGrid false) (newGrid false) false false 1000 0 None.

(** The game of a run, or [fallback] when the run stops. *)
Definition game_of (r : res Game) (fallback : Game) : Game :=
  match r with
  | Ret g => g
  | Stop _ => fallback
  end.

(** After a first click at (0, 3), a cell that holds 0. *)
Definition demoOpened : Game :=
  Eval vm_compute in game_of (cellAction demoGame 0 3 2000) demoGame.

(** After chord clicks at (1, 3) and (2, 4), which flag (2, 2) and (3, 3). *)
Definition demoFlagged : Game :=
  Eval vm_compute in
    game_of (g ← cellAction demoOpened 1 3 3000; cellAction g 2 4 4000)
            demoGame.

(** A hand-made position: the region of [demoOpened] is revealed and every
    mine but (2, 2) carries a flag. *)
Definition demoNearWin : Game :=
  Eval vm_compute in
    game_of (flagAll demoOpened
               [ (0, 0); (1, 1); (3, 3); (4, 4); (5, 5); (6, 6); (7, 7);
                 (0, 7); (7, 0) ])
            demoGame.

(** A hand-made position with a wrong flag: (1, 2) is revealed and shows 2,
    its neighbours (0, 1), not a mine, and (1, 1), a mine, are flagged, and
    its neighbour (2, 2), a mine, is hidden and unflagged. *)
Definition demoWrongFlag : Game :=
  Eval vm_compute in
    game_of (flagAll (reveal demoGame 1 2) [ (0, 1); (1, 1) ]) demoGame.

Ltac wf_by_computation :=
  unfold wf_game, wf_grid; repeat split; repeat constructor.

(** ** Further notions *)

(** The cells that a cascade from [g] to [g'] revealed and that hold 0 have
    all their unflagged in-bounds neighbours revealed in [g']. *)
Definition closed_cascade (g g' : Game) : Prop :=
  forall r c dx dy,
    cell (mask g) r c = Some false -> cell (mask g') r c = Some true ->
    cell (board g) r c = Some 0 -> (dx, dy) ∈ DIRECTIONS ->
    isValidPosition (r + dx) (c + dy) = true ->
    cell (flags g) (r + dx) (c + dy) = Some false ->
    cell (mask g') (r + dx) (c + dy) = Some true.

(** The recursive calls of [revealEmpty] at a cell that holds 0. *)
Local Abbreviation cascadeBody fuel row col :=
  (fun '(game, maxReveals) '(dx, dy) =>
     revealEmpty_fuel fuel game (row + dx) (col + dy) maxReveals).

(** Every flag is on a mine. *)
Definition flags_on_mines (g : Game) : Prop :=
  forall r c, cell (flags g) r c = Some true -> cell (board g) r c = Some (-1).

(** No mine is revealed. *)
Definition mines_hidden (g : Game) : Prop :=
  forall r c, cell (board g) r c = Some (-1) -> cell (mask g) r c = Some false.

(** Every mine is revealed. *)
Definition mines_shown (g : Game) : Prop :=
  forall r c, cell (board g) r c = Some (-1) -> cell (mask g) r c = Some true.

(** A hidden unflagged cell that is a mine. *)
Definition hiddenMine (g : Game) (p : Z * Z) : Prop :=
  mineAt (board g) p /\ hiddenUnflagged g p.

#[global] Instance hiddenMine_dec g p : Decision (hiddenMine g p).
Proof. unfold hiddenMine. apply _. Defined.
#[global] Typeclasses Opaque hiddenMine.

(** What play keeps besides [consistent]: the flags are right, the mines
    stay hidden while the game is in progress, and a game that is over has
    its end time, with the win condition when won and the mines disclosed
    when lost. *)
Definition sound (g : Game) : Prop :=
  consistent g /\ flags_on_mines g /\
  (gameOver g = false -> mines_hidden g) /\
  (gameOver g = true ->
   is_Some (endTime g) /\ (won g = true -> wins g) /\
   (won g = false -> mines_shown g)).

(** The stored value of a chat is absent or the text of a reachable game
    in progress. *)
Definition store_ok (stored : option json) : Prop :=
  stored = None \/
  exists g, reachable g /\ gameOver g = false /\ stored = encode g.

(** No flag of [g] is missing in [g']. *)
Definition flags_grow (g g' : Game) : Prop :=
  forall r c, cell (flags g) r c = Some true -> cell (flags g') r c = Some true.

(** ** What the player sees: the keyboard and the status text *)

(** [EMOJI] *)
Module EMOJI.
Definition HIDDEN : string := "⬜".
Definition MINE : string := "💣".
Definition FLAG : string := "🚩".
Definition NUMBERS : list string :=
  [ "0️⃣"; "1️⃣"; "2️⃣"; "3️⃣"; "4️⃣"; "5️⃣"; "6️⃣"; "7️⃣"; "8️⃣" ]%string.
Definition TIMER : string := "⏱️".
End EMOJI.

(** [getCellDisplay]: [None] is [undefined], the value of
    [EMOJI.NUMBERS[v]] when [v] is not an index of the table. *)
Definition getCellDisplay (game : Game) (row col : Z) : res (option string) :=
  f ← rd (flags game) row col;
  if truthy f then Ret (Some EMOJI.FLAG) else
  m ← rd (mask game) row col;
  if negb (truthy m) then Ret (Some EMOJI.HIDDEN) else
  v ← rd (board game) row col;
  if is_mine v then Ret (Some EMOJI.MINE) else
  Ret (match v with
       | Some n => idx EMOJI.NUMBERS n
       | None => None
       end).

(** A button of the inline keyboard. *)
Record button : Type := mkButton {
  text : option string;
  callback_data : string
}.

(** The template literal [`c_${row}_${col}`] for integers below [10^21] in
    absolute value, which a template literal writes in decimal notation
    without an exponent; [generateKeyboard] applies it to the loop indices
    0 to 7. *)
Definition cellData (row col : Z) : string :=
  "c_" +:+ pretty row +:+ "_" +:+ pretty col.

Definition generateKeyboard (game : Game) : res (list (list button)) :=
  forEach (fun keyboard row =>
             rowButtons ←
               forEach (fun rowButtons col =>
                          display ← getCellDisplay game row col;
                          Ret (rowButtons ++ [mkButton display (cellData row col)]))
                       [] (seqZ 0 COLS);
             Ret (keyboard ++ [rowButtons]))
          [] (seqZ 0 ROWS).

(** [s.split(sep)] for a separator of one character. *)
Fixpoint split (sep : ascii) (s : string) : list string :=
  match s with
  | EmptyString => [EmptyString]
  | String c s' =>
      if Ascii.eqb c sep then EmptyString :: split sep s'
      else match split sep s' with
           | [] => [String c EmptyString]
           | piece :: pieces => String c piece :: pieces
           end
  end.

(** The value of a decimal digit, by its character code: the digits are
    the codes 48 to 57. *)
Definition digit (c : ascii) : option N :=
  let code := N_of_ascii c in
  if ((48 <=? code) && (code <=? 57))%N then Some (code - 48)%N else None.

(** The value of a string of decimal digits. *)
Fixpoint decimal (s : string) : option N :=
  match s with
  | EmptyString => Some 0%N
  | String c s' =>
      d ← digit c; v ← decimal s';
      Some (d * 10 ^ N.of_nat (String.length s') + v)%N
  end.

(** The value of a non-empty string of decimal digits that is below
    [2^53]: up to there [Number] reads a digit string exactly, from there
    on it rounds to a double, which this model does not compute. *)
Definition digitsValue (s : string) : option Z :=
  match s with
  | EmptyString => None
  | _ => v ← decimal s;
         if (v <? 2 ^ 53)%N then Some (Z.of_N v) else None
  end.

(** [Number(s)] on the strings for which this model determines it.
    [Some n]: [Number(s)] is the integer [n]; this is so for the empty
    string, which is 0, and for a string of decimal digits, with or without
    a sign, whose value is below [2^53].  [None]: the model does not say
    what [Number(s)] is; the string is [NaN] for [Number], or it is a
    number written with blanks, a fraction, an exponent or a radix prefix,
    or a digit string of [2^53] or more.  Nothing is concluded from
    [None]. *)
Definition numberOf (s : string) : option Z :=
  match s with
  | EmptyString => Some 0
  | String "-" s' => Z.opp <$> digitsValue s'
  | String "+" s' => digitsValue s'
  | _ => digitsValue s
  end.

(** What the handler makes of the data of a callback:
    [data.startsWith('c_')], then
    [const [, row, col] = data.split('_').map(Number)].  [Cell row col]:
    the handler goes on with these integers.  [Unread]: the data starts
    with [c_] and the model does not say what the handler goes on with; the
    row or the column is missing, or [numberOf] does not determine it.
    Nothing is concluded from [Unread]. *)
Inductive callback : Set :=
| NotCell
| Cell (row col : Z)
| Unread.

Definition parseCallback (data : string) : callback :=
  if String.prefix "c_" data then
    match split "_" data with
    | _ :: r :: c :: _ =>
        match numberOf r, numberOf c with
        | Some row, Some col => Cell row col
        | _, _ => Unread
        end
    | _ => Unread
    end
  else NotCell.

(** [s.padStart(n, fill)] for a filler of one character. *)
Definition padStart (n : nat) (fill : ascii) (s : string) : string :=
  String.string_of_list_ascii (replicate (n - String.length s) fill) +:+ s.

(** [formatTime].  The argument is a number: [Some ms] an integer, [None]
    the [NaN] that [undefined - startTime] yields. *)
Definition formatTime (ms : option Z) : string :=
  match ms with
  | None => "NaN:NaN"
  | Some ms =>
      let seconds := ms / 1000 in
      let minutes := seconds / 60 in
      pretty minutes +:+ ":" +:+ padStart 2 "0" (pretty (Z.rem seconds 60))
  end.

(** [game.flags.flat().filter(f => f).length] *)
Definition flagsPlaced (game : Game) : Z :=
  Z.of_nat (length (filter (fun f : bool => f = true) (concat (flags game)))).

(** The time that [generateGameBoard] shows: up to [endTime] when the game
    is over, up to [now] otherwise. *)
Definition timeSpent (game : Game) (now : Z) : option Z :=
  if gameOver game
  then (fun e => e - startTime game) <$> endTime game
  else Some (now - startTime game).

Definition newline : string := String (ascii_of_nat 10) EmptyString.

Definition generateGameBoard (game : Game) (now : Z) : string :=
  EMOJI.TIMER +:+ " " +:+ formatTime (timeSpent game now) +:+
  " | 移动: " +:+ pretty (moves game) +:+ newline +:+
  "剩余地雷: " +:+ pretty (MINES - flagsPlaced game).

(** The text of the edited message: the board text, and the verdict when
    the game is over. *)
Definition messageText (game : Game) (now : Z) : string :=
  generateGameBoard game now +:+
  (if gameOver game
   then newline +:+ (if won game then "你赢了! 🎉" else "游戏结束! 💥")
   else "").

(** ** Games played to the end *)

(** A sequence of clicks through the cell action of the handler; a click on
    a game that is over is ignored, as the handler returns before the
    action. *)
Definition play (g : Game) (clicks : list (Z * Z)) (now : Z) : res Game :=
  forEach (fun g '(row, col) =>
             if gameOver g then Ret g else cellAction g row col now)
          g clicks.

(** The cells of [demoBoard] that hold no mine. *)
Definition demoSafe : list (Z * Z) :=
  filter (fun p => ¬ mineAt demoBoard p) cells.

(** [demoFlagged] played to the end: every safe cell is clicked, which
    reveals it, and clicked again, which flags the mines around it. *)
Definition demoWon : Game :=
  Eval vm_compute in
    game_of (play demoFlagged (demoSafe ++ demoSafe) 5000) demoGame.

(** [demoOpened] with another value in the hidden cell (7, 3). *)
Definition demoOtherBoard : Game :=
  mkGame (put (board demoOpened) 7 3 5) (mask demoOpened) (flags demoOpened)
         (gameOver demoOpened) (won demoOpened) (startTime demoOpened)
         (moves demoOpened) (endTime demoOpened).

(** * Properties *)

(** ** The monad and the loops *)

Lemma bind_Ret {A B : Type} (m : res A) (f : A -> res B) (b : B) :
  m ≫= f = Ret b -> exists a, m = Ret a /\ f a = Ret b.
Proof. destruct m as [a|e]; simpl; [eauto | discriminate]. Qed.

Lemma forEach_app {A St : Type} (body : St -> A -> res St) s l1 l2 :
  forEach body s (l1 ++ l2) = s' ← forEach body s l1; forEach body s' l2.
Proof.
  revert s; induction l1 as [|x l1 IH]; intros s; simpl; [reflexivity|].
  destruct (body s x) as [s'|e]; simpl; [apply IH | reflexivity].
Qed.

(** A loop whose body keeps an invariant returns, in a state that
    satisfies the invariant. *)
Lemma forEach_inv {A St : Type} (Inv : St -> Prop) (body : St -> A -> res St)
  (l : list A) (s : St) :
  Inv s ->
  (forall s x, x ∈ l -> Inv s -> exists s', body s x = Ret s' /\ Inv s') ->
  exists s', forEach body s l = Ret s' /\ Inv s'.
Proof.
  revert s; induction l as [|x l IH]; intros s Hs Hbody; simpl.
  - eauto.
  - destruct (Hbody s x) as (s1 & -> & Hs1); [left | assumption |].
    simpl. apply IH; [assumption|].
    intros s2 y Hy. apply Hbody. by right.
Qed.

(** ** Positions *)

Lemma isValidPosition_spec row col :
  isValidPosition row col = true <->
  0 ≤ row < ROWS /\ 0 ≤ col < COLS.
Proof.
  unfold isValidPosition. rewrite !andb_true_iff.
  rewrite !Z.leb_le, !Z.ltb_lt. lia.
Qed.

Lemma elem_of_cells row col :
  (row, col) ∈ cells <-> isValidPosition row col = true.
Proof.
  rewrite isValidPosition_spec. unfold cells.
  rewrite list_elem_of_bind. split.
  - intros (r & Hin & Hr). apply list_elem_of_bind in Hin.
    destruct Hin as (c & Hin & Hc).
    apply list_elem_of_singleton in Hin. inversion Hin; subst.
    apply elem_of_seqZ in Hr, Hc. lia.
  - intros [Hr Hc]. exists row. split; [|apply elem_of_seqZ; lia].
    apply list_elem_of_bind. exists col.
    split; [by apply list_elem_of_singleton | apply elem_of_seqZ; lia].
Qed.

Lemma NoDup_cells : NoDup cells.
Proof. apply (bool_decide_unpack _). vm_compute. exact I. Qed.

Lemma neighbours_differ row col dx dy :
  (dx, dy) ∈ DIRECTIONS -> (row + dx, col + dy) <> (row, col).
Proof.
  unfold DIRECTIONS. intros Hin Heq. inversion Heq.
  assert (dx = 0 /\ dy = 0) as [-> ->] by lia.
  repeat (apply elem_of_cons in Hin as [Hin|Hin]; [discriminate Hin|]).
  by apply elem_of_nil in Hin.
Qed.

(** ** Grids *)

Lemma idx_Some {A : Type} (l : list A) i x :
  idx l i = Some x -> 0 ≤ i < Z.of_nat (length l).
Proof.
  unfold idx. case_decide; [|discriminate].
  intros Hl%lookup_lt_Some. lia.
Qed.

Lemma idx_lt {A : Type} (l : list A) i :
  0 ≤ i < Z.of_nat (length l) -> is_Some (idx l i).
Proof.
  intros Hi. unfold idx. rewrite decide_True by lia.
  apply lookup_lt_is_Some. lia.
Qed.

Lemma idx_None {A : Type} (l : list A) i :
  ¬ (0 ≤ i < Z.of_nat (length l)) -> idx l i = None.
Proof.
  intros Hi. destruct (idx l i) eqn:E; [|reflexivity].
  apply idx_Some in E. contradiction.
Qed.

Lemma idx_of_nat {A : Type} (l : list A) (i : nat) :
  idx l (Z.of_nat i) = l !! i.
Proof. unfold idx. rewrite decide_True by lia. by rewrite Nat2Z.id. Qed.

Section grids.
Context {A : Type}.
Implicit Types (g : list (list A)) (l : list A).

Lemma wf_grid_row g row :
  wf_grid g -> 0 ≤ row < ROWS ->
  exists rw, idx g row = Some rw /\ length rw = Z.to_nat COLS.
Proof.
  intros [Hlen Hrows] Hr.
  destruct (idx_lt g row) as [rw Hrw]; [lia|].
  exists rw. split; [assumption|].
  unfold idx in Hrw. case_decide; [|discriminate].
  eapply (Forall_lookup_1 _ _ _ _ Hrows Hrw).
Qed.

Lemma cell_valid g row col :
  wf_grid g -> isValidPosition row col = true -> is_Some (cell g row col).
Proof.
  intros Hwf [Hr Hc]%isValidPosition_spec.
  destruct (wf_grid_row g row Hwf Hr) as (rw & Hrw & Hlen).
  unfold cell. rewrite Hrw. simpl. apply idx_lt. lia.
Qed.

Lemma cell_invalid g row col :
  wf_grid g -> isValidPosition row col = false -> cell g row col = None.
Proof.
  intros Hwf Hinv. unfold cell.
  destruct (idx g row) as [rw|] eqn:Hrw; simpl; [|reflexivity].
  pose proof (idx_Some _ _ _ Hrw) as Hr. destruct Hwf as [Hlen Hrows].
  assert (length rw = Z.to_nat COLS) as Hl.
  { unfold idx in Hrw. case_decide; [|discriminate].
    eapply (Forall_lookup_1 _ _ _ _ Hrows Hrw). }
  apply idx_None. intros Hc.
  assert (isValidPosition row col = true) as E
    by (apply isValidPosition_spec; lia).
  congruence.
Qed.

(** On a well-formed grid a read in an existing row does not throw. *)
Lemma rd_row g row col :
  wf_grid g -> 0 ≤ row < ROWS -> rd g row col = Ret (cell g row col).
Proof.
  intros Hwf Hr. destruct (wf_grid_row g row Hwf Hr) as (rw & Hrw & _).
  unfold rd, cell. by rewrite Hrw.
Qed.

Lemma rd_valid g row col :
  wf_grid g -> isValidPosition row col = true ->
  rd g row col = Ret (cell g row col).
Proof. intros Hwf [Hr _]%isValidPosition_spec. by apply rd_row. Qed.

Lemma rd_no_row g row col :
  wf_grid g -> ¬ (0 ≤ row < ROWS) -> rd g row col = Stop TypeError.
Proof.
  intros [Hlen _] Hr. unfold rd. rewrite idx_None; [reflexivity|lia].
Qed.

Lemma wr_valid g row col v :
  wf_grid g -> isValidPosition row col = true ->
  wr g row col v = Ret (put g row col v).
Proof.
  intros Hwf [Hr Hc]%isValidPosition_spec.
  destruct (wf_grid_row g row Hwf Hr) as (rw & Hrw & Hlen).
  unfold wr. rewrite Hrw. rewrite decide_True by lia. reflexivity.
Qed.

Lemma put_wf g row col v : wf_grid g -> wf_grid (put g row col v).
Proof.
  intros [Hlen Hrows]. unfold put. case_decide; [|by split].
  split; [by rewrite length_alter|].
  apply Forall_alter; [assumption|].
  intros rw _ Hl. by rewrite length_insert.
Qed.

Lemma cell_put_eq g row col v :
  wf_grid g -> isValidPosition row col = true ->
  cell (put g row col v) row col = Some v.
Proof.
  intros Hwf [Hr Hc]%isValidPosition_spec.
  destruct (wf_grid_row g row Hwf Hr) as (rw & Hrw & Hlen).
  unfold cell, put, idx in *. rewrite !decide_True in * by lia.
  rewrite list_lookup_alter_eq, Hrw. simpl.
  rewrite decide_True by lia. apply list_lookup_insert_eq. lia.
Qed.

Lemma cell_put_ne g row col v row' col' :
  (row, col) <> (row', col') ->
  cell (put g row col v) row' col' = cell g row' col'.
Proof.
  intros Hne. unfold cell, put, idx.
  destruct (decide (0 ≤ row ∧ 0 ≤ col)) as [Hrc|]; [|reflexivity].
  destruct (decide (0 ≤ row')) as [Hr'|]; [|reflexivity].
  destruct (decide (row = row')) as [->|Hrow].
  - rewrite list_lookup_alter_eq.
    destruct (g !! Z.to_nat row') as [rw|]; simpl; [|reflexivity].
    destruct (decide (0 ≤ col')) as [Hc'|]; [|reflexivity].
    apply list_lookup_insert_ne. intros E. apply Hne. f_equal. lia.
  - rewrite list_lookup_alter_ne by lia. reflexivity.
Qed.

Lemma cell_put g row col v row' col' :
  wf_grid g -> isValidPosition row col = true ->
  cell (put g row col v) row' col' =
  if decide ((row, col) = (row', col')) then Some v else cell g row' col'.
Proof.
  intros Hwf Hv. case_decide as E.
  - inversion E; subst. by apply cell_put_eq.
  - by apply cell_put_ne.
Qed.

Lemma newGrid_wf (v : A) : wf_grid (newGrid v).
Proof.
  unfold newGrid. split; [by rewrite length_replicate|].
  apply Forall_replicate. by rewrite length_replicate.
Qed.

Lemma cell_newGrid (v : A) row col :
  isValidPosition row col = true -> cell (newGrid v) row col = Some v.
Proof.
  intros [Hr Hc]%isValidPosition_spec. unfold cell, newGrid, idx.
  rewrite decide_True by lia.
  rewrite lookup_replicate_2 by lia. cbn [mbind option_bind].
  rewrite decide_True by lia. apply lookup_replicate_2. lia.
Qed.

(** Two well-formed grids with the same cells are the same grid. *)
Lemma grid_ext g1 g2 :
  wf_grid g1 -> wf_grid g2 ->
  (forall row col, isValidPosition row col = true ->
                   cell g1 row col = cell g2 row col) ->
  g1 = g2.
Proof.
  intros Hwf1 Hwf2 Hcells. apply list_eq. intros i.
  destruct (decide (i < Z.to_nat ROWS)%nat) as [Hi|Hi].
  - destruct (wf_grid_row g1 (Z.of_nat i) Hwf1) as (r1 & Hr1 & Hl1); [lia|].
    destruct (wf_grid_row g2 (Z.of_nat i) Hwf2) as (r2 & Hr2 & Hl2); [lia|].
    specialize (Hcells (Z.of_nat i)). unfold cell in Hcells.
    rewrite Hr1, Hr2 in Hcells. cbn [mbind option_bind] in Hcells.
    rewrite idx_of_nat in Hr1, Hr2. rewrite Hr1, Hr2. f_equal.
    apply list_eq. intros j.
    destruct (decide (j < Z.to_nat COLS)%nat) as [Hj|Hj].
    + rewrite <- !idx_of_nat. apply Hcells.
      apply isValidPosition_spec. lia.
    + rewrite !lookup_ge_None_2 by lia. reflexivity.
  - destruct Hwf1 as [H1 _], Hwf2 as [H2 _].
    rewrite !lookup_ge_None_2 by lia. reflexivity.
Qed.
End grids.

(** ** Counting cells *)

Lemma filter_length_iff {A : Type} (P Q : A -> Prop)
  `{!forall x, Decision (P x)} `{!forall x, Decision (Q x)} (l : list A) :
  (forall y, y ∈ l -> (P y <-> Q y)) ->
  length (filter P l) = length (filter Q l).
Proof.
  induction l as [|a l IH]; intros Hiff; [reflexivity|].
  rewrite !filter_cons.
  assert (P a <-> Q a) as Hpq by (apply Hiff; left).
  specialize (IH (fun y Hy => Hiff y (list_elem_of_further _ _ _ Hy))).
  destruct (decide (P a)), (decide (Q a)); simpl; tauto || lia.
Qed.

(** Changing a decidable predicate at one element of a duplicate-free list,
    from false to true, adds one to the number of elements it selects. *)
Lemma filter_length_flip {A : Type} (P Q : A -> Prop)
  `{!forall x, Decision (P x)} `{!forall x, Decision (Q x)} (l : list A) (x : A) :
  NoDup l -> x ∈ l -> ¬ P x -> Q x ->
  (forall y, y ∈ l -> y <> x -> (P y <-> Q y)) ->
  length (filter Q l) = S (length (filter P l)).
Proof.
  induction l as [|a l IH]; intros Hnd Hin HP HQ Hiff.
  - by apply elem_of_nil in Hin.
  - apply NoDup_cons in Hnd as [Hnotin Hnd].
    rewrite !filter_cons.
    apply elem_of_cons in Hin as [<-|Hin].
    + rewrite decide_True, decide_False by assumption. simpl. f_equal.
      symmetry. apply filter_length_iff. intros y Hy.
      apply Hiff; [by right | intros ->; contradiction].
    + assert (a <> x) as Ha by (intros ->; contradiction).
      assert (P a <-> Q a) as Hpq by (apply Hiff; [left | exact Ha]).
      specialize (IH Hnd Hin HP HQ
                    (fun y Hy => Hiff y (list_elem_of_further _ _ _ Hy))).
      destruct (decide (P a)), (decide (Q a)); simpl; tauto || lia.
Qed.

(** ** Board generation *)

Lemma is_mine_true board row col :
  is_mine (cell board row col) = true <-> mineAt board (row, col).
Proof.
  unfold is_mine, is_num, mineAt. simpl.
  destruct (cell board row col) as [v|]; [|split; discriminate].
  rewrite Z.eqb_eq. split; [by intros -> | by intros [= ->]].
Qed.

Lemma is_mine_false board row col :
  is_mine (cell board row col) = false <-> ¬ mineAt board (row, col).
Proof. rewrite <- is_mine_true. by destruct (is_mine _). Qed.

Lemma countMines_put_mine board row col :
  wf_grid board -> isValidPosition row col = true ->
  ¬ mineAt board (row, col) ->
  countMines (put board row col (-1)) = countMines board + 1.
Proof.
  intros Hwf Hv Hno. unfold countMines.
  rewrite (filter_length_flip (mineAt board) (mineAt (put board row col (-1)))
             cells (row, col)).
  - lia.
  - apply NoDup_cells.
  - by apply elem_of_cells.
  - assumption.
  - unfold mineAt. simpl. by apply cell_put_eq.
  - intros [r c] _ Hne. unfold mineAt. simpl.
    rewrite cell_put_ne by congruence. reflexivity.
Qed.

Lemma countMines_newGrid : countMines (newGrid 0) = 0.
Proof. vm_compute. reflexivity. Qed.

(** The placement loop ends with exactly [MINES] mines on a well-formed
    board. *)
Lemma placeMines_spec samples : forall board k board',
  Forall sample_ok samples ->
  wf_grid board -> countMines board = k -> k ≤ MINES ->
  placeMines samples board k = Ret board' ->
  wf_grid board' /\ countMines board' = MINES.
Proof.
  induction samples as [|[row col] samples IH];
    intros board k board' Hs Hwf Hk Hle Hrun; simpl in Hrun.
  - destruct (k <? MINES) eqn:E; [discriminate|].
    apply Z.ltb_ge in E. inversion Hrun; subst board'. split; [assumption|lia].
  - destruct (k <? MINES) eqn:E.
    2:{ apply Z.ltb_ge in E. inversion Hrun; subst board'.
        split; [assumption|lia]. }
    apply Z.ltb_lt in E.
    apply Forall_cons in Hs as [Hv Hs]. unfold sample_ok in Hv; simpl in Hv.
    rewrite rd_valid in Hrun by assumption. simpl in Hrun.
    destruct (is_mine (cell board row col)) eqn:Hm; simpl in Hrun.
    + by apply (IH board k).
    + rewrite wr_valid in Hrun by assumption. simpl in Hrun.
      apply is_mine_false in Hm.
      apply (IH (put board row col (-1)) (k + 1)); try assumption.
      * by apply put_wf.
      * rewrite countMines_put_mine by assumption. lia.
      * lia.
Qed.

Lemma countMines_full board :
  (forall p, p ∈ cells -> mineAt board p) -> countMines board = 64.
Proof.
  intros Hall. unfold countMines.
  rewrite (filter_length_iff (mineAt board) (fun _ => True)).
  - vm_compute. reflexivity.
  - intros p Hp. split; [done|]. intros _. by apply Hall.
Qed.

(** The placement loop returns as soon as the samples have covered the
    grid: a loop that has not returned turns every sampled cell into a
    mine, and the grid has more than [MINES] cells. *)
Lemma placeMines_returns samples : forall board k,
  Forall sample_ok samples ->
  wf_grid board -> countMines board = k -> k ≤ MINES ->
  (forall p, p ∈ cells -> p ∈ samples \/ mineAt board p) ->
  exists board', placeMines samples board k = Ret board'.
Proof.
  induction samples as [|[row col] samples IH];
    intros board k Hs Hwf Hk Hle Hcover; cbn [placeMines].
  - assert (countMines board = 64) as Hfull.
    { apply countMines_full. intros p Hp.
      destruct (Hcover p Hp) as [[]%elem_of_nil|Hm]. exact Hm. }
    unfold MINES in Hle. lia.
  - destruct (k <? MINES) eqn:E; [|eauto].
    apply Forall_cons in Hs as [Hv Hs]. unfold sample_ok in Hv; simpl in Hv.
    rewrite rd_valid by assumption. cbn [mbind res_bind].
    destruct (is_mine (cell board row col)) eqn:Hm; cbn [negb].
    + apply is_mine_true in Hm. apply (IH board k); try assumption.
      intros p Hp. destruct (Hcover p Hp) as [[->|Hin]%elem_of_cons|Hmine];
        auto.
    + apply is_mine_false in Hm. apply Z.ltb_lt in E.
      rewrite wr_valid by assumption. cbn [mbind res_bind].
      apply (IH (put board row col (-1)) (k + 1)); try assumption.
      * by apply put_wf.
      * rewrite countMines_put_mine by assumption. lia.
      * lia.
      * intros [r c] Hp. unfold mineAt. simpl.
        rewrite cell_put by assumption.
        destruct (decide ((row, col) = (r, c))) as [Heq|Hne]; [by right|].
        destruct (Hcover (r, c) Hp) as [[Heq|Hin]%elem_of_cons|Hmine].
        -- congruence.
        -- by left.
        -- by right.
Qed.

Lemma countAround_spec board row col :
  wf_grid board ->
  countAround board row col = Ret (adjacentMines board row col).
Proof.
  intros Hwf. unfold countAround, adjacentMines, neighbours.
  change (Ret (Z.of_nat (length (filter (mineAt board)
            (filter (fun p => isValidPosition p.1 p.2 = true)
               ((fun d => (row + d.1, col + d.2)) <$> DIRECTIONS))))))
    with (Ret (0 + Z.of_nat (length (filter (mineAt board)
            (filter (fun p => isValidPosition p.1 p.2 = true)
               ((fun d => (row + d.1, col + d.2)) <$> DIRECTIONS)))))).
  generalize 0 as k. generalize DIRECTIONS as ds.
  induction ds as [|[dx dy] ds IH]; intros k.
  - simpl. f_equal. lia.
  - cbn [forEach fmap list_fmap fst snd]. rewrite filter_cons. cbn [fst snd].
    destruct (isValidPosition (row + dx) (col + dy)) eqn:Hv.
    + rewrite rd_valid by assumption. cbn [mbind res_bind].
      rewrite decide_True by reflexivity. rewrite filter_cons.
      destruct (is_mine (cell board (row + dx) (col + dy))) eqn:Hm.
      * apply is_mine_true in Hm. rewrite decide_True by assumption.
        rewrite IH. f_equal. simpl length. lia.
      * apply is_mine_false in Hm. rewrite decide_False by assumption.
        apply IH.
    + cbn [mbind res_bind]. rewrite decide_False by discriminate. apply IH.
Qed.

Lemma adjacentMines_ext board1 board2 row col :
  (forall p, mineAt board1 p <-> mineAt board2 p) ->
  adjacentMines board1 row col = adjacentMines board2 row col.
Proof.
  intros Hiff. unfold adjacentMines. f_equal.
  apply filter_length_iff. intros p _. apply Hiff.
Qed.

Lemma adjacentMines_nonneg board row col : 0 ≤ adjacentMines board row col.
Proof. unfold adjacentMines. lia. Qed.

(** The cells the loop has visited hold their mine count unless they are
    mines; the other cells are as they were.  The counts written on the way
    are never [-1], so the in-place update does not disturb later counts. *)
Lemma calculateNumbers_loop (l : list (Z * Z)) : forall board,
  NoDup l -> Forall sample_ok l -> wf_grid board ->
  exists board',
    forEach numberCell board l = Ret board' /\ wf_grid board' /\
    forall row col,
      cell board' row col =
      if decide ((row, col) ∈ l /\ ¬ mineAt board (row, col))
      then Some (adjacentMines board row col)
      else cell board row col.
Proof.
  induction l as [|[r0 c0] l IH]; intros board Hnd Hval Hwf.
  - exists board. split_and!; [done..|]. intros row col.
    rewrite decide_False; [reflexivity|]. intros [[]%elem_of_nil _].
  - apply NoDup_cons in Hnd as [Hnotin Hnd].
    apply Forall_cons in Hval as [Hv Hval]. unfold sample_ok in Hv; simpl in Hv.
    cbn [forEach]. rewrite rd_valid by assumption. cbn [mbind res_bind].
    destruct (is_mine (cell board r0 c0)) eqn:Hm; cbn [negb].
    + apply is_mine_true in Hm.
      destruct (IH board Hnd Hval Hwf) as (board' & Hrun & Hwf' & Hcells).
      exists board'. split_and!; [done..|]. intros row col.
      rewrite Hcells.
      assert (((row, col) ∈ l /\ ¬ mineAt board (row, col)) <->
              ((row, col) ∈ (r0, c0) :: l /\ ¬ mineAt board (row, col))) as Hiff.
      { rewrite elem_of_cons. split; [tauto|].
        intros [[E|Hin] Hno]; [|tauto]. inversion E; subst. contradiction. }
      destruct (decide ((row, col) ∈ l /\ ¬ mineAt board (row, col))),
        (decide ((row, col) ∈ (r0, c0) :: l /\ ¬ mineAt board (row, col)));
        tauto || reflexivity.
    + apply is_mine_false in Hm.
      rewrite countAround_spec by assumption. cbn [mbind res_bind].
      rewrite wr_valid by assumption.
      set (n := adjacentMines board r0 c0).
      set (board1 := put board r0 c0 n).
      assert (forall p, mineAt board1 p <-> mineAt board p) as Hsame.
      { intros [r c]. unfold mineAt, board1. simpl.
        rewrite cell_put by assumption. case_decide as E; [|reflexivity].
        inversion E; subst r c.
        pose proof (adjacentMines_nonneg board r0 c0). fold n in H.
        split; [intros [= Hn]; lia | intros Hc; contradiction]. }
      destruct (IH board1 Hnd Hval (put_wf _ _ _ _ Hwf))
        as (board' & Hrun & Hwf' & Hcells).
      exists board'. split_and!; [done..|]. intros row col.
      rewrite Hcells. rewrite (adjacentMines_ext board1 board) by assumption.
      unfold board1. rewrite cell_put by assumption. fold board1.
      destruct (decide ((r0, c0) = (row, col))) as [E|E].
      * inversion E; subst row col.
        rewrite decide_False by tauto.
        rewrite decide_True; [reflexivity|]. split; [left | assumption].
      * assert (((row, col) ∈ l /\ ¬ mineAt board1 (row, col)) <->
                ((row, col) ∈ (r0, c0) :: l /\ ¬ mineAt board (row, col)))
          as Hiff.
        { rewrite elem_of_cons, (Hsame (row, col)). split; [tauto|].
          intros [[E'|Hin] Hno]; [congruence|tauto]. }
        destruct (decide ((row, col) ∈ l /\ ¬ mineAt board1 (row, col))),
          (decide ((row, col) ∈ (r0, c0) :: l /\ ¬ mineAt board (row, col)));
          tauto || reflexivity.
Qed.

Lemma calculateNumbers_spec board :
  wf_grid board ->
  exists board',
    calculateNumbers board = Ret board' /\ wf_grid board' /\
    (forall p, mineAt board' p <-> mineAt board p) /\
    forall row col, isValidPosition row col = true ->
      ¬ mineAt board (row, col) ->
      cell board' row col = Some (adjacentMines board row col).
Proof.
  intros Hwf.
  destruct (calculateNumbers_loop cells board NoDup_cells) as
    (board' & Hrun & Hwf' & Hcells); [|assumption|].
  { apply Forall_forall. intros [r c] Hin. by apply elem_of_cells. }
  exists board'. split_and!; [done..| |]; [intros p; split|].
  - unfold mineAt. rewrite Hcells. case_decide as E; [|done].
    intros [= Hn]. pose proof (adjacentMines_nonneg board p.1 p.2). lia.
  - unfold mineAt. rewrite Hcells. case_decide as E; [|done].
    destruct E as [_ E]. intros Hm. destruct p. contradiction.
  - intros row col Hv Hno. rewrite Hcells.
    rewrite decide_True; [reflexivity|].
    split; [by apply elem_of_cells | assumption].
Qed.

(** Board generation returns when the samples stay in range and cover the
    grid. *)
Lemma createNewGame_returns samples now :
  Forall sample_ok samples -> (forall p, p ∈ cells -> p ∈ samples) ->
  exists game, createNewGame samples now = Ret game.
Proof.
  intros Hs Hcover. unfold createNewGame.
  destruct (placeMines_returns samples (newGrid 0) 0 Hs (newGrid_wf 0)
              countMines_newGrid ltac:(unfold MINES; lia))
    as (b1 & Hplace); [by left; apply Hcover|].
  rewrite Hplace. cbn [mbind res_bind].
  destruct (placeMines_spec samples (newGrid 0) 0 b1 Hs (newGrid_wf 0)
              countMines_newGrid ltac:(unfold MINES; lia) Hplace) as [Hwf1 _].
  destruct (calculateNumbers_spec b1 Hwf1) as (b2 & -> & _).
  cbn [mbind res_bind]. eauto.
Qed.

(** C1.  Every board that board generation produces ([createNewGame], which
    places the mines and then runs [calculateNumbers]) is a grid of the
    configured shape in which exactly [MINES] = 10 cells hold [-1], and
    every other cell holds the number of its in-bounds 8-directional
    neighbours that hold [-1]. *)
Theorem generated_board_mines_and_counts samples now game :
  Forall sample_ok samples ->
  createNewGame samples now = Ret game ->
  wf_grid (board game) /\
  countMines (board game) = MINES /\ MINES = 10 /\
  forall row col, isValidPosition row col = true ->
    cell (board game) row col <> Some (-1) ->
    cell (board game) row col = Some (adjacentMines (board game) row col).
Proof.
  intros Hs Hrun. unfold createNewGame in Hrun.
  apply bind_Ret in Hrun as (b1 & Hplace & Hrun).
  apply bind_Ret in Hrun as (b2 & Hcalc & Hrun).
  inversion Hrun; subst game; clear Hrun. simpl.
  destruct (placeMines_spec samples (newGrid 0) 0 b1 Hs (newGrid_wf 0)
              countMines_newGrid ltac:(unfold MINES; lia) Hplace)
    as [Hwf1 Hcount].
  destruct (calculateNumbers_spec b1 Hwf1) as (b2' & Hcalc' & Hwf2 & Hsame & Hnum).
  rewrite Hcalc in Hcalc'. inversion Hcalc'; subst b2'; clear Hcalc'.
  split; [assumption|]. split; [|split; [reflexivity|]].
  - rewrite <- Hcount. unfold countMines. f_equal.
    apply filter_length_iff. intros p _. apply Hsame.
  - intros row col Hv Hno.
    rewrite (adjacentMines_ext b2 b1) by assumption.
    apply Hnum; [assumption|]. intros Hm. apply Hno. by apply Hsame in Hm.
Qed.

(** ** The cascading reveal *)

Lemma reveal_wf g row col : wf_game g -> wf_game (reveal g row col).
Proof.
  intros (Hb & Hm & Hf). split_and!; simpl; [assumption| |assumption].
  by apply put_wf.
Qed.

Lemma truthy_cell_false (m : list (list bool)) row col :
  wf_grid m -> isValidPosition row col = true ->
  truthy (cell m row col) = false -> cell m row col = Some false.
Proof.
  intros Hwf Hv Ht. destruct (cell_valid m row col Hwf Hv) as [x Hx].
  rewrite Hx in *. simpl in Ht. by subst x.
Qed.

Lemma truthy_cell_true (m : list (list bool)) row col :
  truthy (cell m row col) = true <-> cell m row col = Some true.
Proof.
  destruct (cell m row col) as [[]|]; simpl; split; congruence.
Qed.

(** The recursion principle of [revealEmpty]: a relation between the state
    before and after that holds of doing nothing, of one reveal, and of
    sequences, holds of every call.  [Pre] restricts the cells the calls may
    start at; it has to pass from a cell that holds 0 to its neighbours.
    The call returns as soon as the fuel is at least the budget. *)
Section reveal_induction.
Variable bd : list (list Z).
Variable Pre : Z -> Z -> Prop.
Variable R : Game * Z -> Game * Z -> Prop.

Hypothesis Pre_neighbours : forall row col dx dy,
  Pre row col -> isValidPosition row col = true ->
  cell bd row col = Some 0 -> (dx, dy) ∈ DIRECTIONS ->
  Pre (row + dx) (col + dy).
Hypothesis R_refl : forall s, R s s.
Hypothesis R_trans : forall s1 s2 s3, R s1 s2 -> R s2 s3 -> R s1 s3.
Hypothesis R_step : forall g row col b,
  wf_game g -> board g = bd -> Pre row col -> reveal_fires g row col b ->
  R (g, b) (reveal g row col, b - 1).

Lemma revealEmpty_fuel_rel (fuel : nat) : forall g row col b,
  wf_game g -> board g = bd -> Pre row col -> b ≤ Z.of_nat fuel ->
  exists g' b',
    revealEmpty_fuel fuel g row col b = Ret (g', b') /\
    wf_game g' /\ board g' = bd /\ b' ≤ b /\ R (g, b) (g', b') /\
    ((g' = g /\ b' = b /\ reveal_skips g row col b) \/
     (reveal_fires g row col b /\ R (reveal g row col, b - 1) (g', b'))).
Proof.
  induction fuel as [|fuel IH]; intros g row col b Hwf Hbd Hpre Hfuel.
  - (* no fuel: the budget is not positive *)
    assert (revealEmpty_fuel 0 g row col b = Ret (g, b) /\
            reveal_skips g row col b) as [Hrun Hskip].
    { unfold reveal_skips. cbn [revealEmpty_fuel].
      destruct (isValidPosition row col) eqn:Hv; cbn [negb]; [|auto 10].
      destruct Hwf as (Hb & Hm & Hf).
      rewrite !rd_valid by assumption. cbn [mbind res_bind].
      destruct (truthy (cell (mask g) row col)) eqn:Htm;
        [apply truthy_cell_true in Htm; auto 10|].
      destruct (truthy (cell (flags g) row col)) eqn:Htf;
        [apply truthy_cell_true in Htf; auto 10|].
      destruct (b <=? 0) eqn:Hb0; [|apply Z.leb_gt in Hb0; lia].
      apply Z.leb_le in Hb0. auto 10. }
    exists g, b. split_and!; [done..|lia|apply R_refl|]. left. auto 10.
  - cbn [revealEmpty_fuel].
    destruct (isValidPosition row col) eqn:Hv; cbn [negb].
    2:{ exists g, b. split_and!; [done..|lia|apply R_refl|].
        left. unfold reveal_skips. auto 10. }
    pose proof Hwf as (Hb & Hm & Hf).
    rewrite !rd_valid by assumption. cbn [mbind res_bind].
    destruct (truthy (cell (mask g) row col)) eqn:Htm.
    { apply truthy_cell_true in Htm.
      exists g, b. split_and!; [done..|lia|apply R_refl|].
      left. unfold reveal_skips. auto 10. }
    destruct (truthy (cell (flags g) row col)) eqn:Htf.
    { apply truthy_cell_true in Htf.
      exists g, b. split_and!; [done..|lia|apply R_refl|].
      left. unfold reveal_skips. auto 10. }
    destruct (b <=? 0) eqn:Hb0.
    { apply Z.leb_le in Hb0.
      exists g, b. split_and!; [done..|lia|apply R_refl|].
      left. unfold reveal_skips. auto 10. }
    apply Z.leb_gt in Hb0.
    apply truthy_cell_false in Htm, Htf; try assumption.
    assert (reveal_fires g row col b) as Hfire by (unfold reveal_fires; auto 10).
    rewrite wr_valid by assumption. cbn [mbind res_bind].
    fold (reveal g row col).
    pose proof (reveal_wf g row col Hwf) as Hwf1.
    pose proof (R_step g row col b Hwf Hbd Hpre Hfire) as Hstep.
    rewrite rd_valid by (assumption || apply Hwf1).
    cbn [mbind res_bind].
    destruct (is_num 0 (cell (board (reveal g row col)) row col)) eqn:Hzero.
    2:{ exists (reveal g row col), (b - 1).
        split_and!; [done..|lia|assumption|]. right. split; [done|apply R_refl]. }
    assert (cell bd row col = Some 0) as Hval.
    { rewrite <- Hbd. change (board (reveal g row col)) with (board g) in Hzero.
      destruct (cell (board g) row col) as [v|]; [|discriminate].
      simpl in Hzero. apply Z.eqb_eq in Hzero. by subst v. }
    destruct (forEach_inv
                (fun s => wf_game s.1 /\ board s.1 = bd /\ s.2 ≤ b - 1 /\
                          R (reveal g row col, b - 1) s)
                (fun '(game, maxReveals) '(dx, dy) =>
                   revealEmpty_fuel fuel game (row + dx) (col + dy) maxReveals)
                DIRECTIONS (reveal g row col, b - 1))
      as ([g' b'] & Hrun & Hwf' & Hbd' & Hle & HR).
    { simpl. split_and!; [done..|lia|apply R_refl]. }
    { intros [g1 b1] [dx dy] Hin (Hwf1' & Hbd1 & Hle1 & HR1). simpl in *.
      destruct (IH g1 (row + dx) (col + dy) b1) as
        (g2 & b2 & Hrun2 & Hwf2 & Hbd2 & Hle2 & HR2 & _);
        [assumption..| by eapply Pre_neighbours | lia |].
      exists (g2, b2). simpl. split_and!; [done..|lia|].
      by eapply R_trans. }
    simpl in *. exists g', b'. split_and!; [done..|lia| |].
    + by eapply R_trans.
    + right. split; assumption.
Qed.
End reveal_induction.

Lemma countRevealed_put m row col :
  wf_grid m -> isValidPosition row col = true ->
  cell m row col = Some false ->
  countRevealed (put m row col true) = countRevealed m + 1.
Proof.
  intros Hwf Hv Hno. unfold countRevealed.
  rewrite (filter_length_flip (revealedAt m) (revealedAt (put m row col true))
             cells (row, col)).
  - lia.
  - apply NoDup_cells.
  - by apply elem_of_cells.
  - unfold revealedAt. simpl. congruence.
  - unfold revealedAt. simpl. by apply cell_put_eq.
  - intros [r c] _ Hne. unfold revealedAt. simpl.
    rewrite cell_put_ne by congruence. reflexivity.
Qed.

(** When the mask only grows, the revealed cells after are the revealed
    cells before and the cells that were turned on. *)
Lemma countRevealed_grows m m' :
  wf_grid m -> mask_grows m m' ->
  countRevealed m' = countRevealed m + newlyRevealed m m'.
Proof.
  intros Hwf Hgrow. unfold countRevealed, newlyRevealed.
  assert (forall p, p ∈ cells -> revealedAt m' p <->
                    (revealedAt m p \/ turnedOn m m' p)) as Hsplit.
  { intros [r c] Hin%elem_of_cells. unfold revealedAt, turnedOn. simpl.
    destruct (cell_valid m r c Hwf Hin) as [[] Hx]; rewrite Hx.
    - split; [auto|]. intros _. by apply Hgrow.
    - split; [auto|]. intros [|[_ ?]]; [discriminate|assumption]. }
  assert (forall p, ¬ (revealedAt m p /\ turnedOn m m' p)) as Hdisj.
  { intros p [H1 [H2 _]]. unfold revealedAt in H1. congruence. }
  induction cells as [|p l IH]; [reflexivity|].
  rewrite !filter_cons.
  specialize (IH (fun q Hq => Hsplit q (list_elem_of_further _ _ _ Hq))).
  specialize (Hsplit p (list_elem_of_here _ _)). specialize (Hdisj p).
  destruct (decide (revealedAt m' p)), (decide (revealedAt m p)),
    (decide (turnedOn m m' p)); simpl length; tauto || lia.
Qed.

Lemma reveal_rel_refl s : reveal_rel s s.
Proof.
  unfold reveal_rel, same_status, mask_grows.
  split_and!; try done; auto; lia.
Qed.

Lemma reveal_rel_trans s1 s2 s3 :
  reveal_rel s1 s2 -> reveal_rel s2 s3 -> reveal_rel s1 s3.
Proof.
  unfold reveal_rel, same_status, mask_grows.
  intros (Hf1 & Hs1 & Hg1 & Hn1 & Hc1 & Hl1 & Hz1)
         (Hf2 & Hs2 & Hg2 & Hn2 & Hc2 & Hl2 & Hz2).
  destruct Hs1 as (?&?&?&?&?), Hs2 as (?&?&?&?&?).
  split_and!; try lia; try congruence.
  - auto.
  - intros row col Hx. destruct (Hn2 row col Hx) as [Hy|Hy].
    + auto.
    + right. congruence.
Qed.

Lemma reveal_rel_step g row col b :
  wf_game g -> reveal_fires g row col b ->
  reveal_rel (g, b) (reveal g row col, b - 1).
Proof.
  intros (Hb & Hm & Hf) (Hv & Hmask & Hflag & Hpos).
  unfold reveal_rel, same_status, mask_grows. simpl.
  split_and!; try done; try lia.
  - intros r c Hrc. rewrite cell_put by assumption.
    case_decide; [reflexivity|assumption].
  - intros r c. rewrite cell_put by assumption.
    case_decide as E; [|auto]. inversion E; subst. auto.
  - rewrite countRevealed_put by assumption. lia.
Qed.

(** [revealEmpty] returns on every well-formed game, whatever the cell and
    the budget, with the game and the budget related as [reveal_rel] says. *)
Lemma revealEmpty_spec g row col b :
  wf_game g ->
  exists g' b',
    revealEmpty g row col b = Ret (g', b') /\
    wf_game g' /\ board g' = board g /\ reveal_rel (g, b) (g', b') /\
    ((g' = g /\ b' = b /\ reveal_skips g row col b) \/
     (reveal_fires g row col b /\
      reveal_rel (reveal g row col, b - 1) (g', b'))).
Proof.
  intros Hwf.
  destruct (revealEmpty_fuel_rel (board g) (fun _ _ => True) reveal_rel)
    with (fuel := Z.to_nat b) (g := g) (row := row) (col := col) (b := b)
    as (g' & b' & Hrun & Hwf' & Hbd & Hle & HR & Hcase);
    try done; try lia.
  - apply reveal_rel_refl.
  - apply reveal_rel_trans.
  - intros. by apply reveal_rel_step.
  - exists g', b'. split_and!; done.
Qed.

(** On a generated board the neighbours of a cell that holds 0 are not
    mines. *)
Lemma zero_cell_neighbours bd row col dx dy :
  board_ok bd -> isValidPosition row col = true ->
  cell bd row col = Some 0 -> (dx, dy) ∈ DIRECTIONS ->
  cell bd (row + dx) (col + dy) <> Some (-1).
Proof.
  intros [Hwf Hnum] Hv Hzero Hin Hmine.
  destruct (isValidPosition (row + dx) (col + dy)) eqn:Hv'.
  2:{ rewrite cell_invalid in Hmine by assumption. discriminate. }
  assert (adjacentMines bd row col = 0) as Hadj.
  { specialize (Hnum row col Hv). rewrite Hzero in Hnum.
    assert (Some 0 = Some (adjacentMines bd row col)) as [= E]
      by (apply Hnum; discriminate).
    by symmetry. }
  unfold adjacentMines in Hadj.
  assert (filter (mineAt bd) (neighbours row col) = []) as Hnil
    by (apply nil_length_inv; lia).
  apply (filter_nil_not_elem_of _ _ (row + dx, col + dy) Hnil).
  - exact Hmine.
  - unfold neighbours. apply list_elem_of_filter. split; [exact Hv'|].
    apply list_elem_of_fmap. exists (dx, dy). split; [reflexivity|assumption].
Qed.

(** C7.  On every game of the configured shape, for every starting cell and
    every budget [b], one call of [revealEmpty] returns; no mask entry goes
    from true to false, at most [max b 0] entries go from false to true, and
    the returned budget is [b] minus the number of entries that did. *)
Theorem revealEmpty_budget g row col b :
  wf_game g ->
  exists g' b',
    revealEmpty g row col b = Ret (g', b') /\
    mask_grows (mask g) (mask g') /\
    newlyRevealed (mask g) (mask g') ≤ Z.max b 0 /\
    b' = b - newlyRevealed (mask g) (mask g').
Proof.
  intros Hwf.
  destruct (revealEmpty_spec g row col b Hwf)
    as (g' & b' & Hrun & Hwf' & Hbd & HR & _).
  destruct HR as (_ & _ & Hgrow & _ & Hcount & Hle & Hz). simpl in *.
  exists g', b'. split; [assumption|]. split; [assumption|].
  pose proof (countRevealed_grows (mask g) (mask g') (proj1 (proj2 Hwf)) Hgrow).
  lia.
Qed.

(** C8.  On a game whose board satisfies the generation invariant, a call
    of [revealEmpty] that starts at a cell whose value is not [-1] returns
    and leaves the mask entry of every mine cell as it was: it never sets
    one to true. *)
Theorem revealEmpty_spares_mines g row col b :
  wf_game g -> board_ok (board g) ->
  cell (board g) row col <> Some (-1) ->
  exists g' b',
    revealEmpty g row col b = Ret (g', b') /\
    forall r c, cell (board g) r c = Some (-1) ->
      cell (mask g') r c = cell (mask g) r c.
Proof.
  intros Hwf Hok Hstart.
  destruct (revealEmpty_fuel_rel (board g)
              (fun r c => cell (board g) r c <> Some (-1))
              (fun s s' => forall r c, cell (board g) r c = Some (-1) ->
                             cell (mask s'.1) r c = cell (mask s.1) r c))
    with (fuel := Z.to_nat b) (g := g) (row := row) (col := col) (b := b)
    as (g' & b' & Hrun & _ & _ & _ & HR & _);
    try done; try lia.
  - intros r c dx dy _ Hv Hzero Hin. by apply zero_cell_neighbours.
  - intros s1 s2 s3 H12 H23 r c Hmine.
    rewrite (H23 r c Hmine). by apply H12.
  - intros g1 r1 c1 b1 Hwf1 Hbd1 Hpre _ r c Hmine. simpl.
    apply cell_put_ne. congruence.
  - exists g', b'. split; [exact Hrun|]. exact HR.
Qed.

(** ** The neighbour scans *)

Lemma scanChord_loop g row col (ds : list (Z * Z)) : forall k acc,
  wf_game g ->
  forEach (chordScanBody g row col) (k, acc) ds =
  Ret (k + Z.of_nat (length (filter (flaggedAt (flags g)) (offsets row col ds))),
       acc ++ filter (hiddenUnflagged g) (offsets row col ds)).
Proof.
  induction ds as [|[dx dy] ds IH]; intros k acc Hwf.
  - simpl. rewrite app_nil_r. do 2 f_equal. lia.
  - pose proof Hwf as (Hb & Hm & Hf).
    cbn [forEach fmap list_fmap fst snd]. rewrite filter_cons. cbn [fst snd].
    destruct (isValidPosition (row + dx) (col + dy)) eqn:Hv.
    + rewrite !rd_valid by assumption. cbn [mbind res_bind].
      rewrite decide_True by reflexivity. rewrite !filter_cons.
      destruct (truthy (cell (flags g) (row + dx) (col + dy))) eqn:Htf;
        cbn [mbind res_bind].
      * apply truthy_cell_true in Htf.
        rewrite decide_True by exact Htf.
        rewrite decide_False by (intros [Hnf _]; apply Hnf; exact Htf).
        rewrite IH by assumption. simpl length. do 2 f_equal. lia.
      * assert (¬ flaggedAt (flags g) (row + dx, col + dy)) as Hnf.
        { unfold flaggedAt. simpl. intros E%truthy_cell_true. congruence. }
        rewrite decide_False by exact Hnf.
        destruct (truthy (cell (mask g) (row + dx) (col + dy))) eqn:Htm;
          cbn [negb mbind res_bind].
        -- apply truthy_cell_true in Htm.
           rewrite decide_False by (intros [_ Hnr]; apply Hnr; exact Htm).
           by apply IH.
        -- assert (¬ revealedAt (mask g) (row + dx, col + dy)) as Hnr.
           { unfold revealedAt. simpl. intros E%truthy_cell_true. congruence. }
           rewrite decide_True by (split; assumption).
           rewrite IH by assumption. by rewrite <- app_assoc.
    + cbn [mbind res_bind]. rewrite decide_False by congruence.
      by apply IH.
Qed.

Lemma scanChord_spec g row col :
  wf_game g ->
  scanChord g row col = Ret (flagCount g row col, hiddenNeighbours g row col).
Proof.
  intros Hwf. unfold scanChord. by rewrite scanChord_loop.
Qed.

Lemma scanAround_loop g row col (ds : list (Z * Z)) : forall k n acc,
  wf_game g ->
  forEach (autoScanBody g row col) (k, n, acc) ds =
  Ret (k + Z.of_nat (length (filter (flaggedAt (flags g)) (offsets row col ds))),
       n + Z.of_nat (length (filter (hiddenUnflagged g) (offsets row col ds))),
       acc ++ filter (hiddenUnflagged g) (offsets row col ds)).
Proof.
  induction ds as [|[dx dy] ds IH]; intros k n acc Hwf.
  - simpl. rewrite app_nil_r. do 3 f_equal; lia.
  - pose proof Hwf as (Hb & Hm & Hf).
    cbn [forEach fmap list_fmap fst snd]. rewrite filter_cons. cbn [fst snd].
    destruct (isValidPosition (row + dx) (col + dy)) eqn:Hv.
    + rewrite !rd_valid by assumption. cbn [mbind res_bind].
      rewrite decide_True by reflexivity. rewrite !filter_cons.
      destruct (truthy (cell (flags g) (row + dx) (col + dy))) eqn:Htf;
        cbn [mbind res_bind].
      * apply truthy_cell_true in Htf.
        rewrite decide_True by exact Htf.
        rewrite decide_False by (intros [Hnf _]; apply Hnf; exact Htf).
        rewrite IH by assumption. simpl length. do 3 f_equal. lia.
      * assert (¬ flaggedAt (flags g) (row + dx, col + dy)) as Hnf.
        { unfold flaggedAt. simpl. intros E%truthy_cell_true. congruence. }
        rewrite decide_False by exact Hnf.
        destruct (truthy (cell (mask g) (row + dx) (col + dy))) eqn:Htm;
          cbn [negb mbind res_bind].
        -- apply truthy_cell_true in Htm.
           rewrite decide_False by (intros [_ Hnr]; apply Hnr; exact Htm).
           by apply IH.
        -- assert (¬ revealedAt (mask g) (row + dx, col + dy)) as Hnr.
           { unfold revealedAt. simpl. intros E%truthy_cell_true. congruence. }
           rewrite decide_True by (split; assumption).
           rewrite IH by assumption. rewrite <- app_assoc. simpl length.
           do 3 f_equal. lia.
    + cbn [mbind res_bind]. rewrite decide_False by congruence.
      by apply IH.
Qed.

Lemma scanAround_spec g row col :
  wf_game g ->
  scanAround g row col =
  Ret (flagCount g row col,
       Z.of_nat (length (hiddenNeighbours g row col)),
       hiddenNeighbours g row col).
Proof.
  intros Hwf. unfold scanAround. by rewrite scanAround_loop.
Qed.

Lemma neighbours_valid row col p :
  p ∈ neighbours row col -> isValidPosition p.1 p.2 = true.
Proof. unfold neighbours. by intros [Hv _]%list_elem_of_filter. Qed.

Lemma neighbours_ne row col p : p ∈ neighbours row col -> p <> (row, col).
Proof.
  unfold neighbours. intros [_ Hin]%list_elem_of_filter.
  apply list_elem_of_fmap in Hin as ([dx dy] & -> & Hd). simpl.
  by apply neighbours_differ.
Qed.

Lemma hiddenNeighbours_elem g row col p :
  p ∈ hiddenNeighbours g row col <->
  hiddenUnflagged g p /\ p ∈ neighbours row col.
Proof. unfold hiddenNeighbours. apply list_elem_of_filter. Qed.

(** ** The loops of the move handler *)

Lemma anyMine_spec g (positions : list (Z * Z)) :
  wf_game g -> Forall sample_ok positions ->
  anyMine g positions =
  Ret (bool_decide (Exists (mineAt (board g)) positions)).
Proof.
  intros Hwf. pose proof Hwf as (Hb & _ & _).
  induction positions as [|[r c] l IH]; intros Hval.
  - cbn [anyMine]. rewrite bool_decide_eq_false_2; [reflexivity|].
    by intros ?%Exists_nil.
  - apply Forall_cons in Hval as [Hv Hval]. unfold sample_ok in Hv; simpl in Hv.
    cbn [anyMine]. rewrite rd_valid by assumption. cbn [mbind res_bind].
    destruct (is_mine (cell (board g) r c)) eqn:Hm.
    + apply is_mine_true in Hm.
      rewrite bool_decide_eq_true_2; [reflexivity|]. by left.
    + apply is_mine_false in Hm. rewrite IH by assumption. f_equal.
      apply bool_decide_ext. rewrite Exists_cons. tauto.
Qed.

Lemma revealMines_loop (l : list (Z * Z)) : forall g,
  Forall sample_ok l -> wf_game g ->
  exists g',
    forEach discloseBody g l = Ret g' /\ wf_game g' /\
    board g' = board g /\ flags g' = flags g /\ same_status g g' /\
    forall row col,
      cell (mask g') row col =
      if decide ((row, col) ∈ l /\ mineAt (board g) (row, col))
      then Some true else cell (mask g) row col.
Proof.
  induction l as [|[r0 c0] l IH]; intros g Hval Hwf.
  - exists g. unfold same_status. split_and!; try done.
  - apply Forall_cons in Hval as [Hv Hval]. unfold sample_ok in Hv; simpl in Hv.
    pose proof Hwf as (Hb & Hm & Hf).
    cbn [forEach]. rewrite rd_valid by assumption. cbn [mbind res_bind].
    destruct (is_mine (cell (board g) r0 c0)) eqn:Hmine.
    + apply is_mine_true in Hmine.
      rewrite wr_valid by assumption. cbn [mbind res_bind].
      fold (reveal g r0 c0).
      destruct (IH (reveal g r0 c0) Hval (reveal_wf g r0 c0 Hwf))
        as (g' & Hrun & Hwf' & Hbd & Hfl & Hst & Hcells).
      exists g'. split_and!; try done. intros row col.
      rewrite Hcells. simpl. rewrite cell_put by assumption.
      destruct (decide ((r0, c0) = (row, col))) as [E|E].
      * inversion E; subst row col.
        rewrite (decide_True (P := (r0, c0) ∈ (r0, c0) :: l /\ _))
          by (split; [left | assumption]).
        by destruct (decide _).
      * assert (((row, col) ∈ l /\ mineAt (board g) (row, col)) <->
                ((row, col) ∈ (r0, c0) :: l /\ mineAt (board g) (row, col)))
          as Hiff.
        { rewrite elem_of_cons. split; [tauto|].
          intros [[E'|Hin] Hno]; [congruence|tauto]. }
        destruct (decide ((row, col) ∈ l /\ mineAt (board g) (row, col))),
          (decide ((row, col) ∈ (r0, c0) :: l /\ mineAt (board g) (row, col)));
          tauto || reflexivity.
    + apply is_mine_false in Hmine.
      destruct (IH g Hval Hwf) as (g' & Hrun & Hwf' & Hbd & Hfl & Hst & Hcells).
      exists g'. split_and!; try done. intros row col. rewrite Hcells.
      assert (((row, col) ∈ l /\ mineAt (board g) (row, col)) <->
              ((row, col) ∈ (r0, c0) :: l /\ mineAt (board g) (row, col)))
        as Hiff.
      { rewrite elem_of_cons. split; [tauto|].
        intros [[E|Hin] Hno]; [|tauto]. inversion E; subst. contradiction. }
      destruct (decide ((row, col) ∈ l /\ mineAt (board g) (row, col))),
        (decide ((row, col) ∈ (r0, c0) :: l /\ mineAt (board g) (row, col)));
        tauto || reflexivity.
Qed.

(** The loss transition: the game is over, the end time is recorded, every
    mine is revealed and nothing else changes. *)
Lemma mineHit_spec g now :
  wf_game g ->
  exists g',
    mineHit g now = Ret g' /\ wf_game g' /\
    board g' = board g /\ flags g' = flags g /\
    gameOver g' = true /\ won g' = won g /\ startTime g' = startTime g /\
    moves g' = moves g /\ endTime g' = Some now /\
    forall row col,
      cell (mask g') row col =
      if decide (mineAt (board g) (row, col))
      then Some true else cell (mask g) row col.
Proof.
  intros Hwf. unfold mineHit, revealMines.
  destruct (revealMines_loop cells (end_game g now)) as
    (g' & Hrun & Hwf' & Hbd & Hfl & (Hgo & Hwon & Hst & Hmv & Het) & Hcells).
  { apply Forall_forall. intros [r c] Hin. by apply elem_of_cells. }
  { exact Hwf. }
  simpl in *. exists g'. split_and!; try done. intros row col.
  rewrite Hcells.
  destruct (decide (mineAt (board g) (row, col))) as [Hmine|Hno].
  - rewrite decide_True; [reflexivity|]. split; [|assumption].
    apply elem_of_cells.
    destruct (isValidPosition row col) eqn:Hv; [reflexivity|].
    unfold mineAt in Hmine. simpl in Hmine.
    rewrite cell_invalid in Hmine by (assumption || apply Hwf). discriminate.
  - rewrite decide_False; [reflexivity|]. tauto.
Qed.

Lemma flagAll_spec (l : list (Z * Z)) : forall g,
  Forall sample_ok l -> wf_game g ->
  exists g',
    flagAll g l = Ret g' /\ wf_game g' /\
    board g' = board g /\ mask g' = mask g /\ same_status g g' /\
    forall row col,
      cell (flags g') row col =
      if decide ((row, col) ∈ l) then Some true else cell (flags g) row col.
Proof.
  unfold flagAll.
  induction l as [|[r0 c0] l IH]; intros g Hval Hwf.
  - exists g. unfold same_status. split_and!; try done.
  - apply Forall_cons in Hval as [Hv Hval]. unfold sample_ok in Hv; simpl in Hv.
    pose proof Hwf as (Hb & Hm & Hf).
    cbn [forEach]. rewrite wr_valid by assumption. cbn [mbind res_bind].
    destruct (IH (set_flags g (put (flags g) r0 c0 true)) Hval)
      as (g' & Hrun & Hwf' & Hbd & Hmk & Hst & Hcells).
    { split_and!; simpl; try assumption. by apply put_wf. }
    exists g'. split_and!; try done. intros row col.
    rewrite Hcells. simpl. rewrite cell_put by assumption.
    destruct (decide ((r0, c0) = (row, col))) as [E|E].
    + inversion E; subst row col.
      rewrite (decide_True (P := (r0, c0) ∈ (r0, c0) :: l)) by left.
      by destruct (decide _).
    + assert ((row, col) ∈ l <-> (row, col) ∈ (r0, c0) :: l) as Hiff.
      { rewrite elem_of_cons. split; [tauto|].
        intros [E'|Hin]; [congruence|tauto]. }
      destruct (decide ((row, col) ∈ l)), (decide ((row, col) ∈ (r0, c0) :: l));
        tauto || reflexivity.
Qed.

Lemma cascade_rel_refl g : cascade_rel g g.
Proof.
  unfold cascade_rel, same_status, mask_grows. split_and!; try done; auto.
Qed.

Lemma cascade_rel_trans g1 g2 g3 :
  cascade_rel g1 g2 -> cascade_rel g2 g3 -> cascade_rel g1 g3.
Proof.
  unfold cascade_rel, same_status, mask_grows.
  intros (Hb1 & Hf1 & (?&?&?&?&?) & Hg1 & Hn1)
         (Hb2 & Hf2 & (?&?&?&?&?) & Hg2 & Hn2).
  split_and!; try congruence.
  - auto.
  - intros row col Hx. destruct (Hn2 row col Hx) as [Hy|Hy].
    + auto.
    + right. congruence.
Qed.

Lemma revealEmpty_cascade g row col b :
  wf_game g ->
  exists g' b',
    revealEmpty g row col b = Ret (g', b') /\ wf_game g' /\
    cascade_rel g g' /\
    (isValidPosition row col = true -> cell (flags g) row col = Some false ->
     0 < b -> cell (mask g') row col = Some true).
Proof.
  intros Hwf.
  destruct (revealEmpty_spec g row col b Hwf)
    as (g' & b' & Hrun & Hwf' & Hbd & HR & Hcase).
  exists g', b'. split_and!; try done.
  - destruct HR as (Hfl & Hst & Hgrow & Hnew & _). simpl in *.
    unfold cascade_rel. split_and!; done.
  - intros Hv Hflag Hpos.
    destruct Hcase as [(-> & -> & Hskip)|[Hfire HR']].
    + destruct Hskip as [E|[E|[E|E]]]; congruence || lia.
    + destruct HR' as (_ & _ & Hgrow & _). simpl in Hgrow.
      apply Hgrow. apply cell_put_eq; [apply Hwf | assumption].
Qed.

Lemma revealAll_spec (l : list (Z * Z)) : forall g,
  wf_game g ->
  exists g',
    revealAll g l = Ret g' /\ wf_game g' /\ cascade_rel g g' /\
    forall p, p ∈ l -> isValidPosition p.1 p.2 = true ->
      cell (flags g) p.1 p.2 = Some false ->
      cell (mask g') p.1 p.2 = Some true.
Proof.
  unfold revealAll.
  induction l as [|[r0 c0] l IH]; intros g Hwf.
  - exists g. split_and!; try done; [apply cascade_rel_refl|].
    by intros p ?%elem_of_nil.
  - cbn [forEach].
    destruct (revealEmpty_cascade g r0 c0 MAX_REVEALS Hwf)
      as (g1 & b1 & Hrun1 & Hwf1 & Hrel1 & Hhead).
    rewrite Hrun1. cbn [mbind res_bind].
    destruct (IH g1 Hwf1) as (g' & Hrun & Hwf' & Hrel & Htail).
    exists g'. split_and!; try done; [by eapply cascade_rel_trans|].
    intros [r c] [E|Hin]%elem_of_cons Hv Hflag; simpl in *.
    + inversion E; subst r c.
      destruct Hrel as (_ & _ & _ & Hgrow & _). apply Hgrow.
      apply Hhead; [assumption..|]. unfold MAX_REVEALS. lia.
    + apply (Htail (r, c)); [assumption..|]. simpl.
      destruct Hrel1 as (_ & -> & _). exact Hflag.
Qed.

(** ** The win check *)

Lemma countFlags_loop g (l : list (Z * Z)) : forall a b,
  wf_game g -> Forall sample_ok l ->
  forEach (countBody g) (a, b) l =
  Ret (a + Z.of_nat (length (filter (correctFlagAt g) l)),
       b + Z.of_nat (length (filter (flaggedAt (flags g)) l))).
Proof.
  induction l as [|[r c] l IH]; intros a b Hwf Hval.
  - simpl. do 2 f_equal; lia.
  - pose proof Hwf as (Hb & Hm & Hf).
    apply Forall_cons in Hval as [Hv Hval]. unfold sample_ok in Hv; simpl in Hv.
    cbn [forEach]. rewrite !rd_valid by assumption. cbn [mbind res_bind].
    rewrite !filter_cons.
    destruct (truthy (cell (flags g) r c)) eqn:Htf; cbn [mbind res_bind].
    + apply truthy_cell_true in Htf.
      rewrite (decide_True (P := flaggedAt (flags g) (r, c))) by exact Htf.
      destruct (is_mine (cell (board g) r c)) eqn:Hmine.
      * apply is_mine_true in Hmine.
        rewrite decide_True by (split; assumption).
        rewrite IH by assumption. simpl length. do 2 f_equal; lia.
      * apply is_mine_false in Hmine.
        rewrite decide_False by (intros [_ ?]; contradiction).
        rewrite IH by assumption. simpl length. do 2 f_equal; lia.
    + assert (¬ flaggedAt (flags g) (r, c)) as Hnf.
      { unfold flaggedAt. simpl. intros E%truthy_cell_true. congruence. }
      rewrite (decide_False (P := flaggedAt (flags g) (r, c))) by exact Hnf.
      rewrite decide_False by (intros [? _]; contradiction).
      by apply IH.
Qed.

Lemma countFlags_spec g :
  wf_game g -> countFlags g = Ret (correctFlags g, totalFlags g).
Proof.
  intros Hwf. unfold countFlags. rewrite countFlags_loop; [reflexivity|done|].
  apply Forall_forall. intros [r c] Hin. by apply elem_of_cells.
Qed.

Lemma checkWin_spec g now :
  wf_game g ->
  checkWin g now =
  Ret (if gameOver g then g
       else if decide (wins g) then win_game g now else g).
Proof.
  intros Hwf. unfold checkWin. destruct (gameOver g); [reflexivity|].
  cbn [negb]. rewrite countFlags_spec by assumption. cbn [mbind res_bind].
  unfold wins.
  destruct (decide (correctFlags g = MINES /\ totalFlags g = MINES))
    as [[-> ->]|Hno].
  - by rewrite !Z.eqb_refl.
  - destruct (correctFlags g =? MINES) eqn:E1; [|reflexivity].
    destruct (totalFlags g =? MINES) eqn:E2; [|reflexivity].
    apply Z.eqb_eq in E1, E2. tauto.
Qed.

(** ** The auto-flag heuristic *)

Lemma rd_of_cell {A : Type} (g : list (list A)) row col x :
  cell g row col = Some x -> rd g row col = Ret (Some x).
Proof.
  unfold cell, rd. destruct (idx g row) as [rw|]; simpl; [|discriminate].
  by intros ->.
Qed.

Lemma cell_Some_valid {A : Type} (g : list (list A)) row col x :
  wf_grid g -> cell g row col = Some x -> isValidPosition row col = true.
Proof.
  intros Hwf Hc. destruct (isValidPosition row col) eqn:Hv; [reflexivity|].
  rewrite cell_invalid in Hc by assumption. discriminate.
Qed.

Lemma hiddenNeighbours_valid g row col :
  Forall sample_ok (hiddenNeighbours g row col).
Proof.
  apply Forall_forall. intros p [_ Hin]%hiddenNeighbours_elem.
  by eapply neighbours_valid.
Qed.

Lemma autoFlag_numbered g row col v :
  wf_game g ->
  cell (mask g) row col = Some true -> cell (board g) row col = Some v ->
  0 < v ->
  autoFlag g row col =
  if decide (autoFlag_fires g row col v)
  then g' ← flagAll g (hiddenNeighbours g row col); Ret (g', true)
  else Ret (g, false).
Proof.
  intros Hwf Hmask Hval Hpos. unfold autoFlag.
  rewrite (rd_of_cell _ _ _ _ Hmask), (rd_of_cell _ _ _ _ Hval).
  cbn [mbind res_bind truthy negb le0].
  destruct (v <=? 0) eqn:E; [apply Z.leb_le in E; lia|].
  rewrite scanAround_spec by assumption. cbn [mbind res_bind remaining_is].
  unfold autoFlag_fires.
  destruct (decide (0 < Z.of_nat (length (hiddenNeighbours g row col)) /\
                    v - flagCount g row col =
                    Z.of_nat (length (hiddenNeighbours g row col))))
    as [[H1 H2]|Hno].
  - apply Z.ltb_lt in H1. apply Z.eqb_eq in H2. rewrite H1, H2. reflexivity.
  - destruct (0 <? _) eqn:E1; [|reflexivity].
    destruct (_ =? _) eqn:E2; [|reflexivity].
    apply Z.ltb_lt in E1. apply Z.eqb_eq in E2. tauto.
Qed.

(** [autoFlag] flags hidden unflagged neighbours only and changes nothing
    else; it reports whether it flagged. *)
Lemma autoFlag_frame g row col g' flagged :
  wf_game g -> autoFlag g row col = Ret (g', flagged) ->
  wf_game g' /\ board g' = board g /\ mask g' = mask g /\ same_status g g' /\
  forall r c,
    cell (flags g') r c =
    if decide (flagged = true /\ (r, c) ∈ hiddenNeighbours g row col)
    then Some true else cell (flags g) r c.
Proof.
  intros Hwf Hrun.
  assert (wf_game g /\ board g = board g /\ mask g = mask g /\
          same_status g g /\
          forall r c, cell (flags g) r c =
            if decide (false = true /\ (r, c) ∈ hiddenNeighbours g row col)
            then Some true else cell (flags g) r c) as Hsame.
  { unfold same_status. split_and!; done. }
  unfold autoFlag in Hrun.
  apply bind_Ret in Hrun as (m & Hm & Hrun).
  destruct (truthy m) eqn:Htm; cbn [negb] in Hrun;
    [|inversion Hrun; subst; exact Hsame].
  apply bind_Ret in Hrun as (v & Hv & Hrun).
  destruct (le0 v) eqn:Hle; [inversion Hrun; subst; exact Hsame|].
  rewrite scanAround_spec in Hrun by assumption. cbn [mbind res_bind] in Hrun.
  destruct (_ && _) eqn:Hcond; [|inversion Hrun; subst; exact Hsame].
  apply bind_Ret in Hrun as (g1 & Hflag & Hrun). inversion Hrun; subst g1 flagged.
  destruct (flagAll_spec (hiddenNeighbours g row col) g
              (hiddenNeighbours_valid g row col) Hwf)
    as (g1 & Hrun1 & Hwf1 & Hbd & Hmk & Hst & Hcells).
  rewrite Hflag in Hrun1. inversion Hrun1; subst g1.
  split_and!; try done. intros r c. rewrite Hcells.
  destruct (decide ((r, c) ∈ hiddenNeighbours g row col)).
  - by rewrite decide_True.
  - rewrite decide_False; [reflexivity|]. tauto.
Qed.

(** ** The move *)

(** A click on a revealed numbered cell: the chord branch. *)
Lemma applyMove_chord g row col now v :
  wf_game g ->
  cell (mask g) row col = Some true -> cell (board g) row col = Some v ->
  0 < v ->
  applyMove g row col now =
  if decide (flagCount g row col = v) then
    if bool_decide (Exists (mineAt (board g)) (hiddenNeighbours g row col))
    then mineHit g now
    else g1 ← revealAll g (hiddenNeighbours g row col);
         Ret (if 0 <? Z.of_nat (length (hiddenNeighbours g row col))
              then inc_moves g1 else g1)
  else '(g1, flagged) ← autoFlag g row col;
       Ret (if flagged : bool then inc_moves g1 else g1).
Proof.
  intros Hwf Hmask Hval Hpos. unfold applyMove.
  rewrite (rd_of_cell _ _ _ _ Hmask). cbn [mbind res_bind truthy].
  rewrite (rd_of_cell _ _ _ _ Hval). cbn [mbind res_bind gt0 andb].
  destruct (0 <? v) eqn:E; [|apply Z.ltb_ge in E; lia].
  rewrite scanChord_spec by assumption. cbn [mbind res_bind is_num].
  destruct (decide (flagCount g row col = v)) as [->|Hne].
  - rewrite Z.eqb_refl.
    rewrite anyMine_spec by (assumption || apply hiddenNeighbours_valid).
    reflexivity.
  - destruct (v =? flagCount g row col) eqn:E'; [|reflexivity].
    apply Z.eqb_eq in E'. congruence.
Qed.

(** A click on any other cell of an existing row: the direct click, or
    nothing when the cell is flagged. *)
Lemma applyMove_direct g row col now :
  wf_game g -> 0 ≤ row < ROWS ->
  (cell (mask g) row col = Some true -> gt0 (cell (board g) row col) = false) ->
  applyMove g row col now =
  if truthy (cell (flags g) row col) then Ret g
  else if is_mine (cell (board g) row col) then mineHit (inc_moves g) now
       else '(g1, _) ← revealEmpty (inc_moves g) row col MAX_REVEALS; Ret g1.
Proof.
  intros (Hb & Hm & Hf) Hrow Hnochord. unfold applyMove.
  change (board (inc_moves g)) with (board g).
  rewrite (rd_row (mask g)), (rd_row (flags g)), !(rd_row (board g))
    by assumption.
  cbn [mbind res_bind].
  destruct (truthy (cell (mask g) row col)) eqn:Htm.
  - cbn [mbind res_bind andb].
    rewrite Hnochord by (by apply truthy_cell_true).
    by destruct (truthy (cell (flags g) row col)).
  - cbn [mbind res_bind andb].
    by destruct (truthy (cell (flags g) row col)).
Qed.

(** A click in a row that does not exist throws. *)
Lemma applyMove_no_row g row col now :
  wf_game g -> ¬ (0 ≤ row < ROWS) ->
  applyMove g row col now = Stop TypeError.
Proof.
  intros (_ & Hm & _) Hrow. unfold applyMove.
  rewrite (rd_no_row (mask g)) by assumption. reflexivity.
Qed.

Lemma move_rel_refl g : wf_game g -> move_rel g g.
Proof.
  intros Hwf. unfold move_rel, mask_grows. split_and!; try done; auto.
Qed.

Lemma cascade_move g g1 : wf_game g1 -> cascade_rel g g1 -> move_rel g g1.
Proof.
  intros Hwf1 (Hbd & Hfl & (Hgo & Hwon & Hst & Hmv & Het) & Hgrow & Hnew).
  unfold move_rel. split_and!; try done. right. split_and!; try done.
  intros Htidy r c Hrev. rewrite Hfl.
  destruct (Hnew r c Hrev) as [Hold|Hnf]; [by apply Htidy | exact Hnf].
Qed.

Lemma mineHit_move g now :
  wf_game g ->
  exists g1, mineHit g now = Ret g1 /\ move_rel g g1 /\
    flags g1 = flags g /\ moves g1 = moves g /\
    gameOver g1 = true /\ endTime g1 = Some now /\
    (forall r c, cell (board g1) r c = Some (-1) ->
                 cell (mask g1) r c = Some true).
Proof.
  intros Hwf.
  destruct (mineHit_spec g now Hwf) as
    (g1 & Hrun & Hwf1 & Hbd & Hfl & Hgo & Hwon & Hst & Hmv & Het & Hcells).
  exists g1. split_and!; try done.
  - unfold move_rel. split_and!; try done; [|auto].
    intros r c Hrev. rewrite Hcells. by destruct (decide _).
  - intros r c Hmine. rewrite Hcells. rewrite Hbd in Hmine.
    by rewrite decide_True.
Qed.

Lemma applyMove_rel g row col now :
  wf_game g -> 0 ≤ row < ROWS ->
  exists g1, applyMove g row col now = Ret g1 /\ move_rel g g1.
Proof.
  intros Hwf Hrow.
  destruct (decide (cell (mask g) row col = Some true /\
                    gt0 (cell (board g) row col) = true)) as [[Hmask Hgt]|Hno].
  - destruct (cell (board g) row col) as [v|] eqn:Hval; [|discriminate].
    simpl in Hgt. apply Z.ltb_lt in Hgt.
    rewrite (applyMove_chord g row col now v) by assumption.
    destruct (decide (flagCount g row col = v)) as [Hfc|Hfc].
    + destruct (bool_decide _).
      * destruct (mineHit_move g now Hwf) as (g1 & Hrun & Hrel & _).
        by exists g1.
      * destruct (revealAll_spec (hiddenNeighbours g row col) g Hwf)
          as (g1 & Hrun & Hwf1 & Hrel & _).
        rewrite Hrun. cbn [mbind res_bind].
        pose proof (cascade_move g g1 Hwf1 Hrel) as Hmove.
        destruct (0 <? _); eexists; (split; [reflexivity|exact Hmove]).
    + rewrite (autoFlag_numbered g row col v) by assumption.
      destruct (decide (autoFlag_fires g row col v)) as [Hfire|Hnf].
      2:{ exists g. split; [reflexivity | by apply move_rel_refl]. }
      destruct (flagAll_spec (hiddenNeighbours g row col) g
                  (hiddenNeighbours_valid g row col) Hwf)
        as (g1 & Hrun & Hwf1 & Hbd & Hmk & (Hgo & Hwon & Hst & Hmv & Het)
            & Hcells).
      rewrite Hrun. cbn [mbind res_bind].
      exists (inc_moves g1). split; [reflexivity|].
      unfold move_rel. simpl. split_and!; try done.
      * rewrite Hmk. by intros r c.
      * right. split_and!; try done. intros Htidy r c Hrev. simpl in *.
        rewrite Hmk in Hrev. rewrite Hcells.
        destruct (decide ((r, c) ∈ hiddenNeighbours g row col)) as [Hin|Hin].
        -- apply hiddenNeighbours_elem in Hin as [[_ Hnr] _].
           exfalso. apply Hnr. exact Hrev.
        -- by apply Htidy.
  - rewrite applyMove_direct; [|assumption..|].
    2:{ intros Hmask. destruct (gt0 _) eqn:E; [|reflexivity]. tauto. }
    destruct (truthy (cell (flags g) row col)).
    { exists g. split; [reflexivity | by apply move_rel_refl]. }
    destruct (is_mine (cell (board g) row col)).
    + destruct (mineHit_move (inc_moves g) now Hwf) as (g1 & Hrun & Hrel & _).
      by exists g1.
    + destruct (revealEmpty_cascade (inc_moves g) row col MAX_REVEALS Hwf)
        as (g1 & b1 & Hrun & Hwf1 & Hrel & _).
      rewrite Hrun. cbn [mbind res_bind]. exists g1. split; [reflexivity|].
      exact (cascade_move (inc_moves g) g1 Hwf1 Hrel).
Qed.

Lemma cellAction_spec g row col now :
  wf_game g -> 0 ≤ row < ROWS ->
  exists g1,
    applyMove g row col now = Ret g1 /\ move_rel g g1 /\
    cellAction g row col now =
    Ret (if gameOver g1 then g1
         else if decide (wins g1) then win_game g1 now else g1).
Proof.
  intros Hwf Hrow.
  destruct (applyMove_rel g row col now Hwf Hrow) as (g1 & Hrun & Hrel).
  exists g1. split_and!; try done.
  unfold cellAction. rewrite Hrun. cbn [mbind res_bind].
  apply checkWin_spec. apply Hrel.
Qed.

Lemma cellAction_no_row g row col now :
  wf_game g -> ¬ (0 ≤ row < ROWS) ->
  cellAction g row col now = Stop TypeError.
Proof.
  intros Hwf Hrow. unfold cellAction.
  by rewrite applyMove_no_row.
Qed.

(** ** Reachable games *)

(** The win condition reads the board and the flags only. *)
Lemma wins_ext g g' :
  board g' = board g -> flags g' = flags g -> wins g' <-> wins g.
Proof.
  intros Hb Hf. unfold wins, correctFlags, totalFlags.
  rewrite (filter_length_iff (correctFlagAt g') (correctFlagAt g)),
    (filter_length_iff (flaggedAt (flags g')) (flaggedAt (flags g))).
  - reflexivity.
  - intros p _. by rewrite Hf.
  - intros p _. unfold correctFlagAt. by rewrite Hb, Hf.
Qed.

Lemma createNewGame_consistent samples now g :
  Forall sample_ok samples -> createNewGame samples now = Ret g ->
  consistent g.
Proof.
  intros Hs Hrun. unfold createNewGame in Hrun.
  apply bind_Ret in Hrun as (b1 & Hplace & Hrun).
  apply bind_Ret in Hrun as (b2 & Hcalc & Hrun).
  inversion Hrun; subst g; clear Hrun.
  destruct (placeMines_spec samples (newGrid 0) 0 b1 Hs (newGrid_wf 0)
              countMines_newGrid ltac:(unfold MINES; lia) Hplace)
    as [Hwf1 Hcount].
  destruct (calculateNumbers_spec b1 Hwf1)
    as (b2' & Hcalc' & Hwf2 & Hsame & Hnum).
  rewrite Hcalc in Hcalc'. inversion Hcalc'; subst b2'; clear Hcalc'.
  unfold consistent, wf_game, board_ok, tidy. simpl.
  split_and!; try done; try apply newGrid_wf.
  - intros row col Hv Hno.
    rewrite (adjacentMines_ext b2 b1) by assumption.
    apply Hnum; [assumption|]. intros Hm. apply Hno. by apply Hsame in Hm.
  - rewrite <- Hcount. unfold countMines. f_equal.
    apply filter_length_iff. intros p _. apply Hsame.
  - intros _. split_and!; try done.
    + intros [_ Htot]. unfold totalFlags in Htot. simpl in Htot.
      vm_compute in Htot. discriminate.
    + intros row col Hrev.
      rewrite cell_newGrid in Hrev by (eapply cell_Some_valid;
        [apply newGrid_wf | exact Hrev]).
      discriminate.
Qed.

Lemma cellAction_consistent g row col now g' :
  consistent g -> gameOver g = false ->
  cellAction g row col now = Ret g' ->
  consistent g'.
Proof.
  intros (Hwf & Hok & Hcount & Hprog) Hgo Hrun.
  destruct (Hprog Hgo) as (Hwon & Het & Hnowin & Htidy).
  destruct (decide (0 ≤ row < ROWS)) as [Hrow|Hrow].
  2:{ rewrite cellAction_no_row in Hrun by assumption. discriminate. }
  destruct (cellAction_spec g row col now Hwf Hrow)
    as (g1 & _ & (Hwf1 & Hbd & Hst & Hwon1 & Hgrow & Hcase) & Hrun').
  rewrite Hrun in Hrun'. inversion Hrun' as [Hg']. clear Hrun'.
  assert (wf_game g' /\ board g' = board g) as [Hwf' Hbd'].
  { destruct (gameOver g1); [by subst|].
    destruct (decide (wins g1)); by subst. }
  rewrite <- Hg'. unfold consistent. rewrite Hbd'. split_and!; try done.
  intros Hgo'.
  destruct (gameOver g1) eqn:Hgo1; [subst g'; congruence|].
  destruct (decide (wins g1)) as [Hw|Hw]; [subst g'; discriminate|].
  subst g'. destruct Hcase as [E|(Hgo2 & Het1 & Htidy1)]; [congruence|].
  split_and!; try congruence. by apply Htidy1.
Qed.

Lemma reachable_consistent g : reachable g -> consistent g.
Proof.
  induction 1 as [samples now g Hs Hrun | g row col now g' _ IH Hgo Hrun].
  - by eapply createNewGame_consistent.
  - by eapply cellAction_consistent.
Qed.

(** ** The chord click *)

Lemma hidden_unflagged_false g p :
  wf_game g -> isValidPosition p.1 p.2 = true -> hiddenUnflagged g p ->
  cell (flags g) p.1 p.2 = Some false /\ cell (mask g) p.1 p.2 = Some false.
Proof.
  intros (_ & Hm & Hf) Hv [Hnf Hnr]. unfold flaggedAt, revealedAt in *.
  destruct (cell_valid (flags g) _ _ Hf Hv) as [[] Hx]; [contradiction|].
  destruct (cell_valid (mask g) _ _ Hm Hv) as [[] Hy]; [contradiction|].
  by split.
Qed.

(** C2.  On every game of the configured shape that is in progress
    ([gameOver] and [won] false, the win condition not met already; every
    reachable game in progress is one, by [reachable_consistent]), a chord
    click on a revealed cell of value [v > 0] with exactly [v] flagged
    neighbours returns; if a hidden unflagged neighbour is a mine the
    resulting game has [gameOver = true], [won = false] and every mine
    revealed; otherwise every hidden unflagged neighbour is revealed and
    [gameOver] is still false.  The flags need not be right, so both cases
    occur. *)
Theorem chord_reveal_or_mine_hit g row col now v :
  wf_game g -> gameOver g = false -> won g = false -> ¬ wins g ->
  cell (mask g) row col = Some true -> cell (board g) row col = Some v ->
  0 < v -> flagCount g row col = v ->
  exists g',
    cellAction g row col now = Ret g' /\
    (Exists (mineAt (board g)) (hiddenNeighbours g row col) ->
     gameOver g' = true /\ won g' = false /\
     forall r c, cell (board g') r c = Some (-1) ->
                 cell (mask g') r c = Some true) /\
    (¬ Exists (mineAt (board g)) (hiddenNeighbours g row col) ->
     (forall p, p ∈ hiddenNeighbours g row col ->
                cell (mask g') p.1 p.2 = Some true) /\
     gameOver g' = false).
Proof.
  intros Hwf Hgo Hwon Hnowin Hmask Hval Hpos Hfc.
  unfold cellAction.
  rewrite (applyMove_chord g row col now v) by assumption.
  rewrite decide_True by assumption.
  destruct (decide (Exists (mineAt (board g)) (hiddenNeighbours g row col)))
    as [Hhit|Hsafe].
  - rewrite bool_decide_eq_true_2 by assumption.
    destruct (mineHit_move g now Hwf)
      as (g1 & Hrun & Hrel & _ & _ & Hgo1 & _ & Hmines).
    rewrite Hrun. cbn [mbind res_bind].
    rewrite checkWin_spec by apply Hrel. rewrite Hgo1.
    exists g1. split; [reflexivity|]. split; [|tauto].
    intros _. split_and!; try done.
    destruct Hrel as (_ & _ & _ & -> & _). exact Hwon.
  - rewrite bool_decide_eq_false_2 by assumption.
    destruct (revealAll_spec (hiddenNeighbours g row col) g Hwf)
      as (g1 & Hrun & Hwf1 & Hrel & Hshown).
    rewrite Hrun. cbn [mbind res_bind].
    pose proof Hrel as (Hbd & Hfl & (Hgo1 & _) & _).
    set (g2 := if 0 <? Z.of_nat (length (hiddenNeighbours g row col))
               then inc_moves g1 else g1).
    assert (wf_game g2 /\ board g2 = board g /\ flags g2 = flags g /\
            gameOver g2 = false /\ mask g2 = mask g1)
      as (Hwf2 & Hbd2 & Hfl2 & Hgo2 & Hmk2).
    { unfold g2. destruct (0 <? _); simpl; split_and!; congruence || done. }
    rewrite checkWin_spec by assumption. rewrite Hgo2.
    rewrite decide_False by (by rewrite (wins_ext g g2)).
    exists g2. split; [reflexivity|]. split; [tauto|].
    intros _. split; [|assumption].
    intros p Hin. rewrite Hmk2.
    pose proof Hin as [Hhu Hnb]%hiddenNeighbours_elem.
    apply neighbours_valid in Hnb.
    apply Hshown; [assumption..|].
    by apply hidden_unflagged_false.
Qed.

(** C3.  A chord click on a revealed cell of value [v > 0] whose number of
    flagged neighbours differs from [v] runs [autoFlag] and nothing else;
    when the hidden unflagged neighbours are at least one and exactly
    [v - flagCount], each of them is flagged, [moves] grows by one, the
    other flags and the whole mask are unchanged.  When the number of
    flagged neighbours is [v], the move is the direct-reveal branch alone
    and [autoFlag] is not run. *)
Theorem chord_auto_flag g row col now v :
  wf_game g ->
  cell (mask g) row col = Some true -> cell (board g) row col = Some v ->
  0 < v ->
  (flagCount g row col <> v ->
   applyMove g row col now =
   ('(g1, flagged) ← autoFlag g row col;
    Ret (if flagged : bool then inc_moves g1 else g1)) /\
   (0 < Z.of_nat (length (hiddenNeighbours g row col)) ->
    Z.of_nat (length (hiddenNeighbours g row col)) = v - flagCount g row col ->
    exists g',
      cellAction g row col now = Ret g' /\
      (forall p, p ∈ hiddenNeighbours g row col ->
                 cell (flags g') p.1 p.2 = Some true) /\
      moves g' = moves g + 1 /\
      (forall r c, (r, c) ∉ hiddenNeighbours g row col ->
                   cell (flags g') r c = cell (flags g) r c) /\
      mask g' = mask g)) /\
  (flagCount g row col = v ->
   applyMove g row col now =
   if bool_decide (Exists (mineAt (board g)) (hiddenNeighbours g row col))
   then mineHit g now
   else g1 ← revealAll g (hiddenNeighbours g row col);
        Ret (if 0 <? Z.of_nat (length (hiddenNeighbours g row col))
             then inc_moves g1 else g1)).
Proof.
  intros Hwf Hmask Hval Hpos.
  pose proof (applyMove_chord g row col now v Hwf Hmask Hval Hpos) as Heq.
  split.
  - intros Hne. rewrite decide_False in Heq by assumption.
    split; [exact Heq|]. intros Hsome Hexact.
    unfold cellAction. rewrite Heq.
    rewrite (autoFlag_numbered g row col v) by assumption.
    rewrite decide_True by (unfold autoFlag_fires; lia).
    destruct (flagAll_spec (hiddenNeighbours g row col) g
                (hiddenNeighbours_valid g row col) Hwf)
      as (g1 & Hrun & Hwf1 & Hbd & Hmk & (Hgo & Hwon & Hst & Hmv & Het)
          & Hcells).
    rewrite Hrun. cbn [mbind res_bind].
    rewrite checkWin_spec by exact Hwf1.
    set (g' := if gameOver (inc_moves g1) then inc_moves g1
               else if decide (wins (inc_moves g1))
                    then win_game (inc_moves g1) now else inc_moves g1).
    assert (flags g' = flags g1 /\ mask g' = mask g1 /\
            moves g' = moves g1 + 1) as (Hfl' & Hmk' & Hmv').
    { unfold g'. destruct (gameOver (inc_moves g1)); [done|].
      destruct (decide _); done. }
    exists g'. split; [reflexivity|]. rewrite Hfl', Hmk', Hmv'.
    split_and!; try congruence.
    + intros [r c] Hin. simpl. rewrite Hcells. by rewrite decide_True.
    + intros r c Hout. rewrite Hcells. by rewrite decide_False.
  - intros Hfc. by rewrite decide_True in Heq.
Qed.

(** ** The win by flags, the mask, the click on a revealed zero *)

(** C4.  After a cell action whose move did not end the game, if the
    flagged cells are exactly [MINES] and the flagged mines are [MINES],
    the stored game has [won = true], [gameOver = true] and [endTime] set;
    the mask is the one the move left, whatever is still hidden. *)
Theorem win_when_all_mines_flagged g row col now g1 :
  wf_game g ->
  applyMove g row col now = Ret g1 ->
  gameOver g1 = false ->
  correctFlags g1 = MINES -> totalFlags g1 = MINES ->
  exists g',
    cellAction g row col now = Ret g' /\
    won g' = true /\ gameOver g' = true /\ endTime g' = Some now /\
    mask g' = mask g1.
Proof.
  intros Hwf Hrun Hgo Hcorrect Htotal.
  destruct (decide (0 ≤ row < ROWS)) as [Hrow|Hrow].
  2:{ rewrite applyMove_no_row in Hrun by assumption. discriminate. }
  destruct (cellAction_spec g row col now Hwf Hrow) as (g1' & Hrun' & _ & Hact).
  rewrite Hrun in Hrun'. inversion Hrun'; subst g1'.
  rewrite Hact, Hgo. rewrite decide_True by (by split).
  exists (win_game g1 now). by split_and!.
Qed.

(** C9.  Mask monotonicity.  [revealEmpty], [autoFlag], the move of the
    handler (the chord and the direct-click branches), the win check and
    the whole cell action leave every mask entry that is true as it is.
    The cell action returns for every row of the grid. *)
Theorem mask_never_shrinks g row col now :
  wf_game g ->
  (forall b g' b', revealEmpty g row col b = Ret (g', b') ->
                   mask_grows (mask g) (mask g')) /\
  (forall g' flagged, autoFlag g row col = Ret (g', flagged) ->
                      mask_grows (mask g) (mask g')) /\
  (forall g', applyMove g row col now = Ret g' ->
              mask_grows (mask g) (mask g')) /\
  (forall g', checkWin g now = Ret g' -> mask_grows (mask g) (mask g')) /\
  (forall g', cellAction g row col now = Ret g' ->
              mask_grows (mask g) (mask g')) /\
  (0 ≤ row < ROWS -> exists g', cellAction g row col now = Ret g').
Proof.
  intros Hwf. split_and!.
  - intros b g' b' Hrun.
    destruct (revealEmpty_spec g row col b Hwf)
      as (g2 & b2 & Hrun2 & _ & _ & (_ & _ & Hgrow & _) & _).
    rewrite Hrun in Hrun2. inversion Hrun2; subst. exact Hgrow.
  - intros g' flagged Hrun.
    destruct (autoFlag_frame g row col g' flagged Hwf Hrun)
      as (_ & _ & -> & _). by intros r c.
  - intros g' Hrun.
    destruct (decide (0 ≤ row < ROWS)) as [Hrow|Hrow].
    2:{ rewrite applyMove_no_row in Hrun by assumption. discriminate. }
    destruct (applyMove_rel g row col now Hwf Hrow) as (g1 & Hrun1 & Hrel).
    rewrite Hrun in Hrun1. inversion Hrun1; subst g1. apply Hrel.
  - intros g' Hrun. rewrite checkWin_spec in Hrun by assumption.
    inversion Hrun; subst g'. intros r c Hrev.
    destruct (gameOver g); [assumption|]. by destruct (decide _).
  - intros g' Hrun.
    destruct (decide (0 ≤ row < ROWS)) as [Hrow|Hrow].
    2:{ rewrite cellAction_no_row in Hrun by assumption. discriminate. }
    destruct (cellAction_spec g row col now Hwf Hrow)
      as (g1 & _ & Hrel & Hact).
    rewrite Hrun in Hact. inversion Hact; subst g'. intros r c Hrev.
    assert (cell (mask g1) r c = Some true) as H1 by (by apply Hrel).
    destruct (gameOver g1); [assumption|]. by destruct (decide _).
  - intros Hrow.
    destruct (cellAction_spec g row col now Hwf Hrow) as (g1 & _ & _ & Hact).
    eauto.
Qed.

(** C10.  On a reachable game in progress, a click on a cell that is
    already revealed and holds 0 adds one to [moves] and changes nothing
    else: the board, every mask entry, every flag, [gameOver], [won],
    [startTime] and [endTime] are as before. *)
Theorem click_on_revealed_zero g row col now :
  reachable g -> gameOver g = false ->
  cell (mask g) row col = Some true -> cell (board g) row col = Some 0 ->
  exists g',
    cellAction g row col now = Ret g' /\
    moves g' = moves g + 1 /\
    board g' = board g /\ mask g' = mask g /\ flags g' = flags g /\
    gameOver g' = gameOver g /\ won g' = won g /\
    startTime g' = startTime g /\ endTime g' = endTime g.
Proof.
  intros Hreach Hgo Hmask Hval.
  destruct (reachable_consistent g Hreach) as (Hwf & _ & _ & Hprog).
  destruct (Hprog Hgo) as (_ & _ & Hnowin & Htidy).
  pose proof (cell_Some_valid _ _ _ _ (proj1 (proj2 Hwf)) Hmask) as Hv.
  pose proof (proj1 (isValidPosition_spec _ _) Hv) as [Hrow _].
  exists (inc_moves g). split; [|by split_and!].
  unfold cellAction. rewrite applyMove_direct; [|assumption..|].
  2:{ intros _. by rewrite Hval. }
  rewrite (Htidy row col Hmask), Hval. cbn [truthy is_mine is_num Z.eqb].
  destruct (revealEmpty_spec (inc_moves g) row col MAX_REVEALS Hwf)
    as (g1 & b1 & Hrun & _ & _ & _ & Hcase).
  rewrite Hrun. cbn [mbind res_bind].
  destruct Hcase as [(-> & _ & _)|[(_ & Hhidden & _) _]].
  - rewrite checkWin_spec by exact Hwf.
    change (gameOver (inc_moves g)) with (gameOver g). rewrite Hgo.
    rewrite decide_False; [reflexivity|].
    by rewrite (wins_ext g (inc_moves g)).
  - simpl in Hhidden. congruence.
Qed.

(** ** The persistence boundary *)

Lemma asList_fmap {A : Type} (item : A -> jsval) (back : jsval -> res A)
  (l : list A) :
  (forall x, back (item x) = Ret x) ->
  asList back (item <$> l) = Ret l.
Proof.
  intros Hback. induction l as [|x l IH]; [reflexivity|].
  cbn [fmap list_fmap asList]. rewrite Hback. cbn [mbind res_bind].
  change (list_fmap A jsval item l) with (item <$> l).
  rewrite IH. reflexivity.
Qed.

Lemma stringify_parse_rows {A : Type} (item : A -> jsval) (leaf : A -> json)
  (l : list A) :
  (forall x, stringify_value (item x) = Some (leaf x)) ->
  (forall x, parse_value (leaf x) = item x) ->
  parse_value <$> ((fun x => default JNull (stringify_value x)) <$> (item <$> l))
  = item <$> l.
Proof.
  intros Hs Hp. rewrite <- !list_fmap_compose.
  apply list_fmap_ext. intros _ x _. simpl. rewrite Hs. simpl. apply Hp.
Qed.

(** A grid survives [JSON.stringify] and [JSON.parse]. *)
Lemma grid_round_trip {A : Type} (item : A -> jsval) (leaf : A -> json)
  (back : jsval -> res A) (g : list (list A)) :
  (forall x, stringify_value (item x) = Some (leaf x)) ->
  (forall x, parse_value (leaf x) = item x) ->
  (forall x, back (item x) = Ret x) ->
  exists j,
    stringify_value (gridToJS item g) = Some j /\
    asGrid back (parse_value j) = Ret g.
Proof.
  intros Hs Hp Hback. eexists. split; [reflexivity|].
  unfold asGrid, gridToJS. cbn [parse_value asArray].
  rewrite (stringify_parse_rows (fun rw => VArr (item <$> rw))
             (fun rw => JArr (leaf <$> rw))).
  - apply asList_fmap. intros rw. cbn [asArray]. by apply asList_fmap.
  - intros rw. cbn [stringify_value]. do 2 f_equal.
    rewrite <- list_fmap_compose. apply list_fmap_ext.
    intros _ x _. simpl. by rewrite Hs.
  - intros rw. cbn [parse_value]. f_equal.
    rewrite <- list_fmap_compose. apply list_fmap_ext.
    intros _ x _. simpl. apply Hp.
Qed.

(** C5.  Decoding the encoding of a game ([JSON.parse] of
    [JSON.stringify]) returns the same game, field for field: the board,
    mask and flags grids, [gameOver], [won], [startTime], [moves] and
    [endTime], absent or present.  This holds of every game, the reachable
    ones among them. *)
Theorem decode_encode (g : Game) :
  exists j, encode g = Some j /\ decode j = Ret g.
Proof.
  destruct g as [bd mk fl go wn st mv et].
  destruct (grid_round_trip VNum JNum asNum bd) as (jb & Hsb & Hpb); try done.
  destruct (grid_round_trip VBool JBool asBool mk) as (jm & Hsm & Hpm); try done.
  destruct (grid_round_trip VBool JBool asBool fl) as (jf & Hsf & Hpf); try done.
  unfold encode, decode, toJS. cbn [board mask flags gameOver won startTime
                                    moves endTime].
  cbn [stringify_value]. rewrite Hsb, Hsm, Hsf.
  destruct et as [t|]; cbn [stringify_value].
  - eexists. split; [reflexivity|].
    cbn [parse_value]. unfold asGame.
    cbn [getProp lookupProp String.eqb Ascii.eqb Bool.eqb mbind res_bind].
    rewrite Hpb, Hpm, Hpf. reflexivity.
  - eexists. split; [reflexivity|].
    cbn [parse_value]. unfold asGame.
    cbn [getProp lookupProp String.eqb Ascii.eqb Bool.eqb mbind res_bind].
    rewrite Hpb, Hpm, Hpf. reflexivity.
Qed.

(** While a game is in progress its [endTime] is [undefined].  The stored
    text has no [endTime] member and the parsed object has no such
    property; reading it yields [undefined] as it did before. *)
Lemma in_progress_endTime_round_trip g j :
  endTime g = None -> encode g = Some j ->
  getProp (toJS g) "endTime" = Ret VUndefined /\
  getProp (parse_value j) "endTime" = Ret VUndefined.
Proof.
  intros Het Henc. unfold encode, toJS in *. rewrite Het in *.
  split; [reflexivity|].
  cbn [stringify_value] in Henc.
  destruct (stringify_value (gridToJS VNum (board g))),
    (stringify_value (gridToJS VBool (mask g))),
    (stringify_value (gridToJS VBool (flags g)));
    inversion Henc; reflexivity.
Qed.

(** ** A game played through the model *)

Lemma demoSamples_ok : Forall sample_ok demoSamples.
Proof. repeat constructor. Qed.

Lemma demoGame_created : createNewGame demoSamples 1000 = Ret demoGame.
Proof. vm_compute. reflexivity. Qed.

Lemma demoGame_reachable : reachable demoGame.
Proof. exact (reach_new _ _ _ demoSamples_ok demoGame_created). Qed.

Lemma demoOpened_reachable : reachable demoOpened.
Proof.
  apply (reach_move demoGame 0 3 2000); [exact demoGame_reachable|reflexivity|].
  vm_compute. reflexivity.
Qed.

Lemma demoFlagged_reachable : reachable demoFlagged.
Proof.
  apply (reach_move (game_of (cellAction demoOpened 1 3 3000) demoGame)
           2 4 4000).
  - apply (reach_move demoOpened 1 3 3000);
      [exact demoOpened_reachable|reflexivity|].
    vm_compute. reflexivity.
  - vm_compute. reflexivity.
  - vm_compute. reflexivity.
Qed.

(** Scenario A: the first click at a cell that holds 0 cascades over the
    zero region and its numbered border; 25 cells are revealed, none of
    them a mine. *)
Example first_click_cascade :
  cell (board demoGame) 0 3 = Some 0 /\
  cellAction demoGame 0 3 2000 = Ret demoOpened /\
  newlyRevealed (mask demoGame) (mask demoOpened) = 25 /\
  filter (fun p => revealedAt (mask demoOpened) p /\ mineAt demoBoard p) cells
  = [].
Proof. vm_compute. repeat split; reflexivity. Qed.

(** Scenario B: a chord click on a revealed 2 with two flagged neighbours,
    one of them wrong, and a hidden unflagged mine next to it: the game is
    lost and the ten mines are revealed. *)
Example chord_on_wrong_flag_hits_mine :
  cell (mask demoWrongFlag) 1 2 = Some true /\
  cell (board demoWrongFlag) 1 2 = Some 2 /\
  flagCount demoWrongFlag 1 2 = 2 /\
  (2, 2) ∈ hiddenNeighbours demoWrongFlag 1 2 /\
  mineAt (board demoWrongFlag) (2, 2) /\
  exists g',
    cellAction demoWrongFlag 1 2 5000 = Ret g' /\
    gameOver g' = true /\ won g' = false /\ endTime g' = Some 5000 /\
    filter (fun p => revealedAt (mask g') p /\ mineAt demoBoard p) cells
    = filter (mineAt demoBoard) cells.
Proof.
  split; [vm_compute; reflexivity|]. split; [vm_compute; reflexivity|].
  split; [vm_compute; reflexivity|].
  split; [apply (bool_decide_unpack _); vm_compute; exact I|].
  split; [vm_compute; reflexivity|].
  eexists. split; [vm_compute; reflexivity|].
  split_and!; vm_compute; reflexivity.
Qed.

(** ** Clicks outside the grid *)

(** A click in a row of the grid but outside its columns, on a game in
    progress that is not won: the move is counted, nothing else changes. *)
Lemma click_outside_columns g row col now :
  wf_game g -> gameOver g = false -> ¬ wins g ->
  0 ≤ row < ROWS -> ¬ (0 ≤ col < COLS) ->
  cellAction g row col now = Ret (inc_moves g).
Proof.
  intros Hwf Hgo Hnowin Hrow Hcol.
  assert (isValidPosition row col = false) as Hinv.
  { destruct (isValidPosition row col) eqn:E; [|reflexivity].
    apply isValidPosition_spec in E. tauto. }
  pose proof Hwf as (Hb & Hm & Hf).
  unfold cellAction. rewrite applyMove_direct; [|assumption..|].
  2:{ rewrite cell_invalid by assumption. discriminate. }
  rewrite !cell_invalid by assumption. cbn [truthy is_mine is_num].
  destruct (revealEmpty_spec (inc_moves g) row col MAX_REVEALS Hwf)
    as (g1 & b1 & Hrun & _ & _ & _ & Hcase).
  rewrite Hrun. cbn [mbind res_bind].
  destruct Hcase as [(-> & _ & _)|[(Hv & _) _]]; [|congruence].
  rewrite checkWin_spec by exact Hwf.
  change (gameOver (inc_moves g)) with (gameOver g). rewrite Hgo.
  rewrite decide_False; [reflexivity|].
  by rewrite (wins_ext g (inc_moves g)).
Qed.

(** C6.  The handler does not check the clicked coordinates.  On the new
    game [demoGame] a click at row 0, column 8 is stored as a move
    ([moves] goes from 0 to 1), and a click at row 8, column 0 throws a
    [TypeError] before anything is stored: neither is the silent no-op
    with [moves] unchanged. *)
Theorem click_outside_grid_is_not_a_no_op :
  isValidPosition 0 8 = false /\ isValidPosition 8 0 = false /\
  cellAction demoGame 0 8 2000 = Ret (inc_moves demoGame) /\
  moves demoGame = 0 /\ moves (inc_moves demoGame) = 1 /\
  handleRequest (CellClick 0 8) [] 2000 (encode demoGame) =
    Ret (encode (inc_moves demoGame)) /\
  cellAction demoGame 8 0 2000 = Stop TypeError /\
  handleRequest (CellClick 8 0) [] 2000 (encode demoGame) = Stop TypeError.
Proof. split_and!; vm_compute; reflexivity. Qed.

(** ** The theorems at concrete inputs *)

Lemma generated_board_witness :
  Forall sample_ok demoSamples /\
  createNewGame demoSamples 1000 = Ret demoGame /\
  wf_grid (board demoGame) /\ countMines (board demoGame) = MINES /\
  MINES = 10 /\
  forall row col, isValidPosition row col = true ->
    cell (board demoGame) row col <> Some (-1) ->
    cell (board demoGame) row col =
    Some (adjacentMines (board demoGame) row col).
Proof.
  assert (Forall sample_ok demoSamples) as Hs by repeat constructor.
  assert (createNewGame demoSamples 1000 = Ret demoGame) as Hrun
    by (vm_compute; reflexivity).
  split; [exact Hs|]. split; [exact Hrun|].
  exact (generated_board_mines_and_counts demoSamples 1000 demoGame Hs Hrun).
Defined.

Lemma revealEmpty_budget_witness :
  wf_game demoGame /\
  exists g' b',
    revealEmpty demoGame 0 3 MAX_REVEALS = Ret (g', b') /\
    mask_grows (mask demoGame) (mask g') /\
    newlyRevealed (mask demoGame) (mask g') ≤ Z.max MAX_REVEALS 0 /\
    b' = MAX_REVEALS - newlyRevealed (mask demoGame) (mask g').
Proof.
  assert (wf_game demoGame) as Hwf by wf_by_computation.
  split; [exact Hwf|].
  exact (revealEmpty_budget demoGame 0 3 MAX_REVEALS Hwf).
Defined.

Lemma revealEmpty_spares_mines_witness :
  wf_game demoGame /\ board_ok (board demoGame) /\
  cell (board demoGame) 0 3 <> Some (-1) /\
  exists g' b',
    revealEmpty demoGame 0 3 MAX_REVEALS = Ret (g', b') /\
    forall r c, cell (board demoGame) r c = Some (-1) ->
      cell (mask g') r c = cell (mask demoGame) r c.
Proof.
  assert (wf_game demoGame) as Hwf by wf_by_computation.
  assert (board_ok (board demoGame)) as Hok
    by apply (reachable_consistent demoGame demoGame_reachable).
  assert (cell (board demoGame) 0 3 <> Some (-1)) as Hstart
    by (vm_compute; discriminate).
  split_and!; [exact Hwf | exact Hok | exact Hstart |].
  exact (revealEmpty_spares_mines demoGame 0 3 MAX_REVEALS Hwf Hok Hstart).
Defined.

Lemma chord_reveal_witness :
  (wf_game demoWrongFlag /\ gameOver demoWrongFlag = false /\
   won demoWrongFlag = false /\ ¬ wins demoWrongFlag /\
   cell (mask demoWrongFlag) 1 2 = Some true /\
   cell (board demoWrongFlag) 1 2 = Some 2 /\ 0 < 2 /\
   flagCount demoWrongFlag 1 2 = 2 /\
   Exists (mineAt (board demoWrongFlag)) (hiddenNeighbours demoWrongFlag 1 2) /\
   exists g',
     cellAction demoWrongFlag 1 2 5000 = Ret g' /\
     gameOver g' = true /\ won g' = false /\
     forall r c, cell (board g') r c = Some (-1) ->
                 cell (mask g') r c = Some true) /\
  (wf_game demoFlagged /\ gameOver demoFlagged = false /\
   won demoFlagged = false /\ ¬ wins demoFlagged /\
   cell (mask demoFlagged) 2 3 = Some true /\
   cell (board demoFlagged) 2 3 = Some 2 /\ 0 < 2 /\
   flagCount demoFlagged 2 3 = 2 /\
   hiddenNeighbours demoFlagged 2 3 = [(3, 2)] /\
   ¬ Exists (mineAt (board demoFlagged)) (hiddenNeighbours demoFlagged 2 3) /\
   exists g',
     cellAction demoFlagged 2 3 5000 = Ret g' /\
     (forall p, p ∈ hiddenNeighbours demoFlagged 2 3 ->
                cell (mask g') p.1 p.2 = Some true) /\
     gameOver g' = false).
Proof.
  assert (0 < 2) as Hpos by lia.
  split.
  - assert (wf_game demoWrongFlag) as Hwf by wf_by_computation.
    assert (¬ wins demoWrongFlag) as Hnowin.
    { intros [_ Htotal]. vm_compute in Htotal. discriminate Htotal. }
    assert (Exists (mineAt (board demoWrongFlag))
                   (hiddenNeighbours demoWrongFlag 1 2)) as Hhit.
    { apply Exists_exists. exists (2, 2).
      split; [apply (bool_decide_unpack _); vm_compute; exact I|].
      vm_compute. reflexivity. }
    split_and!; [exact Hwf | reflexivity | reflexivity | exact Hnowin |
                 reflexivity | reflexivity | exact Hpos | reflexivity |
                 exact Hhit |].
    destruct (chord_reveal_or_mine_hit demoWrongFlag 1 2 5000 2 Hwf eq_refl
                eq_refl Hnowin eq_refl eq_refl Hpos eq_refl)
      as (g' & Hrun & Hlost & _).
    exists g'. split; [exact Hrun|]. exact (Hlost Hhit).
  - assert (wf_game demoFlagged) as Hwf by wf_by_computation.
    assert (¬ wins demoFlagged) as Hnowin.
    { intros [_ Htotal]. vm_compute in Htotal. discriminate Htotal. }
    assert (¬ Exists (mineAt (board demoFlagged))
                     (hiddenNeighbours demoFlagged 2 3)) as Hsafe.
    { intros Hex. apply Exists_exists in Hex as (p & Hin & Hmine).
      change (hiddenNeighbours demoFlagged 2 3) with [(3, 2)] in Hin.
      apply list_elem_of_singleton in Hin. subst p.
      vm_compute in Hmine. discriminate Hmine. }
    split_and!; [exact Hwf | reflexivity | reflexivity | exact Hnowin |
                 reflexivity | reflexivity | exact Hpos | reflexivity |
                 reflexivity | exact Hsafe |].
    destruct (chord_reveal_or_mine_hit demoFlagged 2 3 5000 2 Hwf eq_refl
                eq_refl Hnowin eq_refl eq_refl Hpos eq_refl)
      as (g' & Hrun & _ & Hopen).
    exists g'. split; [exact Hrun|]. exact (Hopen Hsafe).
Defined.

Lemma chord_auto_flag_witness :
  wf_game demoOpened /\
  cell (mask demoOpened) 1 3 = Some true /\
  cell (board demoOpened) 1 3 = Some 1 /\ 0 < 1 /\
  flagCount demoOpened 1 3 = 0 /\
  hiddenNeighbours demoOpened 1 3 = [(2, 2)] /\
  exists g',
    cellAction demoOpened 1 3 3000 = Ret g' /\
    (forall p, p ∈ hiddenNeighbours demoOpened 1 3 ->
               cell (flags g') p.1 p.2 = Some true) /\
    moves g' = moves demoOpened + 1 /\
    (forall r c, (r, c) ∉ hiddenNeighbours demoOpened 1 3 ->
                 cell (flags g') r c = cell (flags demoOpened) r c) /\
    mask g' = mask demoOpened.
Proof.
  assert (wf_game demoOpened) as Hwf by wf_by_computation.
  split_and!; [exact Hwf | reflexivity | reflexivity | lia | reflexivity |
               reflexivity |].
  destruct (chord_auto_flag demoOpened 1 3 3000 1 Hwf) as [Hauto _];
    [reflexivity | reflexivity | lia |].
  destruct Hauto as [_ Hflag]; [vm_compute; discriminate|].
  apply Hflag; [vm_compute; reflexivity | vm_compute; reflexivity].
Defined.

Lemma win_when_all_mines_flagged_witness :
  wf_game demoNearWin /\
  let g1 := game_of (applyMove demoNearWin 1 3 5000) demoGame in
  applyMove demoNearWin 1 3 5000 = Ret g1 /\
  gameOver g1 = false /\ correctFlags g1 = MINES /\ totalFlags g1 = MINES /\
  countRevealed (mask g1) = 25 /\
  exists g',
    cellAction demoNearWin 1 3 5000 = Ret g' /\
    won g' = true /\ gameOver g' = true /\ endTime g' = Some 5000 /\
    mask g' = mask g1.
Proof.
  assert (wf_game demoNearWin) as Hwf by wf_by_computation.
  split; [exact Hwf|]. intros g1.
  assert (applyMove demoNearWin 1 3 5000 = Ret g1) as Hrun
    by (vm_compute; reflexivity).
  split_and!; [exact Hrun | reflexivity | vm_compute; reflexivity |
               vm_compute; reflexivity | vm_compute; reflexivity |].
  apply (win_when_all_mines_flagged demoNearWin 1 3 5000 g1 Hwf Hrun);
    [reflexivity | vm_compute; reflexivity | vm_compute; reflexivity].
Defined.

Lemma mask_never_shrinks_witness :
  wf_game demoOpened /\
  forall g', cellAction demoOpened 1 3 3000 = Ret g' ->
             mask_grows (mask demoOpened) (mask g').
Proof.
  assert (wf_game demoOpened) as Hwf by wf_by_computation.
  split; [exact Hwf|].
  exact (proj1 (proj2 (proj2 (proj2 (proj2
           (mask_never_shrinks demoOpened 1 3 3000 Hwf)))))).
Defined.

Lemma click_on_revealed_zero_witness :
  reachable demoOpened /\ gameOver demoOpened = false /\
  cell (mask demoOpened) 0 3 = Some true /\
  cell (board demoOpened) 0 3 = Some 0 /\
  exists g',
    cellAction demoOpened 0 3 3000 = Ret g' /\
    moves g' = moves demoOpened + 1 /\
    board g' = board demoOpened /\ mask g' = mask demoOpened /\
    flags g' = flags demoOpened /\
    gameOver g' = gameOver demoOpened /\ won g' = won demoOpened /\
    startTime g' = startTime demoOpened /\ endTime g' = endTime demoOpened.
Proof.
  split_and!; [exact demoOpened_reachable | reflexivity | reflexivity |
               reflexivity |].
  apply (click_on_revealed_zero demoOpened 0 3 3000);
    [exact demoOpened_reachable | reflexivity | reflexivity | reflexivity].
Defined.

(** * Further properties of the engine *)

(** ** More about the cascading reveal *)

Lemma reveal_skips_or_fires g row col b :
  wf_game g -> reveal_skips g row col b \/ reveal_fires g row col b.
Proof.
  intros (_ & Hm & Hf). unfold reveal_skips, reveal_fires.
  destruct (isValidPosition row col) eqn:Hv; [|auto].
  destruct (cell_valid (mask g) row col Hm Hv) as [[] Hx]; [auto|].
  destruct (cell_valid (flags g) row col Hf Hv) as [[] Hy]; [auto|].
  destruct (decide (b ≤ 0)); [auto 10|]. right. split_and!; auto; lia.
Qed.

Lemma reveal_skips_not_fires g row col b :
  reveal_skips g row col b -> ¬ reveal_fires g row col b.
Proof.
  intros [E|[E|[E|E]]] (Hv & Hm & Hf & Hb); congruence || lia.
Qed.

(** The two ways through the body of [revealEmpty]. *)
Lemma revealEmpty_fuel_skips fuel g row col b :
  wf_game g -> reveal_skips g row col b ->
  revealEmpty_fuel fuel g row col b = Ret (g, b).
Proof.
  intros (_ & Hm & Hf) Hskip.
  assert (forall k : res (Game * Z),
            (if negb (isValidPosition row col) then Ret (g, b) else
             m ← rd (mask g) row col;
             if truthy m then Ret (g, b) else
             f ← rd (flags g) row col;
             if truthy f then Ret (g, b) else
             if b <=? 0 then Ret (g, b) else k) = Ret (g, b)) as Hguard.
  { intros k. destruct (isValidPosition row col) eqn:Hv; [|reflexivity].
    cbn [negb]. rewrite !rd_valid by assumption. cbn [mbind res_bind].
    destruct (truthy (cell (mask g) row col)) eqn:Htm; [reflexivity|].
    destruct (truthy (cell (flags g) row col)) eqn:Htf; [reflexivity|].
    destruct (b <=? 0) eqn:Hb; [reflexivity|]. apply Z.leb_gt in Hb.
    destruct Hskip as [E|[E|[E|E]]]; try congruence; try lia.
    - rewrite E in Htm. discriminate.
    - rewrite E in Htf. discriminate. }
  destruct fuel; cbn [revealEmpty_fuel]; apply Hguard.
Qed.

Lemma revealEmpty_fuel_fires fuel g row col b :
  wf_game g -> reveal_fires g row col b ->
  revealEmpty_fuel (S fuel) g row col b =
  if is_num 0 (cell (board g) row col)
  then forEach (cascadeBody fuel row col) (reveal g row col, b - 1) DIRECTIONS
  else Ret (reveal g row col, b - 1).
Proof.
  intros (Hb & Hm & Hf) (Hv & Hmask & Hflag & Hpos).
  cbn [revealEmpty_fuel]. rewrite Hv. cbn [negb].
  rewrite !(rd_valid (mask g)), !(rd_valid (flags g)) by assumption.
  cbn [mbind res_bind]. rewrite Hmask, Hflag. cbn [truthy].
  destruct (b <=? 0) eqn:E; [apply Z.leb_le in E; lia|].
  rewrite wr_valid by assumption. cbn [mbind res_bind].
  change (board (set_mask g (put (mask g) row col true))) with (board g).
  rewrite rd_valid by assumption. cbn [mbind res_bind].
  reflexivity.
Qed.

Lemma revealEmpty_fuel_spec fuel g row col b :
  wf_game g -> b ≤ Z.of_nat fuel ->
  exists g' b',
    revealEmpty_fuel fuel g row col b = Ret (g', b') /\
    wf_game g' /\ board g' = board g /\ reveal_rel (g, b) (g', b') /\
    ((g' = g /\ b' = b /\ reveal_skips g row col b) \/
     (reveal_fires g row col b /\
      reveal_rel (reveal g row col, b - 1) (g', b'))).
Proof.
  intros Hwf Hfuel.
  destruct (revealEmpty_fuel_rel (board g) (fun _ _ => True) reveal_rel)
    with (fuel := fuel) (g := g) (row := row) (col := col) (b := b)
    as (g' & b' & Hrun & Hwf' & Hbd & Hle & HR & Hcase);
    try done.
  - apply reveal_rel_refl.
  - apply reveal_rel_trans.
  - intros. by apply reveal_rel_step.
  - exists g', b'. split_and!; done.
Qed.

(** X1.  [revealEmpty] writes the mask only: the board, the flags and the
    scalar fields of the game are as before, and the mask entry of every
    flagged cell is as before, so a flagged cell is never revealed. *)
Theorem revealEmpty_changes_unflagged_mask_only g row col b :
  wf_game g ->
  exists g' b',
    revealEmpty g row col b = Ret (g', b') /\
    board g' = board g /\ flags g' = flags g /\ same_status g g' /\
    forall r c, cell (flags g) r c = Some true ->
                cell (mask g') r c = cell (mask g) r c.
Proof.
  intros Hwf.
  destruct (revealEmpty_spec g row col b Hwf)
    as (g' & b' & Hrun & Hwf' & Hbd & HR & _).
  destruct HR as (Hfl & Hst & Hgrow & Hnew & _). simpl in *.
  exists g', b'. split_and!; try done.
  intros r c Hflag.
  destruct (isValidPosition r c) eqn:Hv.
  - destruct (cell_valid (mask g') r c (proj1 (proj2 Hwf')) Hv) as [[] Hx].
    + destruct (Hnew r c Hx) as [Hold|Hnf]; congruence.
    + destruct (cell_valid (mask g) r c (proj1 (proj2 Hwf)) Hv) as [[] Hy];
        [|congruence].
      rewrite (Hgrow r c Hy) in Hx. discriminate.
  - rewrite !cell_invalid; try done; [apply Hwf | apply Hwf'].
Qed.

(** X2.  The four guards of [revealEmpty]: outside the grid, on a revealed
    cell, on a flagged cell or with a budget that is not positive, the call
    returns the game and the budget as they are.  In every other case the
    starting cell is revealed and the budget goes down by at least one. *)
Theorem revealEmpty_guards g row col b :
  wf_game g ->
  (reveal_skips g row col b \/ reveal_fires g row col b) /\
  (reveal_skips g row col b -> revealEmpty g row col b = Ret (g, b)) /\
  (reveal_fires g row col b ->
   exists g' b',
     revealEmpty g row col b = Ret (g', b') /\
     cell (mask g') row col = Some true /\ b' ≤ b - 1).
Proof.
  intros Hwf. split; [by apply reveal_skips_or_fires|]. split.
  - intros Hskip. by apply revealEmpty_fuel_skips.
  - intros Hfire.
    destruct (revealEmpty_spec g row col b Hwf)
      as (g' & b' & Hrun & _ & _ & _ & Hcase).
    exists g', b'. split; [exact Hrun|].
    destruct Hcase as [(_ & _ & Hskip)|[_ HR]].
    + by apply reveal_skips_not_fires in Hskip.
    + destruct HR as (_ & _ & Hgrow & _ & _ & Hle & _). simpl in *.
      split; [|exact Hle]. apply Hgrow.
      apply cell_put_eq; [apply Hwf | apply Hfire].
Qed.

(** X3.  On a hidden unflagged cell whose value is not 0 (a numbered cell,
    or a mine), a call with a positive budget reveals that one cell and
    nothing else, and takes one from the budget: the cascade goes on from
    cells that hold 0 only. *)
Theorem revealEmpty_numbered_cell g row col b v :
  wf_game g -> reveal_fires g row col b ->
  cell (board g) row col = Some v -> v <> 0 ->
  revealEmpty g row col b = Ret (reveal g row col, b - 1).
Proof.
  intros Hwf Hfire Hval Hv. unfold revealEmpty.
  destruct (Z.to_nat b) as [|fuel] eqn:E.
  { destruct Hfire as (_ & _ & _ & Hpos). lia. }
  rewrite revealEmpty_fuel_fires by assumption.
  rewrite Hval. cbn [is_num].
  destruct (v =? 0) eqn:E0; [apply Z.eqb_eq in E0; contradiction|reflexivity].
Qed.

Lemma wf_cell_bool (m : list (list bool)) r c :
  wf_grid m -> isValidPosition r c = true ->
  cell m r c = Some true \/ cell m r c = Some false.
Proof.
  intros Hwf Hv. destruct (cell_valid m r c Hwf Hv) as [[] Hx]; auto.
Qed.

(** The loop of recursive calls: when budget is left at its end, every
    direction it went through has its cell revealed unless that cell is
    outside the grid or flagged, and the cells revealed on the way keep the
    closure property. *)
Lemma cascade_loop_closed fuel row col :
  (forall g r c b g' b',
     wf_game g -> b ≤ Z.of_nat fuel ->
     revealEmpty_fuel fuel g r c b = Ret (g', b') -> 0 < b' ->
     closed_cascade g g') ->
  forall ds g1 b1 g2 b2,
    wf_game g1 -> b1 ≤ Z.of_nat fuel ->
    forEach (cascadeBody fuel row col) (g1, b1) ds = Ret (g2, b2) ->
    0 < b2 ->
    wf_game g2 /\ board g2 = board g1 /\ flags g2 = flags g1 /\
    b2 ≤ b1 /\ mask_grows (mask g1) (mask g2) /\
    closed_cascade g1 g2 /\
    forall dx dy, (dx, dy) ∈ ds ->
      isValidPosition (row + dx) (col + dy) = true ->
      cell (flags g1) (row + dx) (col + dy) = Some false ->
      cell (mask g2) (row + dx) (col + dy) = Some true.
Proof.
  intros IHfuel.
  induction ds as [|[dx dy] ds IH]; intros g1 b1 g2 b2 Hwf1 Hfuel Hrun Hpos.
  - cbn [forEach] in Hrun. inversion Hrun; subst g2 b2.
    split_and!; try done.
    + by intros r c.
    + intros r c dx dy Hold Hnew. congruence.
    + by intros dx dy ?%elem_of_nil.
  - cbn [forEach] in Hrun.
    destruct (revealEmpty_fuel_spec fuel g1 (row + dx) (col + dy) b1 Hwf1 Hfuel)
      as (ga & ba & Hruna & Hwfa & Hbda & HRa & Hcase).
    rewrite Hruna in Hrun. cbn [mbind res_bind] in Hrun.
    pose proof HRa as (Hfla & _ & Hgrowa & _ & _ & Hlea & _). simpl in *.
    destruct (IH ga ba g2 b2 Hwfa ltac:(lia) Hrun Hpos)
      as (Hwf2 & Hbd2 & Hfl2 & Hle2 & Hgrow2 & Hclosed2 & Hdirs2).
    assert (0 < ba) as Hposa by lia.
    pose proof (IHfuel g1 (row + dx) (col + dy) b1 ga ba Hwf1 Hfuel Hruna Hposa)
      as Hcloseda.
    split_and!; try congruence; try lia.
    + intros r c Hrev. apply Hgrow2. by apply Hgrowa.
    + intros r c ex ey Hold Hnew Hzero Hin Hv Hflag.
      assert (isValidPosition r c = true) as Hvrc
        by exact (cell_Some_valid _ _ _ _ (proj1 (proj2 Hwf1)) Hold).
      destruct (wf_cell_bool (mask ga) r c (proj1 (proj2 Hwfa)) Hvrc)
        as [Hmid|Hmid].
      * apply Hgrow2. by apply (Hcloseda r c ex ey).
      * apply (Hclosed2 r c ex ey); try done; congruence.
    + intros ex ey [E|Hin]%elem_of_cons Hv Hflag.
      * inversion E; subst ex ey. apply Hgrow2.
        destruct Hcase as [(-> & -> & Hskip)|[Hfire HR']].
        -- destruct Hskip as [E'|[E'|[E'|E']]]; congruence || lia.
        -- destruct HR' as (_ & _ & Hgrow' & _). simpl in Hgrow'.
           apply Hgrow'. apply cell_put_eq; [apply Hwf1 | exact Hv].
      * apply (Hdirs2 ex ey Hin Hv). congruence.
Qed.

Lemma revealEmpty_fuel_closed fuel : forall g row col b g' b',
  wf_game g -> b ≤ Z.of_nat fuel ->
  revealEmpty_fuel fuel g row col b = Ret (g', b') -> 0 < b' ->
  closed_cascade g g'.
Proof.
  induction fuel as [|fuel IH]; intros g row col b g' b' Hwf Hfuel Hrun Hpos.
  - rewrite revealEmpty_fuel_skips in Hrun; [|assumption|].
    + inversion Hrun; subst. intros r c dx dy Hold Hnew. congruence.
    + unfold reveal_skips. right. right. right. lia.
  - destruct (reveal_skips_or_fires g row col b Hwf) as [Hskip|Hfire].
    { rewrite revealEmpty_fuel_skips in Hrun by assumption.
      inversion Hrun; subst. intros r c dx dy Hold Hnew. congruence. }
    rewrite revealEmpty_fuel_fires in Hrun by assumption.
    pose proof Hfire as (Hv & Hmask & Hflag & Hb).
    destruct (is_num 0 (cell (board g) row col)) eqn:Hzero.
    + destruct (cascade_loop_closed fuel row col IH DIRECTIONS
                  (reveal g row col) (b - 1) g' b'
                  (reveal_wf g row col Hwf) ltac:(lia) Hrun Hpos)
        as (Hwf' & Hbd & Hfl & _ & Hgrow & Hclosed & Hdirs).
      intros r c dx dy Hold Hnew Hval Hin Hvn Hfn.
      destruct (decide ((row, col) = (r, c))) as [E|E].
      * inversion E; subst r c. by apply Hdirs.
      * apply (Hclosed r c dx dy); try done.
        simpl. by rewrite cell_put_ne.
    + inversion Hrun; subst g' b'.
      intros r c dx dy Hold Hnew Hval Hin Hvn Hfn. simpl in Hnew.
      rewrite cell_put in Hnew by (assumption || apply Hwf).
      destruct (decide ((row, col) = (r, c))) as [E|E]; [|congruence].
      inversion E; subst r c. rewrite Hval in Hzero. discriminate.
Qed.

(** X4.  The flood fill is complete while budget is left: when
    [revealEmpty] returns a positive budget, every cell it revealed that
    holds 0 has all its in-bounds unflagged neighbours revealed.  Cells can
    stay hidden next to a revealed 0 only when the budget ran out. *)
Theorem revealEmpty_closed_when_budget_left g row col b g' b' :
  wf_game g ->
  revealEmpty g row col b = Ret (g', b') -> 0 < b' ->
  forall r c dx dy,
    cell (mask g) r c = Some false -> cell (mask g') r c = Some true ->
    cell (board g) r c = Some 0 -> (dx, dy) ∈ DIRECTIONS ->
    isValidPosition (r + dx) (c + dy) = true ->
    cell (flags g) (r + dx) (c + dy) = Some false ->
    cell (mask g') (r + dx) (c + dy) = Some true.
Proof.
  intros Hwf Hrun Hpos.
  apply (revealEmpty_fuel_closed (Z.to_nat b) g row col b g' b');
    try done; lia.
Qed.

(** ** What play keeps: the flags are right *)

Lemma filter_length_le {A : Type} (P Q : A -> Prop)
  `{!forall x, Decision (P x)} `{!forall x, Decision (Q x)} (l : list A) :
  (forall x, x ∈ l -> P x -> Q x) ->
  (length (filter P l) ≤ length (filter Q l))%nat.
Proof.
  induction l as [|a l IH]; intros Hsub; [reflexivity|].
  rewrite !filter_cons.
  specialize (IH (fun x Hx => Hsub x (list_elem_of_further _ _ _ Hx))).
  specialize (Hsub a (list_elem_of_here _ _)).
  destruct (decide (P a)), (decide (Q a)); simpl; tauto || lia.
Qed.

(** A predicate that selects as many elements as a weaker one selects the
    same elements. *)
Lemma filter_length_subset_eq {A : Type} (P Q : A -> Prop)
  `{!forall x, Decision (P x)} `{!forall x, Decision (Q x)} (l : list A) :
  (forall x, x ∈ l -> P x -> Q x) ->
  length (filter P l) = length (filter Q l) ->
  forall x, x ∈ l -> Q x -> P x.
Proof.
  induction l as [|a l IH]; intros Hsub Hlen x Hin HQ.
  - by apply elem_of_nil in Hin.
  - pose proof (filter_length_le P Q l
                  (fun y Hy => Hsub y (list_elem_of_further _ _ _ Hy))) as Hle.
    rewrite !filter_cons in Hlen.
    pose proof (Hsub a (list_elem_of_here _ _)) as Ha.
    destruct (decide (P a)) as [HPa|HPa], (decide (Q a)) as [HQa|HQa];
      simpl in Hlen; try tauto; try lia.
    + apply elem_of_cons in Hin as [->|Hin]; [assumption|].
      apply IH; try done; [|lia].
      intros y Hy. apply Hsub. by right.
    + apply elem_of_cons in Hin as [->|Hin]; [contradiction|].
      apply IH; try done.
      intros y Hy. apply Hsub. by right.
Qed.

Lemma filter_length_split {A : Type} (P Q R : A -> Prop)
  `{!forall x, Decision (P x)} `{!forall x, Decision (Q x)}
  `{!forall x, Decision (R x)} (l : list A) :
  (forall x, x ∈ l -> Q x <-> P x \/ R x) ->
  (forall x, x ∈ l -> ¬ (P x /\ R x)) ->
  length (filter Q l) = (length (filter P l) + length (filter R l))%nat.
Proof.
  induction l as [|a l IH]; intros Hsplit Hdisj; [reflexivity|].
  rewrite !filter_cons.
  specialize (IH (fun x Hx => Hsplit x (list_elem_of_further _ _ _ Hx))
                 (fun x Hx => Hdisj x (list_elem_of_further _ _ _ Hx))).
  specialize (Hsplit a (list_elem_of_here _ _)).
  specialize (Hdisj a (list_elem_of_here _ _)).
  destruct (decide (P a)), (decide (Q a)), (decide (R a)); simpl;
    tauto || lia.
Qed.

(** Around a revealed numbered cell, when the flags are right and the mines
    are hidden: the number is the flagged neighbours plus the hidden
    unflagged neighbours that are mines. *)
Lemma number_is_flags_plus_hidden_mines g row col v :
  wf_game g -> board_ok (board g) -> flags_on_mines g -> mines_hidden g ->
  cell (board g) row col = Some v -> 0 < v ->
  v = flagCount g row col +
      Z.of_nat (length (filter (hiddenMine g) (neighbours row col))).
Proof.
  intros Hwf [_ Hnum] Hflags Hhidden Hval Hpos.
  assert (isValidPosition row col = true) as Hv
    by exact (cell_Some_valid _ _ _ _ (proj1 Hwf) Hval).
  assert (v = adjacentMines (board g) row col) as ->.
  { specialize (Hnum row col Hv). rewrite Hval in Hnum.
    assert (Some v = Some (adjacentMines (board g) row col)) as [= E]
      by (apply Hnum; intros [= E]; lia).
    exact E. }
  unfold adjacentMines, flagCount.
  rewrite (filter_length_split (flaggedAt (flags g)) (mineAt (board g))
             (hiddenMine g)).
  - lia.
  - intros [r c] Hin. unfold hiddenMine, hiddenUnflagged, flaggedAt, revealedAt,
      mineAt. simpl. split.
    + intros Hmine.
      destruct (decide (cell (flags g) r c = Some true)) as [|Hnf]; [by left|].
      right. split_and!; try done.
      rewrite (Hhidden r c Hmine). discriminate.
    + intros [Hf|[Hm _]]; [by apply Hflags | exact Hm].
  - intros p _ [Hf [_ [Hnf _]]]. contradiction.
Qed.

Lemma chord_no_hidden_mine g row col v :
  wf_game g -> board_ok (board g) -> flags_on_mines g -> mines_hidden g ->
  cell (board g) row col = Some v -> 0 < v -> flagCount g row col = v ->
  ¬ Exists (mineAt (board g)) (hiddenNeighbours g row col).
Proof.
  intros Hwf Hok Hflags Hhidden Hval Hpos Hfc Hex.
  pose proof (number_is_flags_plus_hidden_mines g row col v Hwf Hok Hflags
                Hhidden Hval Hpos) as Hsum.
  apply Exists_exists in Hex as (p & Hin & Hmine).
  apply hiddenNeighbours_elem in Hin as [Hhu Hnb].
  assert (p ∈ filter (hiddenMine g) (neighbours row col)) as Hp
    by (apply list_elem_of_filter; split; [by split | exact Hnb]).
  destruct (filter (hiddenMine g) (neighbours row col)) as [|q l] eqn:E.
  - by apply elem_of_nil in Hp.
  - simpl in Hsum. lia.
Qed.

Lemma autoFlag_flags_mines g row col v :
  wf_game g -> board_ok (board g) -> flags_on_mines g -> mines_hidden g ->
  cell (board g) row col = Some v -> 0 < v -> autoFlag_fires g row col v ->
  forall p, p ∈ hiddenNeighbours g row col -> mineAt (board g) p.
Proof.
  intros Hwf Hok Hflags Hhidden Hval Hpos [_ Hfire] p Hin.
  pose proof (number_is_flags_plus_hidden_mines g row col v Hwf Hok Hflags
                Hhidden Hval Hpos) as Hsum.
  apply hiddenNeighbours_elem in Hin as [Hhu Hnb].
  unfold hiddenNeighbours in Hfire.
  assert (hiddenMine g p) as [Hm _]; [|exact Hm].
  apply (filter_length_subset_eq (hiddenMine g) (hiddenUnflagged g)
           (neighbours row col)); try done.
  - by intros x _ [_ Hx].
  - lia.
Qed.

(** A cascade that starts at a cell that is not a mine, on a generated
    board, leaves the mask entries of the mines as they are. *)
Lemma revealEmpty_keeps_mines g row col b :
  wf_game g -> board_ok (board g) ->
  cell (board g) row col <> Some (-1) ->
  exists g' b',
    revealEmpty g row col b = Ret (g', b') /\ wf_game g' /\
    cascade_rel g g' /\
    forall r c, cell (board g) r c = Some (-1) ->
      cell (mask g') r c = cell (mask g) r c.
Proof.
  intros Hwf Hok Hstart.
  destruct (revealEmpty_cascade g row col b Hwf)
    as (g' & b' & Hrun & Hwf' & Hrel & _).
  exists g', b'. split_and!; try done.
  destruct (revealEmpty_fuel_rel (board g)
              (fun r c => cell (board g) r c <> Some (-1))
              (fun s s' => forall r c, cell (board g) r c = Some (-1) ->
                             cell (mask s'.1) r c = cell (mask s.1) r c))
    with (fuel := Z.to_nat b) (g := g) (row := row) (col := col) (b := b)
    as (g2 & b2 & Hrun2 & _ & _ & _ & HR & _);
    try done; try lia.
  - intros r c dx dy _ Hv Hzero Hin. by apply zero_cell_neighbours.
  - intros s1 s2 s3 H12 H23 r c Hmine.
    rewrite (H23 r c Hmine). by apply H12.
  - intros g1 r1 c1 b1 Hwf1 Hbd1 Hpre _ r c Hmine. simpl.
    apply cell_put_ne. congruence.
  - unfold revealEmpty in Hrun. rewrite Hrun in Hrun2.
    inversion Hrun2; subst g2 b2. exact HR.
Qed.

Lemma revealAll_keeps_mines (l : list (Z * Z)) : forall g,
  wf_game g -> board_ok (board g) ->
  (forall p, p ∈ l -> ¬ mineAt (board g) p) ->
  exists g',
    revealAll g l = Ret g' /\
    forall r c, cell (board g) r c = Some (-1) ->
      cell (mask g') r c = cell (mask g) r c.
Proof.
  unfold revealAll.
  induction l as [|[r0 c0] l IH]; intros g Hwf Hok Hsafe.
  - exists g. by split.
  - cbn [forEach].
    destruct (revealEmpty_keeps_mines g r0 c0 MAX_REVEALS Hwf Hok)
      as (g1 & b1 & Hrun1 & Hwf1 & (Hbd1 & _) & Hkeep1).
    { apply (Hsafe (r0, c0)). left. }
    rewrite Hrun1. cbn [mbind res_bind].
    destruct (IH g1 Hwf1) as (g' & Hrun & Hkeep).
    { by rewrite Hbd1. }
    { intros p Hp. rewrite Hbd1. apply Hsafe. by right. }
    exists g'. split; [exact Hrun|].
    intros r c Hmine. rewrite <- (Hkeep1 r c Hmine).
    apply Hkeep. by rewrite Hbd1.
Qed.

(** A move on a sound game in progress: the flags stay on mines, the mines
    stay hidden unless the game ends, and the game ends in the move only
    by a click on a hidden unflagged mine. *)
Lemma applyMove_sound g row col now g1 :
  sound g -> gameOver g = false ->
  applyMove g row col now = Ret g1 ->
  board g1 = board g /\ flags_on_mines g1 /\
  (gameOver g1 = false -> mines_hidden g1) /\
  (gameOver g1 = true ->
   endTime g1 = Some now /\ won g1 = false /\ mines_shown g1 /\
   cell (board g) row col = Some (-1) /\
   cell (mask g) row col = Some false /\
   cell (flags g) row col = Some false).
Proof.
  intros ((Hwf & Hok & _ & Hprog) & Hflags & Hhid & _) Hgo Hrun.
  destruct (Hprog Hgo) as (Hwon & _ & _ & Htidy). specialize (Hhid Hgo).
  destruct (decide (0 ≤ row < ROWS)) as [Hrow|Hrow].
  2:{ rewrite applyMove_no_row in Hrun by assumption. discriminate. }
  assert (board g = board g /\ flags_on_mines g /\
          (gameOver g = false -> mines_hidden g) /\
          (gameOver g = true ->
           endTime g = Some now /\ won g = false /\ mines_shown g /\
           cell (board g) row col = Some (-1) /\
           cell (mask g) row col = Some false /\
           cell (flags g) row col = Some false)) as Hsame
    by (split_and!; try done; congruence).
  destruct (decide (cell (mask g) row col = Some true /\
                    gt0 (cell (board g) row col) = true)) as [[Hmask Hgt]|Hno].
  - destruct (cell (board g) row col) as [v|] eqn:Hval; [|discriminate].
    simpl in Hgt. apply Z.ltb_lt in Hgt.
    rewrite (applyMove_chord g row col now v) in Hrun by assumption.
    destruct (decide (flagCount g row col = v)) as [Hfc|Hfc].
    + rewrite bool_decide_eq_false_2 in Hrun
        by (by apply (chord_no_hidden_mine g row col v)).
      destruct (revealAll_spec (hiddenNeighbours g row col) g Hwf)
        as (g2 & Hrun2 & Hwf2 & (Hbd & Hfl & (Hgo2 & _) & _) & _).
      destruct (revealAll_keeps_mines (hiddenNeighbours g row col) g Hwf Hok)
        as (g2' & Hrun2' & Hkeep).
      { intros p Hp Hmine.
        apply (chord_no_hidden_mine g row col v); try done.
        apply Exists_exists. eauto. }
      rewrite Hrun2 in Hrun2'. inversion Hrun2'; subst g2'. clear Hrun2'.
      rewrite Hrun2 in Hrun. cbn [mbind res_bind] in Hrun.
      assert (board g1 = board g2 /\ flags g1 = flags g2 /\
              mask g1 = mask g2 /\ gameOver g1 = gameOver g2)
        as (Hb1 & Hf1 & Hm1 & Hg1).
      { destruct (0 <? _); inversion Hrun; by subst. }
      split_and!.
      * congruence.
      * intros r c. rewrite Hb1, Hf1, Hbd, Hfl. apply Hflags.
      * intros _ r c. rewrite Hb1, Hm1, Hbd. intros Hmine.
        rewrite (Hkeep r c Hmine). by apply Hhid.
      * congruence.
    + rewrite (autoFlag_numbered g row col v) in Hrun by assumption.
      destruct (decide (autoFlag_fires g row col v)) as [Hfire|Hnf].
      2:{ inversion Hrun; subst g1. exact Hsame. }
      destruct (flagAll_spec (hiddenNeighbours g row col) g
                  (hiddenNeighbours_valid g row col) Hwf)
        as (g2 & Hrun2 & Hwf2 & Hbd & Hmk & (Hgo2 & _) & Hcells).
      rewrite Hrun2 in Hrun. cbn [mbind res_bind] in Hrun.
      inversion Hrun; subst g1. simpl. split_and!.
      * exact Hbd.
      * intros r c. simpl. rewrite Hbd, Hcells.
        destruct (decide ((r, c) ∈ hiddenNeighbours g row col)) as [Hin|Hin].
        -- intros _.
           by apply (autoFlag_flags_mines g row col v Hwf Hok Hflags Hhid
                       Hval Hgt Hfire (r, c)).
        -- apply Hflags.
      * intros _ r c. simpl. rewrite Hbd, Hmk. apply Hhid.
      * congruence.
  - rewrite applyMove_direct in Hrun; [|assumption..|].
    2:{ intros Hmask. destruct (gt0 _) eqn:E; [|reflexivity]. tauto. }
    destruct (truthy (cell (flags g) row col)) eqn:Htf.
    { inversion Hrun; subst g1. exact Hsame. }
    destruct (is_mine (cell (board g) row col)) eqn:Hmine.
    + apply is_mine_true in Hmine. unfold mineAt in Hmine. simpl in Hmine.
      destruct (mineHit_move (inc_moves g) now Hwf)
        as (g2 & Hrun2 & (_ & Hbd & _ & Hwon2 & _) & Hfl & _ & Hgo2 & Het
            & Hshown).
      rewrite Hrun2 in Hrun. inversion Hrun; subst g2. simpl in *.
      split_and!; try done.
      * intros r c. rewrite Hbd, Hfl. apply Hflags.
      * congruence.
      * intros _. split_and!; try done.
        -- congruence.
        -- by apply Hhid.
        -- apply truthy_cell_false; try done; [apply Hwf|].
           exact (cell_Some_valid _ _ _ _ (proj1 Hwf) Hmine).
    + apply is_mine_false in Hmine.
      destruct (revealEmpty_keeps_mines (inc_moves g) row col MAX_REVEALS
                  Hwf Hok Hmine)
        as (g2 & b2 & Hrun2 & Hwf2 & (Hbd & Hfl & (Hgo2 & _) & _) & Hkeep).
      rewrite Hrun2 in Hrun. cbn [mbind res_bind] in Hrun.
      inversion Hrun; subst g2. simpl in *. split_and!.
      * exact Hbd.
      * intros r c. rewrite Hbd, Hfl. apply Hflags.
      * intros _ r c. rewrite Hbd. intros Hm.
        rewrite (Hkeep r c Hm). by apply Hhid.
      * congruence.
Qed.

Lemma cellAction_sound g row col now g' :
  sound g -> gameOver g = false ->
  cellAction g row col now = Ret g' ->
  sound g'.
Proof.
  intros Hsound Hgo Hrun.
  pose proof Hsound as (Hcons & _).
  pose proof (cellAction_consistent g row col now g' Hcons Hgo Hrun) as Hcons'.
  destruct (decide (0 ≤ row < ROWS)) as [Hrow|Hrow].
  2:{ rewrite cellAction_no_row in Hrun by apply Hcons || assumption.
      discriminate. }
  destruct (cellAction_spec g row col now (proj1 Hcons) Hrow)
    as (g1 & Hrun1 & (Hwf1 & _) & Hact).
  rewrite Hrun in Hact. inversion Hact as [Hg']. clear Hact.
  destruct (applyMove_sound g row col now g1 Hsound Hgo Hrun1)
    as (Hbd & Hflags1 & Hhid1 & Hover1).
  rewrite <- Hg'. split; [exact Hcons'|]. rewrite Hg'. clear Hg' Hcons' Hrun.
  destruct (gameOver g1) eqn:Hgo1.
  - destruct (Hover1 eq_refl) as (Het & Hwon & Hshown & _).
    split; [exact Hflags1|]. split; [intros E; congruence|].
    intros _. split; [by rewrite Het|]. split; [congruence|done].
  - destruct (decide (wins g1)) as [Hw|Hw].
    + split; [exact Hflags1|]. split; [discriminate|].
      intros _. simpl. split; [done|]. split; [|discriminate].
      intros _. by apply (wins_ext g1 (win_game g1 now)).
    + split; [exact Hflags1|]. split; [intros _; by apply Hhid1|].
      intros E. congruence.
Qed.

Lemma createNewGame_sound samples now g :
  Forall sample_ok samples -> createNewGame samples now = Ret g -> sound g.
Proof.
  intros Hs Hrun.
  pose proof (createNewGame_consistent samples now g Hs Hrun) as Hcons.
  split; [exact Hcons|].
  unfold createNewGame in Hrun.
  apply bind_Ret in Hrun as (b1 & _ & Hrun).
  apply bind_Ret in Hrun as (b2 & _ & Hrun).
  inversion Hrun; subst g; clear Hrun.
  unfold flags_on_mines, mines_hidden. simpl. split_and!.
  - intros r c Hflag.
    rewrite cell_newGrid in Hflag
      by exact (cell_Some_valid _ _ _ _ (newGrid_wf false) Hflag).
    discriminate.
  - intros _ r c Hmine. apply cell_newGrid.
    exact (cell_Some_valid _ _ _ _ (proj1 (proj1 Hcons)) Hmine).
  - discriminate.
Qed.

Lemma reachable_sound g : reachable g -> sound g.
Proof.
  induction 1 as [samples now g Hs Hrun | g row col now g' _ IH Hgo Hrun].
  - by eapply createNewGame_sound.
  - by eapply cellAction_sound.
Qed.

(** X5.  In every reachable game every flag is on a mine: the flags are
    set by [autoFlag] alone, and in play from a new game [autoFlag] never
    flags a cell that is not a mine. *)
Theorem reachable_flags_on_mines g r c :
  reachable g ->
  cell (flags g) r c = Some true -> cell (board g) r c = Some (-1).
Proof. intros Hreach. apply (reachable_sound g Hreach). Qed.

(** X6.  In a reachable game in progress no mine is revealed: the mines
    are disclosed by the loss transition only. *)
Theorem reachable_mines_hidden g r c :
  reachable g -> gameOver g = false ->
  cell (board g) r c = Some (-1) -> cell (mask g) r c = Some false.
Proof.
  intros Hreach Hgo.
  destruct (reachable_sound g Hreach) as (_ & _ & Hhid & _). by apply Hhid.
Qed.

(** X7.  A reachable game is lost in one way only: by a direct click on a
    hidden unflagged mine.  A chord click never loses it, since with right
    flags the chord finds no mine among the neighbours it opens. *)
Theorem reachable_lost_only_by_mine_click g row col now g' :
  reachable g -> gameOver g = false ->
  cellAction g row col now = Ret g' ->
  gameOver g' = true -> won g' = false ->
  cell (board g) row col = Some (-1) /\
  cell (mask g) row col = Some false /\
  cell (flags g) row col = Some false /\
  moves g' = moves g + 1 /\ endTime g' = Some now /\ mines_shown g'.
Proof.
  intros Hreach Hgo Hrun Hgo' Hwon'.
  pose proof (reachable_sound g Hreach) as Hsound.
  pose proof Hsound as ((Hwf & _) & _).
  destruct (decide (0 ≤ row < ROWS)) as [Hrow|Hrow].
  2:{ rewrite cellAction_no_row in Hrun by assumption. discriminate. }
  destruct (cellAction_spec g row col now Hwf Hrow)
    as (g1 & Hrun1 & _ & Hact).
  rewrite Hrun in Hact. inversion Hact as [Hg']. clear Hact.
  destruct (applyMove_sound g row col now g1 Hsound Hgo Hrun1)
    as (_ & _ & _ & Hover1).
  destruct (gameOver g1) eqn:Hgo1.
  2:{ destruct (decide (wins g1)); subst g'; simpl in *; congruence. }
  subst g'. destruct (Hover1 eq_refl) as (Het & _ & Hshown & Hb & Hm & Hf).
  split_and!; try done.
  rewrite applyMove_direct in Hrun1; [|assumption..|].
  2:{ intros Hmask. congruence. }
  rewrite Hf, Hb in Hrun1. cbn [truthy is_mine is_num Z.eqb] in Hrun1.
  destruct (mineHit_move (inc_moves g) now Hwf)
    as (g2 & Hrun2 & _ & _ & Hmv & _).
  rewrite Hrun2 in Hrun1. inversion Hrun1; subst g2. exact Hmv.
Qed.

(** X8.  In a reachable game that is won the flags are exactly the mines:
    every flag is on a mine and every mine carries a flag. *)
Theorem reachable_won_flags_are_mines g r c :
  reachable g -> won g = true ->
  (cell (flags g) r c = Some true <-> cell (board g) r c = Some (-1)).
Proof.
  intros Hreach Hwon.
  destruct (reachable_sound g Hreach)
    as ((Hwf & _ & Hcount & Hprog) & Hflags & _ & Hover).
  destruct (gameOver g) eqn:Hgo.
  2:{ destruct (Hprog eq_refl) as (E & _). congruence. }
  destruct (Hover eq_refl) as (_ & Hwins & _).
  destruct (Hwins Hwon) as [_ Htotal].
  split; [apply Hflags|]. intros Hmine.
  apply (filter_length_subset_eq (flaggedAt (flags g)) (mineAt (board g))
           cells (fun p _ => Hflags p.1 p.2)) with (x := (r, c)).
  - unfold totalFlags in Htotal. unfold countMines in Hcount. lia.
  - apply elem_of_cells.
    exact (cell_Some_valid _ _ _ _ (proj1 Hwf) Hmine).
  - exact Hmine.
Qed.

(** X9.  In a reachable game [endTime] is set exactly when the game is
    over, and a game that is won is over; so the [endTime!] that
    [generateGameBoard] reads for a game that is over is defined. *)
Theorem reachable_endTime_iff_over g :
  reachable g ->
  (gameOver g = true <-> is_Some (endTime g)) /\
  (won g = true -> gameOver g = true).
Proof.
  intros Hreach.
  destruct (reachable_sound g Hreach) as ((_ & _ & _ & Hprog) & _ & _ & Hover).
  destruct (gameOver g) eqn:Hgo.
  - destruct (Hover eq_refl) as (Het & _). by split.
  - destruct (Hprog eq_refl) as (Hwon & Het & _). rewrite Het, Hwon.
    split; [|discriminate]. split; [discriminate|]. by intros [x Hx].
Qed.

(** ** The transitions of a cell action *)

(** X10.  A direct click on an unflagged mine ends the game at once,
    whatever the state of the game and on the first move as on any other:
    [gameOver] is set, [endTime] is the time of the click, the move is
    counted, every mine is revealed, and the board, the flags, [won] and
    the rest of the mask are as before. *)
Theorem click_on_mine_loses g row col now :
  wf_game g ->
  cell (flags g) row col = Some false -> cell (board g) row col = Some (-1) ->
  exists g',
    cellAction g row col now = Ret g' /\
    gameOver g' = true /\ endTime g' = Some now /\
    moves g' = moves g + 1 /\ won g' = won g /\
    board g' = board g /\ flags g' = flags g /\
    forall r c,
      cell (mask g') r c =
      if decide (cell (board g) r c = Some (-1))
      then Some true else cell (mask g) r c.
Proof.
  intros Hwf Hflag Hmine.
  assert (isValidPosition row col = true) as Hv
    by exact (cell_Some_valid _ _ _ _ (proj1 Hwf) Hmine).
  apply isValidPosition_spec in Hv as [Hrow _].
  unfold cellAction. rewrite applyMove_direct; [|assumption..|].
  2:{ intros _. by rewrite Hmine. }
  rewrite Hflag, Hmine. cbn [truthy is_mine is_num Z.eqb Pos.eqb].
  destruct (mineHit_spec (inc_moves g) now Hwf)
    as (g1 & Hrun & Hwf1 & Hbd & Hfl & Hgo & Hwon & Hst & Hmv & Het & Hcells).
  rewrite Hrun. cbn [mbind res_bind].
  rewrite checkWin_spec by exact Hwf1. rewrite Hgo.
  exists g1. split_and!; try done.
Qed.

(** X11.  In a reachable game in progress a click on a flagged cell does
    nothing at all: the game is stored back as it is, the move is not
    counted. *)
Theorem click_on_flag_is_ignored g row col now :
  reachable g -> gameOver g = false ->
  cell (flags g) row col = Some true ->
  cellAction g row col now = Ret g.
Proof.
  intros Hreach Hgo Hflag.
  destruct (reachable_consistent g Hreach) as (Hwf & _ & _ & Hprog).
  destruct (Hprog Hgo) as (_ & _ & Hnowin & Htidy).
  assert (isValidPosition row col = true) as Hv
    by exact (cell_Some_valid _ _ _ _ (proj2 (proj2 Hwf)) Hflag).
  apply isValidPosition_spec in Hv as [Hrow _].
  unfold cellAction. rewrite applyMove_direct; [|assumption..|].
  2:{ intros Hmask. rewrite (Htidy row col Hmask) in Hflag. discriminate. }
  rewrite Hflag. cbn [truthy mbind res_bind].
  rewrite checkWin_spec by exact Hwf. rewrite Hgo.
  by rewrite decide_False.
Qed.

(** What a move keeps and counts, on any well-formed game. *)
Lemma applyMove_frame g row col now g1 :
  wf_game g -> applyMove g row col now = Ret g1 ->
  board g1 = board g /\ startTime g1 = startTime g /\ won g1 = won g /\
  flags_grow g g1 /\ moves g ≤ moves g1 ≤ moves g + 1.
Proof.
  intros Hwf Hrun.
  destruct (decide (0 ≤ row < ROWS)) as [Hrow|Hrow].
  2:{ rewrite applyMove_no_row in Hrun by assumption. discriminate. }
  assert (forall g2, board g2 = board g -> startTime g2 = startTime g ->
            won g2 = won g -> flags g2 = flags g ->
            moves g ≤ moves g2 ≤ moves g + 1 ->
            board g2 = board g /\ startTime g2 = startTime g /\
            won g2 = won g /\ flags_grow g g2 /\
            moves g ≤ moves g2 ≤ moves g + 1) as Hkeep.
  { intros g2 ? ? ? Hf ?. split_and!; try done; try lia.
    intros r c. by rewrite Hf. }
  destruct (decide (cell (mask g) row col = Some true /\
                    gt0 (cell (board g) row col) = true)) as [[Hmask Hgt]|Hno].
  - destruct (cell (board g) row col) as [v|] eqn:Hval; [|discriminate].
    simpl in Hgt. apply Z.ltb_lt in Hgt.
    rewrite (applyMove_chord g row col now v) in Hrun by assumption.
    destruct (decide (flagCount g row col = v)) as [Hfc|Hfc].
    + destruct (bool_decide _).
      * destruct (mineHit_spec g now Hwf)
          as (g2 & Hrun2 & _ & Hbd & Hfl & _ & Hwon & Hst & Hmv & _).
        rewrite Hrun2 in Hrun. inversion Hrun; subst g2.
        apply Hkeep; try done. lia.
      * destruct (revealAll_spec (hiddenNeighbours g row col) g Hwf)
          as (g2 & Hrun2 & _ & (Hbd & Hfl & (_ & Hwon & Hst & Hmv & _) & _) & _).
        rewrite Hrun2 in Hrun. cbn [mbind res_bind] in Hrun.
        destruct (0 <? _); inversion Hrun; subst g1;
          apply Hkeep; simpl; try done; lia.
    + rewrite (autoFlag_numbered g row col v) in Hrun by assumption.
      destruct (decide (autoFlag_fires g row col v)) as [Hfire|Hnf].
      2:{ inversion Hrun; subst g1. apply Hkeep; try done. lia. }
      destruct (flagAll_spec (hiddenNeighbours g row col) g
                  (hiddenNeighbours_valid g row col) Hwf)
        as (g2 & Hrun2 & _ & Hbd & _ & (_ & Hwon & Hst & Hmv & _) & Hcells).
      rewrite Hrun2 in Hrun. cbn [mbind res_bind] in Hrun.
      inversion Hrun; subst g1. simpl. split_and!; try done; try lia.
      intros r c Hflag. simpl. rewrite Hcells.
      by destruct (decide _).
  - rewrite applyMove_direct in Hrun; [|assumption..|].
    2:{ intros Hmask. destruct (gt0 _) eqn:E; [|reflexivity]. tauto. }
    destruct (truthy (cell (flags g) row col)).
    { inversion Hrun; subst g1. apply Hkeep; try done. lia. }
    destruct (is_mine (cell (board g) row col)).
    + destruct (mineHit_spec (inc_moves g) now Hwf)
        as (g2 & Hrun2 & _ & Hbd & Hfl & _ & Hwon & Hst & Hmv & _).
      rewrite Hrun2 in Hrun. inversion Hrun; subst g2.
      apply Hkeep; try done. simpl in Hmv. lia.
    + destruct (revealEmpty_cascade (inc_moves g) row col MAX_REVEALS Hwf)
        as (g2 & b2 & Hrun2 & _ & (Hbd & Hfl & (_ & Hwon & Hst & Hmv & _) & _) & _).
      rewrite Hrun2 in Hrun. cbn [mbind res_bind] in Hrun.
      inversion Hrun; subst g2. apply Hkeep; try done. simpl in Hmv. lia.
Qed.

(** X12.  A cell action never changes the board or the start time, never
    removes a flag, never takes back a win, and counts at most one move. *)
Theorem cell_action_frame g row col now g' :
  wf_game g -> cellAction g row col now = Ret g' ->
  board g' = board g /\ startTime g' = startTime g /\
  flags_grow g g' /\ (won g = true -> won g' = true) /\
  moves g ≤ moves g' ≤ moves g + 1.
Proof.
  intros Hwf Hrun.
  destruct (decide (0 ≤ row < ROWS)) as [Hrow|Hrow].
  2:{ rewrite cellAction_no_row in Hrun by assumption. discriminate. }
  destruct (cellAction_spec g row col now Hwf Hrow) as (g1 & Hrun1 & _ & Hact).
  rewrite Hrun in Hact. inversion Hact as [Hg']. clear Hact.
  destruct (applyMove_frame g row col now g1 Hwf Hrun1)
    as (Hbd & Hst & Hwon & Hfl & Hmv).
  destruct (gameOver g1);
    [split_and!; try done; try lia; intros; congruence|].
  destruct (decide (wins g1)); simpl; split_and!; try done; try lia;
    intros; congruence.
Qed.

(** X13.  In a reachable game in progress, a chord click on a revealed
    number that has all its flags and no hidden unflagged neighbour left
    changes nothing and is not counted as a move. *)
Theorem chord_with_nothing_to_open g row col now v :
  reachable g -> gameOver g = false ->
  cell (mask g) row col = Some true -> cell (board g) row col = Some v ->
  0 < v -> flagCount g row col = v -> hiddenNeighbours g row col = [] ->
  cellAction g row col now = Ret g.
Proof.
  intros Hreach Hgo Hmask Hval Hpos Hfc Hnone.
  destruct (reachable_consistent g Hreach) as (Hwf & _ & _ & Hprog).
  destruct (Hprog Hgo) as (_ & _ & Hnowin & _).
  unfold cellAction.
  rewrite (applyMove_chord g row col now v) by assumption.
  rewrite decide_True by assumption. rewrite Hnone.
  rewrite bool_decide_eq_false_2 by (by intros ?%Exists_nil).
  cbn [revealAll forEach mbind res_bind length].
  change (0 <? Z.of_nat 0) with false. cbv iota.
  rewrite checkWin_spec by exact Hwf. rewrite Hgo.
  by rewrite decide_False.
Qed.

(** The text of a game decodes to the game. *)
Lemma decode_encoded g j : encode g = Some j -> decode j = Ret g.
Proof.
  intros Henc. destruct g as [bd mk fl go wn st mv et].
  destruct (grid_round_trip VNum JNum asNum bd) as (jb & Hsb & Hpb);
    try done.
  destruct (grid_round_trip VBool JBool asBool mk) as (jm & Hsm & Hpm);
    try done.
  destruct (grid_round_trip VBool JBool asBool fl) as (jf & Hsf & Hpf);
    try done.
  unfold encode, decode, toJS in *.
  cbn [board mask flags gameOver won startTime moves endTime] in *.
  cbn [stringify_value] in Henc. rewrite Hsb, Hsm, Hsf in Henc.
  destruct et as [t|]; cbn [stringify_value] in Henc;
    inversion Henc; subst j; cbn [parse_value]; unfold asGame;
    cbn [getProp lookupProp String.eqb Ascii.eqb Bool.eqb mbind res_bind];
    rewrite Hpb, Hpm, Hpf; reflexivity.
Qed.

Lemma encode_is_Some g : is_Some (encode g).
Proof. by destruct g as [bd mk fl go wn st mv []]. Qed.

(** X14.  A click whose row is outside the grid throws: [game.mask[row]]
    is [undefined] and reading its column is a [TypeError], before
    anything is written.  Through the handler the request stops and the
    stored value is not replaced. *)
Theorem click_outside_rows_throws g row col now j :
  wf_game g -> gameOver g = false -> ¬ (0 ≤ row < ROWS) ->
  encode g = Some j ->
  cellAction g row col now = Stop TypeError /\
  handleCallback (Some j) row col now = Stop TypeError.
Proof.
  intros Hwf Hgo Hrow Henc.
  pose proof (cellAction_no_row g row col now Hwf Hrow) as Hact.
  split; [exact Hact|].
  unfold handleCallback.
  rewrite (decode_encoded g j Henc).
  cbn [mbind res_bind]. rewrite Hgo. rewrite Hact. reflexivity.
Qed.

(** ** More about board generation *)

Lemma mineAt_put_mine board row col p :
  wf_grid board -> isValidPosition row col = true ->
  mineAt (put board row col (-1)) p <-> mineAt board p \/ p = (row, col).
Proof.
  intros Hwf Hv. destruct p as [r c]. unfold mineAt. simpl.
  rewrite cell_put by assumption.
  destruct (decide ((row, col) = (r, c))) as [E|E].
  - split; [intros _; right; congruence | done].
  - split; [by left | intros [?|?]; congruence].
Qed.

(** Once [MINES] mines are placed the loop reads no sample. *)
Lemma placeMines_done samples board k :
  MINES ≤ k -> placeMines samples board k = Ret board.
Proof.
  intros Hk. assert ((k <? MINES) = false) as E by (apply Z.ltb_ge; lia).
  destruct samples as [|[row col] samples]; cbn [placeMines]; by rewrite E.
Qed.

(** The samples that the loop consumes: a prefix [used] of the samples whose
    cells are the new mines, after which nothing is read, and no shorter
    prefix of which is enough. *)
Lemma placeMines_uses_prefix samples : forall board k board',
  Forall sample_ok samples -> wf_grid board ->
  placeMines samples board k = Ret board' ->
  exists used rest,
    samples = used ++ rest /\
    (forall p, mineAt board' p <-> mineAt board p \/ p ∈ used) /\
    (forall rest', placeMines (used ++ rest') board k = Ret board') /\
    (forall shorter tail, used = shorter ++ tail -> tail <> [] ->
       placeMines shorter board k = Stop OutOfFuel).
Proof.
  induction samples as [|[row col] samples IH];
    intros board k board' Hs Hwf Hrun; cbn [placeMines] in Hrun.
  - destruct (k <? MINES) eqn:Hk; [discriminate|]. inversion Hrun; subst board'.
    apply Z.ltb_ge in Hk.
    exists [], []. split_and!; [reflexivity| | |].
    + intros p. rewrite elem_of_nil. tauto.
    + intros rest'. by apply placeMines_done.
    + intros shorter tail E Htail. symmetry in E.
      apply app_eq_nil in E as [_ ->]. contradiction.
  - destruct (k <? MINES) eqn:Hk.
    2:{ inversion Hrun; subst board'. apply Z.ltb_ge in Hk.
        exists [], ((row, col) :: samples). split_and!; [reflexivity| | |].
        - intros p. rewrite elem_of_nil. tauto.
        - intros rest'. by apply placeMines_done.
        - intros shorter tail E Htail. symmetry in E.
          apply app_eq_nil in E as [_ ->]. contradiction. }
    apply Forall_cons in Hs as [Hv Hs]. unfold sample_ok in Hv; simpl in Hv.
    rewrite rd_valid in Hrun by assumption. cbn [mbind res_bind] in Hrun.
    destruct (is_mine (cell board row col)) eqn:Hm; cbn [negb] in Hrun.
    + pose proof Hm as Hmine%is_mine_true.
      destruct (IH board k board' Hs Hwf Hrun)
        as (used & rest & -> & Hmines & Hrest & Hshort).
      exists ((row, col) :: used), rest. split_and!; [reflexivity| | |].
      * intros p. rewrite Hmines, elem_of_cons. split; [tauto|].
        intros [?|[->|?]]; tauto.
      * intros rest'. rewrite <- app_comm_cons. cbn [placeMines].
        rewrite Hk, rd_valid by assumption. cbn [mbind res_bind].
        rewrite Hm. cbn [negb]. apply Hrest.
      * intros [|q shorter] tail E Htail.
        -- cbn [placeMines]. by rewrite Hk.
        -- rewrite <- app_comm_cons in E. inversion E; subst q used.
           cbn [placeMines].
           rewrite Hk, rd_valid by assumption. cbn [mbind res_bind].
           rewrite Hm. cbn [negb]. by apply (Hshort shorter tail).
    + rewrite wr_valid in Hrun by assumption. cbn [mbind res_bind] in Hrun.
      destruct (IH (put board row col (-1)) (k + 1) board' Hs
                  (put_wf _ _ _ _ Hwf) Hrun)
        as (used & rest & -> & Hmines & Hrest & Hshort).
      exists ((row, col) :: used), rest. split_and!; [reflexivity| | |].
      * intros p.
        rewrite Hmines, mineAt_put_mine, elem_of_cons by assumption. tauto.
      * intros rest'. rewrite <- app_comm_cons. cbn [placeMines].
        rewrite Hk, rd_valid by assumption. cbn [mbind res_bind].
        rewrite Hm. cbn [negb].
        rewrite wr_valid by assumption. cbn [mbind res_bind]. apply Hrest.
      * intros [|q shorter] tail E Htail.
        -- cbn [placeMines]. by rewrite Hk.
        -- rewrite <- app_comm_cons in E. inversion E; subst q used.
           cbn [placeMines].
           rewrite Hk, rd_valid by assumption. cbn [mbind res_bind].
           rewrite Hm. cbn [negb].
           rewrite wr_valid by assumption. cbn [mbind res_bind].
           by apply (Hshort shorter tail).
Qed.

(** X15.  Board generation returns as soon as the random samples have
    covered the grid: the rejection loop cannot go on for ever on samples
    that reach every cell. *)
Theorem generation_returns_on_covering_samples samples now :
  Forall sample_ok samples -> (forall p, p ∈ cells -> p ∈ samples) ->
  exists game,
    createNewGame samples now = Ret game /\ countMines (board game) = MINES.
Proof.
  intros Hs Hcover.
  destruct (createNewGame_returns samples now Hs Hcover) as (game & Hrun).
  exists game. split; [exact Hrun|].
  apply (createNewGame_consistent samples now game Hs Hrun).
Qed.

(** X16.  The mines of a new game are the cells of the samples that the
    loop consumed.  These are a prefix [used] of the samples, fixed by two
    facts: the samples after it are not read, since whatever follows [used]
    the same game is returned; and each of its samples is read, since on
    every shorter prefix the loop is left asking for a sample.  A sample
    that repeats a mine is consumed and places nothing. *)
Theorem generated_mines_are_the_samples_used samples now game :
  Forall sample_ok samples ->
  createNewGame samples now = Ret game ->
  exists used rest,
    samples = used ++ rest /\
    (forall r c, cell (board game) r c = Some (-1) <-> (r, c) ∈ used) /\
    (forall rest', createNewGame (used ++ rest') now = Ret game) /\
    (forall shorter tail, used = shorter ++ tail -> tail <> [] ->
       createNewGame shorter now = Stop OutOfFuel).
Proof.
  intros Hs Hrun. unfold createNewGame in Hrun.
  apply bind_Ret in Hrun as (b1 & Hplace & Hrun).
  apply bind_Ret in Hrun as (b2 & Hcalc & Hrun).
  inversion Hrun; subst game; clear Hrun. simpl.
  destruct (placeMines_uses_prefix samples (newGrid 0) 0 b1 Hs (newGrid_wf 0)
              Hplace) as (used & rest & Hsplit & Hmines & Hrest & Hshort).
  destruct (placeMines_spec samples (newGrid 0) 0 b1 Hs (newGrid_wf 0)
              countMines_newGrid ltac:(unfold MINES; lia) Hplace) as [Hwf1 _].
  destruct (calculateNumbers_spec b1 Hwf1) as (b2' & Hcalc' & Hwf2 & Hsame & _).
  rewrite Hcalc in Hcalc'. inversion Hcalc'; subst b2'; clear Hcalc'.
  exists used, rest. split_and!; [exact Hsplit| | |].
  - intros r c.
    change (cell b2 r c = Some (-1)) with (mineAt b2 (r, c)).
    rewrite Hsame, Hmines. split; [|by right].
    intros [Hm|Hin]; [|exact Hin]. unfold mineAt in Hm. simpl in Hm.
    rewrite cell_newGrid in Hm
      by exact (cell_Some_valid _ _ _ _ (newGrid_wf 0) Hm).
    discriminate.
  - intros rest'. unfold createNewGame.
    rewrite Hrest. cbn [mbind res_bind]. rewrite Hcalc. reflexivity.
  - intros shorter tail E Htail. unfold createNewGame.
    by rewrite (Hshort shorter tail E Htail).
Qed.

Lemma adjacentMines_le_8 board row col : adjacentMines board row col ≤ 8.
Proof.
  unfold adjacentMines, neighbours.
  pose proof (length_filter (mineAt board)
                (filter (fun p : Z * Z => isValidPosition p.1 p.2 = true)
                   ((fun d : Z * Z => (row + d.1, col + d.2)) <$> DIRECTIONS))).
  pose proof (length_filter (fun p : Z * Z => isValidPosition p.1 p.2 = true)
                ((fun d : Z * Z => (row + d.1, col + d.2)) <$> DIRECTIONS)).
  rewrite length_fmap in *. change (length DIRECTIONS) with 8%nat in *. lia.
Qed.

(** X17.  [calculateNumbers] can be run again without harm: it returns on
    every grid of the configured shape, keeps the mines where they are,
    overwrites whatever the other cells held with a number from 0 to 8,
    and a second run changes nothing. *)
Theorem calculateNumbers_idempotent board :
  wf_grid board ->
  exists b1,
    calculateNumbers board = Ret b1 /\ calculateNumbers b1 = Ret b1 /\
    (forall r c, cell b1 r c = Some (-1) <-> cell board r c = Some (-1)) /\
    forall r c, isValidPosition r c = true ->
      exists v, cell b1 r c = Some v /\ -1 ≤ v ≤ 8.
Proof.
  intros Hwf.
  destruct (calculateNumbers_spec board Hwf) as (b1 & Hrun & Hwf1 & Hsame & Hnum).
  destruct (calculateNumbers_spec b1 Hwf1) as (b2 & Hrun2 & Hwf2 & Hsame2 & Hnum2).
  exists b1. split; [exact Hrun|]. split_and!.
  - rewrite Hrun2. f_equal. apply grid_ext; try done.
    intros r c Hv.
    destruct (decide (mineAt b1 (r, c))) as [Hm|Hm].
    + pose proof (proj2 (Hsame2 (r, c)) Hm) as Hm2.
      unfold mineAt in Hm, Hm2. simpl in *. congruence.
    + rewrite (Hnum2 r c Hv Hm).
      rewrite (adjacentMines_ext b1 board) by exact Hsame.
      symmetry. apply Hnum; [exact Hv|]. by rewrite <- (Hsame (r, c)).
  - intros r c. apply (Hsame (r, c)).
  - intros r c Hv.
    destruct (decide (mineAt board (r, c))) as [Hm|Hm].
    + apply (Hsame (r, c)) in Hm. unfold mineAt in Hm. simpl in Hm.
      exists (-1). split; [exact Hm|lia].
    + exists (adjacentMines board r c). split; [by apply Hnum|].
      pose proof (adjacentMines_nonneg board r c).
      pose proof (adjacentMines_le_8 board r c). lia.
Qed.

(** ** The stored value *)

(** X18.  Whatever the update, [handleRequest] keeps the stored value of a
    chat either absent or the text of a reachable game in progress: a game
    that ends is deleted in the request that ends it, and a finished game
    is never stored. *)
Theorem handleRequest_keeps_store u samples now stored stored' :
  Forall sample_ok samples -> store_ok stored ->
  handleRequest u samples now stored = Ret stored' ->
  store_ok stored'.
Proof.
  intros Hs Hok Hrun. destruct u as [|row col|]; cbn [handleRequest] in Hrun.
  - apply bind_Ret in Hrun as (g & Hnew & Hrun). inversion Hrun; subst stored'.
    right. exists g. split_and!; try done.
    + by apply (reach_new samples now).
    + unfold createNewGame in Hnew.
      apply bind_Ret in Hnew as (b1 & _ & Hnew).
      apply bind_Ret in Hnew as (b2 & _ & Hnew).
      by inversion Hnew.
  - destruct Hok as [->|(g & Hreach & Hgo & ->)].
    { inversion Hrun. by left. }
    unfold handleCallback in Hrun.
    destruct (encode_is_Some g) as [j Hj]. rewrite Hj in Hrun.
    rewrite (decode_encoded g j Hj) in Hrun. cbn [mbind res_bind] in Hrun.
    rewrite Hgo in Hrun.
    apply bind_Ret in Hrun as (g' & Hact & Hrun). inversion Hrun; subst stored'.
    destruct (gameOver g') eqn:Hgo'; [by left|].
    right. exists g'. split_and!; try done.
    by apply (reach_move g row col now).
  - inversion Hrun; by subst.
Qed.

(** ** The data of the buttons *)

Lemma digit_pretty_N_char (d : N) :
  (d < 10)%N -> digit (pretty_N_char d) = Some d.
Proof.
  intros Hd.
  assert (d = 0 \/ d = 1 \/ d = 2 \/ d = 3 \/ d = 4 \/ d = 5 \/ d = 6 \/
          d = 7 \/ d = 8 \/ d = 9)%N as Hcases by lia.
  repeat (destruct Hcases as [->|Hcases]; [reflexivity|]). by subst d.
Qed.

(** A digit is none of the characters that [numberOf] and [split] look
    for. *)
Lemma digit_plain (c : ascii) (d : N) :
  digit c = Some d ->
  Ascii.eqb c "_" = false /\ c <> "-"%char /\ c <> "+"%char.
Proof.
  destruct c as [[] [] [] [] [] [] [] []]; intros Hd; vm_compute in Hd;
    try discriminate Hd; split_and!; (reflexivity || discriminate).
Qed.

Lemma decimal_pretty_N_go (x : N) : forall s v,
  decimal s = Some v ->
  decimal (pretty_N_go x s) =
  Some (x * 10 ^ N.of_nat (String.length s) + v)%N.
Proof.
  induction (N.lt_wf_0 x) as [x _ IH]; intros s v Hs.
  destruct (decide (x = 0)%N) as [->|Hx].
  - rewrite pretty_N_go_0, Hs. f_equal; lia.
  - rewrite pretty_N_go_step by lia.
    rewrite (IH (x `div` 10)%N) with
      (v := ((x `mod` 10) * 10 ^ N.of_nat (String.length s) + v)%N).
    + f_equal. cbn [String.length].
      rewrite Nat2N.inj_succ, N.pow_succ_r'.
      pose proof (N.div_mod x 10 ltac:(lia)) as Hdm.
      set (q := (x `div` 10)%N) in *. set (r := (x `mod` 10)%N) in *.
      set (p := (10 ^ N.of_nat (String.length s))%N). nia.
    + apply N.div_lt; lia.
    + cbn [decimal]. rewrite digit_pretty_N_char by (apply N.mod_lt; lia).
      cbn [mbind option_bind]. rewrite Hs. reflexivity.
Qed.

Lemma pretty_N_go_nonempty (x : N) : forall s,
  s <> EmptyString -> pretty_N_go x s <> EmptyString.
Proof.
  induction (N.lt_wf_0 x) as [x _ IH]; intros s Hs.
  destruct (decide (x = 0)%N) as [->|Hx].
  - by rewrite pretty_N_go_0.
  - rewrite pretty_N_go_step by lia. apply IH; [apply N.div_lt; lia|done].
Qed.

Lemma pretty_N_digits (x : N) :
  pretty x <> EmptyString /\ decimal (pretty x) = Some x.
Proof.
  unfold pretty, pretty_N. destruct (decide (x = 0)%N) as [->|Hx].
  - split; [discriminate|reflexivity].
  - split.
    + rewrite pretty_N_go_step by lia. by apply pretty_N_go_nonempty.
    + rewrite (decimal_pretty_N_go x "" 0%N) by reflexivity.
      f_equal. cbn [String.length N.of_nat]. lia.
Qed.

Lemma numberOf_digits (s : string) (v : N) :
  s <> EmptyString -> decimal s = Some v -> (v < 2 ^ 53)%N ->
  numberOf s = Some (Z.of_N v).
Proof.
  intros Hne Hdec Hsafe. destruct s as [|c s]; [done|].
  assert (exists d, digit c = Some d) as [d Hd].
  { cbn [decimal] in Hdec. destruct (digit c); [eauto|discriminate]. }
  destruct (digit_plain c d Hd) as (_ & Hminus & Hplus).
  assert (numberOf (String c s) = digitsValue (String c s)) as ->.
  { unfold numberOf.
    destruct c as [[] [] [] [] [] [] [] []]; try reflexivity; congruence. }
  unfold digitsValue. rewrite Hdec. cbn [mbind option_bind].
  by rewrite (proj2 (N.ltb_lt _ _) Hsafe).
Qed.

(** [Number] reads back the decimal text of an integer between [-2^53] and
    [2^53]. *)
Lemma numberOf_pretty (n : Z) :
  - 2 ^ 53 < n < 2 ^ 53 -> numberOf (pretty n) = Some n.
Proof.
  change (2 ^ 53) with 9007199254740992. intros Hn.
  destruct n as [|p|p]; unfold pretty, pretty_Z.
  - reflexivity.
  - destruct (pretty_N_digits (N.pos p)) as [Hne Hdec].
    apply (numberOf_digits _ _ Hne Hdec).
    change (2 ^ 53)%N with 9007199254740992%N. lia.
  - destruct (pretty_N_digits (N.pos p)) as [Hne Hdec].
    change (numberOf (String "-" (pretty (N.pos p))) = Some (Z.neg p)).
    cbn [numberOf]. unfold digitsValue.
    destruct (pretty (N.pos p)) as [|c s] eqn:E; [done|].
    rewrite Hdec. cbn [mbind option_bind].
    assert (N.pos p < 2 ^ 53)%N as Hsafe
      by (change (2 ^ 53)%N with 9007199254740992%N; lia).
    by rewrite (proj2 (N.ltb_lt _ _) Hsafe).
Qed.

Lemma split_digits (s : string) (v : N) :
  decimal s = Some v -> split "_" s = [s].
Proof.
  revert v. induction s as [|c s IH]; intros v Hdec; [reflexivity|].
  cbn [decimal] in Hdec.
  destruct (digit c) as [d|] eqn:Hd; [|discriminate].
  cbn [mbind option_bind] in Hdec.
  destruct (decimal s) as [w|] eqn:Hs; [|discriminate].
  cbn [split]. destruct (digit_plain c d Hd) as (-> & _).
  by rewrite (IH w).
Qed.

Lemma split_pretty (n : Z) : split "_" (pretty n) = [pretty n].
Proof.
  destruct n as [|p|p]; unfold pretty, pretty_Z.
  - reflexivity.
  - destruct (pretty_N_digits (N.pos p)) as [_ Hdec].
    exact (split_digits _ _ Hdec).
  - destruct (pretty_N_digits (N.pos p)) as [_ Hdec].
    change (split "_" (String "-" (pretty (N.pos p))) =
            [String "-" (pretty (N.pos p))]).
    cbn [split Ascii.eqb Bool.eqb]. by rewrite (split_digits _ _ Hdec).
Qed.

Lemma split_app_sep (a b : string) :
  split "_" a = [a] -> split "_" (a +:+ String "_" b) = a :: split "_" b.
Proof.
  induction a as [|c a IH]; intros Ha.
  - reflexivity.
  - change (String c a +:+ String "_" b)
      with (String c (a +:+ String "_" b)).
    cbn [split] in *.
    destruct (Ascii.eqb c "_"); [discriminate|].
    destruct (split "_" a) as [|piece pieces] eqn:E.
    + inversion Ha; subst a. discriminate E.
    + inversion Ha; subst piece pieces.
      rewrite IH by reflexivity. reflexivity.
Qed.

(** X19.  The data of a button is read back by the handler as the
    coordinates it was made from: for integers [row] and [col] between
    [-2^53] and [2^53], where the template literal writes plain decimal and
    [Number] reads it exactly, the text [c_<row>_<col>] starts with [c_],
    splits at its underscores into three parts, and [Number] of the last
    two is [row] and [col]. *)
Theorem parseCallback_cellData (row col : Z) :
  - 2 ^ 53 < row < 2 ^ 53 -> - 2 ^ 53 < col < 2 ^ 53 ->
  parseCallback (cellData row col) = Cell row col.
Proof.
  intros Hrow Hcol. unfold parseCallback, cellData.
  change ("c_" +:+ pretty row +:+ "_" +:+ pretty col)
    with (String "c" (String "_" (pretty row +:+ String "_" (pretty col)))).
  cbn [String.prefix Ascii.eqb Bool.eqb].
  assert (String.prefix "" (pretty row +:+ String "_" (pretty col)) = true)
    as -> by (by destruct (pretty row +:+ String "_" (pretty col))).
  cbn [split Ascii.eqb Bool.eqb].
  rewrite (split_app_sep (pretty row) (pretty col) (split_pretty row)).
  rewrite split_pretty.
  rewrite (numberOf_pretty row Hrow), (numberOf_pretty col Hcol).
  reflexivity.
Qed.

(** ** The keyboard *)

(** A loop that pushes one element per iteration. *)
Lemma forEach_collect {A B C : Type} (f : A -> res B) (h : A -> B -> C)
  (l : list A) :
  (forall x, x ∈ l -> exists y, f x = Ret y) ->
  forall acc, exists ys,
    forEach (fun acc x => y ← f x; Ret (acc ++ [h x y])) acc l
    = Ret (acc ++ ys) /\
    length ys = length l /\
    forall (i : nat) x, l !! i = Some x ->
      exists y, ys !! i = Some (h x y) /\ f x = Ret y.
Proof.
  induction l as [|x l IH]; intros Hf acc.
  - exists []. rewrite app_nil_r. split_and!; [reflexivity..|].
    intros i x Hx. by rewrite lookup_nil in Hx.
  - destruct (Hf x) as [y Hy]; [left|].
    destruct (IH (fun x' Hx' => Hf x' (list_elem_of_further _ _ _ Hx'))
                 (acc ++ [h x y]))
      as (ys & Hrun & Hlen & Hnth).
    exists (h x y :: ys). split_and!.
    + simpl. rewrite Hy. simpl. rewrite Hrun. by rewrite <- app_assoc.
    + simpl. by rewrite Hlen.
    + intros [|i] x' Hx'; simpl in *.
      * inversion Hx'; subst x'. eauto.
      * by apply Hnth.
Qed.

Lemma getCellDisplay_returns g row col :
  wf_game g -> 0 ≤ row < ROWS -> exists d, getCellDisplay g row col = Ret d.
Proof.
  intros (Hb & Hm & Hf) Hr. unfold getCellDisplay.
  rewrite (rd_row (flags g)), (rd_row (mask g)), (rd_row (board g))
    by assumption.
  cbn [mbind res_bind].
  destruct (truthy (cell (flags g) row col)); [eauto|].
  destruct (negb (truthy (cell (mask g) row col))); [eauto|].
  destruct (is_mine (cell (board g) row col)); eauto.
Qed.

Lemma lookup_seqZ_0 (n i : Z) :
  0 ≤ i < n -> seqZ 0 n !! Z.to_nat i = Some i.
Proof. intros Hi. apply lookup_seqZ. lia. Qed.

(** The row of buttons that the inner loop of [generateKeyboard] builds. *)
Lemma keyboard_row g row :
  wf_game g -> 0 ≤ row < ROWS ->
  exists rowButtons,
    forEach (fun rowButtons col =>
               display ← getCellDisplay g row col;
               Ret (rowButtons ++ [mkButton display (cellData row col)]))
            [] (seqZ 0 COLS) = Ret rowButtons /\
    length rowButtons = Z.to_nat COLS /\
    forall col, 0 ≤ col < COLS ->
      exists b, idx rowButtons col = Some b /\
        getCellDisplay g row col = Ret (text b) /\
        callback_data b = cellData row col.
Proof.
  intros Hwf Hr.
  destruct (forEach_collect (fun col => getCellDisplay g row col)
              (fun col display => mkButton display (cellData row col))
              (seqZ 0 COLS)
              (fun col _ => getCellDisplay_returns g row col Hwf Hr) [])
    as (ys & Hrun & Hlen & Hnth).
  exists ys. split_and!; [exact Hrun| by rewrite Hlen, length_seqZ |].
  intros col Hc.
  destruct (Hnth (Z.to_nat col) col (lookup_seqZ_0 _ _ Hc))
    as (d & Hd & Hdisp).
  exists (mkButton d (cellData row col)). split_and!; [|exact Hdisp|reflexivity].
  unfold idx. by rewrite decide_True by lia.
Qed.

(** X20.  On a game of the configured shape [generateKeyboard] returns a
    grid of 8 rows of 8 buttons; the button at [(row, col)] shows what
    [getCellDisplay] returns for that cell and carries the data
    [c_<row>_<col>]. *)
Theorem generateKeyboard_buttons g :
  wf_game g ->
  exists keyboard,
    generateKeyboard g = Ret keyboard /\ wf_grid keyboard /\
    forall row col, isValidPosition row col = true ->
      exists b, cell keyboard row col = Some b /\
        getCellDisplay g row col = Ret (text b) /\
        callback_data b = cellData row col.
Proof.
  intros Hwf.
  set (f := fun row : Z =>
              forEach (fun rowButtons col =>
                         display ← getCellDisplay g row col;
                         Ret (rowButtons ++
                              [mkButton display (cellData row col)]))
                      [] (seqZ 0 COLS)).
  assert (forall row, row ∈ seqZ 0 ROWS -> exists y, f row = Ret y) as Hf.
  { intros row Hrow%elem_of_seqZ.
    destruct (keyboard_row g row Hwf) as (rb & Hrb & _); [lia|]. eauto. }
  destruct (forEach_collect f (fun _ rowButtons => rowButtons)
              (seqZ 0 ROWS) Hf []) as (kb & Hrun & Hlen & Hnth).
  exists kb. split_and!.
  - exact Hrun.
  - split; [by rewrite Hlen, length_seqZ|].
    apply Forall_lookup. intros i rb Hi.
    assert (i < length (seqZ 0 ROWS))%nat as Hlt
      by (rewrite <- Hlen; by apply lookup_lt_Some in Hi).
    destruct (lookup_lt_is_Some_2 _ _ Hlt) as [row Hrow].
    destruct (Hnth i row Hrow) as (rb' & Hrb' & Hf').
    assert (rb' = rb) as -> by congruence.
    assert (row ∈ seqZ 0 ROWS) as Hin%elem_of_seqZ
      by (by eapply list_elem_of_lookup_2).
    destruct (keyboard_row g row Hwf) as (rb2 & Hrb2 & Hlen2 & _); [lia|].
    unfold f in Hf'. congruence.
  - intros row col [Hr Hc]%isValidPosition_spec.
    destruct (Hnth (Z.to_nat row) row (lookup_seqZ_0 _ _ Hr))
      as (rb & Hrb & Hf').
    destruct (keyboard_row g row Hwf Hr) as (rb2 & Hrb2 & _ & Hcols).
    assert (rb2 = rb) as -> by (unfold f in Hf'; congruence).
    destruct (Hcols col Hc) as (b & Hb & Hdisp & Hdata).
    exists b. split_and!; [|exact Hdisp|exact Hdata].
    assert (idx kb row = Some rb) as Hrow
      by (unfold idx; by rewrite decide_True by lia).
    unfold cell. rewrite Hrow. exact Hb.
Qed.

Lemma forEach_ext {A St : Type} (body1 body2 : St -> A -> res St)
  (l : list A) :
  (forall s x, x ∈ l -> body1 s x = body2 s x) ->
  forall s, forEach body1 s l = forEach body2 s l.
Proof.
  induction l as [|x l IH]; intros Hext s; simpl; [reflexivity|].
  rewrite (Hext s x) by left.
  destruct (body2 s x) as [s'|e]; simpl; [|reflexivity].
  apply IH. intros s0 y Hy. apply Hext. by right.
Qed.

(** X21.  The keyboard shows nothing of the hidden part of the board: two
    games with the same mask and the same flags whose boards agree on the
    revealed unflagged cells get the same keyboard. *)
Theorem keyboard_hides_the_board g1 g2 :
  wf_game g1 -> wf_game g2 ->
  mask g1 = mask g2 -> flags g1 = flags g2 ->
  (forall row col,
     cell (mask g1) row col = Some true ->
     cell (flags g1) row col = Some false ->
     cell (board g1) row col = cell (board g2) row col) ->
  generateKeyboard g1 = generateKeyboard g2.
Proof.
  intros Hwf1 Hwf2 Hmask Hflags Hboard.
  assert (forall row col, isValidPosition row col = true ->
            getCellDisplay g1 row col = getCellDisplay g2 row col) as Hdisp.
  { intros row col Hv. pose proof Hv as [Hr _]%isValidPosition_spec.
    unfold getCellDisplay. rewrite <- Hmask, <- Hflags.
    rewrite (rd_row (flags g1)), (rd_row (mask g1)), (rd_row (board g1)),
      (rd_row (board g2)) by (assumption || apply Hwf1 || apply Hwf2).
    cbn [mbind res_bind].
    destruct (truthy (cell (flags g1) row col)) eqn:Hf; [reflexivity|].
    destruct (truthy (cell (mask g1) row col)) eqn:Hm; [|reflexivity].
    cbn [negb].
    rewrite (Hboard row col); [reflexivity| |].
    - by apply truthy_cell_true.
    - apply truthy_cell_false; [apply Hwf1|assumption..]. }
  unfold generateKeyboard. apply forEach_ext.
  intros keyboard row Hrow%elem_of_seqZ. f_equal.
  apply forEach_ext. intros rowButtons col Hcol%elem_of_seqZ.
  rewrite Hdisp; [reflexivity|]. apply isValidPosition_spec. lia.
Qed.

(** In a game that is won every mine carries a flag. *)
Lemma wins_mines_flagged g :
  wf_game g -> flags_on_mines g -> countMines (board g) = MINES ->
  wins g ->
  forall r c, cell (board g) r c = Some (-1) -> cell (flags g) r c = Some true.
Proof.
  intros Hwf Hflags Hcount [_ Htotal] r c Hmine.
  apply (filter_length_subset_eq (flaggedAt (flags g)) (mineAt (board g))
           cells (fun p _ => Hflags p.1 p.2)) with (x := (r, c)).
  - unfold totalFlags in Htotal. unfold countMines in Hcount. lia.
  - apply elem_of_cells.
    exact (cell_Some_valid _ _ _ _ (proj1 Hwf) Hmine).
  - exact Hmine.
Qed.

(** X22.  In a reachable game every button has a text: a flag, a hidden
    square, a mine or the emoji of a number from 0 to 8, never [undefined].
    The mine is shown only in a game that is lost. *)
Theorem reachable_display g row col :
  reachable g -> isValidPosition row col = true ->
  exists s, getCellDisplay g row col = Ret (Some s) /\
    (s = EMOJI.FLAG \/ s = EMOJI.HIDDEN \/ s = EMOJI.MINE \/
     s ∈ EMOJI.NUMBERS) /\
    (s = EMOJI.MINE -> gameOver g = true /\ won g = false).
Proof.
  intros Hreach Hv.
  destruct (reachable_sound g Hreach)
    as ((Hwf & Hok & Hcount & Hprog) & Hflags & Hhid & Hover).
  pose proof Hwf as (Hwb & Hwm & Hwfl).
  unfold getCellDisplay.
  rewrite (rd_valid (flags g)), (rd_valid (mask g)), (rd_valid (board g))
    by assumption.
  cbn [mbind res_bind].
  destruct (truthy (cell (flags g) row col)) eqn:Hf.
  { exists EMOJI.FLAG. split_and!; [reflexivity|by left|discriminate]. }
  destruct (truthy (cell (mask g) row col)) eqn:Hm; cbn [negb].
  2:{ exists EMOJI.HIDDEN. split_and!; [reflexivity|auto|discriminate]. }
  apply truthy_cell_true in Hm.
  apply truthy_cell_false in Hf; [|assumption..].
  destruct (cell_valid (board g) row col Hwb Hv) as [v Hb].
  rewrite Hb. cbn [is_mine is_num].
  destruct (Z.eqb_spec v (-1)) as [->|Hne].
  - exists EMOJI.MINE. split_and!; [reflexivity|auto|]. intros _.
    destruct (gameOver g) eqn:Hgo.
    + split; [reflexivity|]. destruct (won g) eqn:Hwon; [|reflexivity].
      destruct (Hover eq_refl) as (_ & Hwins & _).
      pose proof (wins_mines_flagged g Hwf Hflags Hcount (Hwins eq_refl)
                    row col Hb). congruence.
    + pose proof (Hhid eq_refl row col Hb). congruence.
  - assert (cell (board g) row col = Some (adjacentMines (board g) row col))
      as Hadj by (apply Hok; [assumption|congruence]).
    pose proof (adjacentMines_nonneg (board g) row col).
    pose proof (adjacentMines_le_8 (board g) row col).
    assert (v = adjacentMines (board g) row col) as Hval by congruence.
    assert (v = 0 \/ v = 1 \/ v = 2 \/ v = 3 \/ v = 4 \/ v = 5 \/ v = 6 \/
            v = 7 \/ v = 8) as Hcases by lia.
    clear - Hcases.
    repeat (destruct Hcases as [->|Hcases];
            [eexists; split_and!;
             [reflexivity
             |right; right; right; unfold EMOJI.NUMBERS; repeat constructor
             |unfold EMOJI.MINE; discriminate]|]).
    subst v. eexists. split_and!;
      [reflexivity
      |right; right; right; unfold EMOJI.NUMBERS; repeat constructor
      |unfold EMOJI.MINE; discriminate].
Qed.

(** ** The status text *)

Lemma filter_length_fmap {A B : Type} (f : A -> B) (P : B -> Prop)
  (Q : A -> Prop) `{!forall y, Decision (P y)} `{!forall x, Decision (Q x)}
  (l : list A) :
  (forall x, x ∈ l -> (P (f x) <-> Q x)) ->
  length (filter P (f <$> l)) = length (filter Q l).
Proof.
  induction l as [|a l IH]; intros Hiff; [reflexivity|].
  rewrite fmap_cons, !filter_cons.
  assert (P (f a) <-> Q a) as Hpq by (apply Hiff; left).
  specialize (IH (fun x Hx => Hiff x (list_elem_of_further _ _ _ Hx))).
  destruct (decide (P (f a))), (decide (Q a)); simpl; try tauto; lia.
Qed.

(** Reading a grid of the configured shape cell by cell, in the order of
    the double loop, gives its rows one after the other. *)
Lemma cells_view {A : Type} (g : list (list A)) :
  wf_grid g ->
  (fun p => cell g p.1 p.2) <$> cells = Some <$> concat g.
Proof.
  intros [Hlen Hrows].
  change (Z.to_nat ROWS) with 8%nat in Hlen.
  change (Z.to_nat COLS) with 8%nat in Hrows.
  do 8 (destruct g as [|? g]; [discriminate Hlen|]).
  destruct g; [clear Hlen|discriminate Hlen].
  repeat match goal with
         | H : Forall _ (_ :: _) |- _ =>
             let Hl := fresh "Hl" in apply Forall_cons in H as [Hl H]
         end.
  clear Hrows.
  repeat match goal with
         | H : length ?l = 8%nat |- _ =>
             do 8 (destruct l as [|? l]; [discriminate H|]);
             destruct l; [clear H|discriminate H]
         end.
  reflexivity.
Qed.

(** The flags that [generateGameBoard] counts in the flattened grid are the
    flags that the win check counts cell by cell. *)
Lemma flagsPlaced_totalFlags g :
  wf_grid (flags g) -> flagsPlaced g = totalFlags g.
Proof.
  intros Hwf. unfold flagsPlaced, totalFlags. f_equal.
  transitivity
    (length (filter (fun o : option bool => o = Some true)
                    ((fun p => cell (flags g) p.1 p.2) <$> cells))).
  - rewrite (cells_view _ Hwf). symmetry.
    apply filter_length_fmap. intros f _. split; congruence.
  - apply filter_length_fmap. intros p _. reflexivity.
Qed.

(** A game that is lost does not meet the win condition: the move that
    lost it changed no flag. *)
Lemma reachable_lost_not_wins g :
  reachable g -> gameOver g = true -> won g = false -> ¬ wins g.
Proof.
  intros Hreach Hgo' Hwon'.
  destruct Hreach as [samples now g Hs Hrun | g row col now g' Hreach Hgo Hrun].
  - unfold createNewGame in Hrun.
    apply bind_Ret in Hrun as (b1 & _ & Hrun).
    apply bind_Ret in Hrun as (b2 & _ & Hrun).
    inversion Hrun; subst g. discriminate Hgo'.
  - pose proof (reachable_sound g Hreach) as Hsound.
    pose proof Hsound as ((Hwf & _ & _ & Hprog) & _).
    destruct (Hprog Hgo) as (_ & _ & Hnowin & _).
    destruct (decide (0 ≤ row < ROWS)) as [Hrow|Hrow].
    2:{ rewrite cellAction_no_row in Hrun by assumption. discriminate. }
    destruct (cellAction_spec g row col now Hwf Hrow)
      as (g1 & Hrun1 & _ & Hact).
    rewrite Hrun in Hact. inversion Hact as [Hg']. clear Hact.
    destruct (applyMove_sound g row col now g1 Hsound Hgo Hrun1)
      as (Hbd & _ & _ & Hover1).
    destruct (gameOver g1) eqn:Hgo1.
    2:{ destruct (decide (wins g1)); subst g'; simpl in *; congruence. }
    subst g'. destruct (Hover1 eq_refl) as (_ & _ & _ & Hb & Hm & Hf).
    rewrite applyMove_direct in Hrun1; [|assumption..|].
    2:{ intros Hmask. congruence. }
    rewrite Hf, Hb in Hrun1. cbn [truthy is_mine is_num Z.eqb] in Hrun1.
    destruct (mineHit_move (inc_moves g) now Hwf)
      as (g2 & Hrun2 & _ & Hfl & _).
    rewrite Hrun2 in Hrun1. inversion Hrun1; subst g2.
    intros Hwins. apply Hnowin.
    by apply (wins_ext g g1).
Qed.

(** X23.  The status text of a reachable game shows a time that is a
    number, the one from the start to the request while the game is in
    progress and to its end afterwards, never [NaN:NaN]; and the count of
    remaining mines that it shows is between 0 and [MINES], and is 0
    exactly when the game is won. *)
Theorem reachable_status_text g now :
  reachable g ->
  exists t n,
    generateGameBoard g now =
      EMOJI.TIMER +:+ " " +:+ formatTime (Some t) +:+
      " | 移动: " +:+ pretty (moves g) +:+ newline +:+
      "剩余地雷: " +:+ pretty n /\
    (gameOver g = false -> t = now - startTime g) /\
    (gameOver g = true -> endTime g = Some (startTime g + t)) /\
    0 ≤ n ≤ MINES /\ (n = 0 <-> won g = true).
Proof.
  intros Hreach.
  destruct (reachable_sound g Hreach)
    as ((Hwf & Hok & Hcount & Hprog) & Hflags & Hhid & Hover).
  assert (exists t, timeSpent g now = Some t /\
            (gameOver g = false -> t = now - startTime g) /\
            (gameOver g = true -> endTime g = Some (startTime g + t)))
    as (t & Ht & Hrun & Hend).
  { unfold timeSpent. destruct (gameOver g) eqn:Hgo.
    - destruct (Hover eq_refl) as ([e He] & _). rewrite He.
      exists (e - startTime g). split_and!; [reflexivity|discriminate|].
      intros _. f_equal. lia.
    - eexists. split_and!; [reflexivity|reflexivity|discriminate]. }
  exists t, (MINES - flagsPlaced g). split_and!.
  - unfold generateGameBoard. by rewrite Ht.
  - exact Hrun.
  - exact Hend.
  - rewrite (flagsPlaced_totalFlags g (proj2 (proj2 Hwf))).
    pose proof (filter_length_le (flaggedAt (flags g)) (mineAt (board g))
                  cells (fun p _ => Hflags p.1 p.2)) as Hle.
    unfold totalFlags, countMines in *. lia.
  - rewrite (flagsPlaced_totalFlags g (proj2 (proj2 Hwf))).
    unfold totalFlags. lia.
  - rewrite (flagsPlaced_totalFlags g (proj2 (proj2 Hwf))).
    assert (totalFlags g = MINES <-> wins g) as Hiff.
    { split; [|by intros [_ ?]]. intros Htotal. split; [|exact Htotal].
      rewrite <- Htotal. unfold correctFlags, totalFlags. f_equal.
      apply filter_length_iff. intros p _. unfold correctFlagAt.
      split; [tauto|]. intros Hp. split; [exact Hp|]. by apply Hflags. }
    split.
    + intros Hn. assert (wins g) as Hwins by (apply Hiff; lia).
      destruct (gameOver g) eqn:Hgo.
      * destruct (won g) eqn:Hwon; [reflexivity|].
        by destruct (reachable_lost_not_wins g Hreach Hgo Hwon).
      * destruct (Hprog eq_refl) as (_ & _ & Hnowin & _). contradiction.
    + intros Hwon. destruct (gameOver g) eqn:Hgo.
      * destruct (Hover eq_refl) as (_ & Hwins & _).
        apply Hwins, Hiff in Hwon. lia.
      * destruct (Hprog eq_refl) as (E & _). congruence.
Qed.

(** X24.  [formatTime] of a time that is not negative writes the whole
    minutes, not wrapped into hours, a colon, and the seconds of the minute
    in exactly two characters that read back as that number. *)
Theorem formatTime_minutes_seconds ms :
  0 ≤ ms ->
  exists ss,
    formatTime (Some ms) = pretty (ms / 60000) +:+ ":" +:+ ss /\
    String.length ss = 2%nat /\
    numberOf ss = Some ((ms / 1000) `mod` 60).
Proof.
  intros Hms. unfold formatTime. cbv zeta.
  assert (0 ≤ ms / 1000) as Hs by (apply Z.div_pos; lia).
  rewrite Z.rem_mod_nonneg by lia.
  rewrite Z.div_div by lia. change (1000 * 60) with 60000.
  exists (padStart 2 "0" (pretty ((ms / 1000) `mod` 60))).
  split; [reflexivity|].
  assert (Forall (fun s : Z =>
                    String.length (padStart 2 "0" (pretty s)) = 2%nat /\
                    numberOf (padStart 2 "0" (pretty s)) = Some s)
                 (seqZ 0 60)) as Hall.
  { apply (bool_decide_unpack _). vm_compute. exact I. }
  rewrite Forall_forall in Hall. apply Hall.
  apply elem_of_seqZ. pose proof (Z.mod_pos_bound (ms / 1000) 60). lia.
Qed.

(** X25.  A click on a stored game in progress is handled without an error
    exactly when its row is a row of the grid, whatever its column: the
    handler then returns the value to store. *)
Theorem click_handled_iff_row_exists g row col now j :
  wf_game g -> gameOver g = false -> encode g = Some j ->
  (exists stored', handleCallback (Some j) row col now = Ret stored') <->
  0 ≤ row < ROWS.
Proof.
  intros Hwf Hgo Henc. unfold handleCallback.
  rewrite (decode_encoded g j Henc). cbn [mbind res_bind]. rewrite Hgo.
  split.
  - intros [stored' Hrun].
    destruct (decide (0 ≤ row < ROWS)) as [Hrow|Hrow]; [exact Hrow|].
    rewrite (cellAction_no_row g row col now Hwf Hrow) in Hrun.
    discriminate Hrun.
  - intros Hrow.
    destruct (cellAction_spec g row col now Hwf Hrow) as (g1 & _ & _ & ->).
    cbn [mbind res_bind]. eauto.
Qed.

(** ** The properties on the games played through the model *)

Lemma play_reachable clicks now : forall g g',
  reachable g -> play g clicks now = Ret g' -> reachable g'.
Proof.
  unfold play. induction clicks as [|[row col] clicks IH];
    intros g g' Hreach Hrun; simpl in Hrun.
  - by inversion Hrun; subst g'.
  - destruct (gameOver g) eqn:Hgo.
    + simpl in Hrun. by apply (IH g g').
    + apply bind_Ret in Hrun as (g1 & Hstep & Hrun).
      apply (IH g1 g'); [|exact Hrun].
      by apply (reach_move g row col now).
Qed.

Lemma demoWon_reachable : reachable demoWon.
Proof.
  apply (play_reachable (demoSafe ++ demoSafe) 5000 demoFlagged);
    [exact demoFlagged_reachable|].
  vm_compute. reflexivity.
Qed.

Lemma cells_sample_ok : Forall sample_ok cells.
Proof.
  apply Forall_forall. intros [row col] Hp. by apply elem_of_cells.
Qed.

Lemma revealEmpty_changes_unflagged_mask_only_witness :
  wf_game demoFlagged /\
  exists g' b',
    revealEmpty demoFlagged 3 2 MAX_REVEALS = Ret (g', b') /\
    board g' = board demoFlagged /\ flags g' = flags demoFlagged /\
    same_status demoFlagged g' /\
    forall r c, cell (flags demoFlagged) r c = Some true ->
                cell (mask g') r c = cell (mask demoFlagged) r c.
Proof.
  assert (wf_game demoFlagged) as Hwf by wf_by_computation.
  split; [exact Hwf|].
  exact (revealEmpty_changes_unflagged_mask_only demoFlagged 3 2 MAX_REVEALS
           Hwf).
Defined.

Lemma revealEmpty_guards_witness :
  wf_game demoGame /\
  (reveal_skips demoGame 0 3 MAX_REVEALS \/
   reveal_fires demoGame 0 3 MAX_REVEALS) /\
  (reveal_skips demoGame 0 3 MAX_REVEALS ->
   revealEmpty demoGame 0 3 MAX_REVEALS = Ret (demoGame, MAX_REVEALS)) /\
  (reveal_fires demoGame 0 3 MAX_REVEALS ->
   exists g' b',
     revealEmpty demoGame 0 3 MAX_REVEALS = Ret (g', b') /\
     cell (mask g') 0 3 = Some true /\ b' ≤ MAX_REVEALS - 1).
Proof.
  assert (wf_game demoGame) as Hwf by wf_by_computation.
  split; [exact Hwf|].
  exact (revealEmpty_guards demoGame 0 3 MAX_REVEALS Hwf).
Defined.

Lemma revealEmpty_numbered_cell_witness :
  wf_game demoGame /\ reveal_fires demoGame 0 1 MAX_REVEALS /\
  cell (board demoGame) 0 1 = Some 2 /\ 2 <> 0 /\
  revealEmpty demoGame 0 1 MAX_REVEALS =
  Ret (reveal demoGame 0 1, MAX_REVEALS - 1).
Proof.
  assert (wf_game demoGame) as Hwf by wf_by_computation.
  assert (reveal_fires demoGame 0 1 MAX_REVEALS) as Hfires
    by (unfold reveal_fires; split_and!; reflexivity).
  assert (cell (board demoGame) 0 1 = Some 2) as Hv by reflexivity.
  assert (2 <> 0) as Hne by lia.
  split_and!; [exact Hwf | exact Hfires | exact Hv | exact Hne |].
  exact (revealEmpty_numbered_cell demoGame 0 1 MAX_REVEALS 2
           Hwf Hfires Hv Hne).
Defined.

Lemma revealEmpty_closed_when_budget_left_witness :
  let g' := set_mask demoGame (mask demoOpened) in
  wf_game demoGame /\
  revealEmpty demoGame 0 3 MAX_REVEALS = Ret (g', 25) /\ 0 < 25 /\
  forall r c dx dy,
    cell (mask demoGame) r c = Some false -> cell (mask g') r c = Some true ->
    cell (board demoGame) r c = Some 0 -> (dx, dy) ∈ DIRECTIONS ->
    isValidPosition (r + dx) (c + dy) = true ->
    cell (flags demoGame) (r + dx) (c + dy) = Some false ->
    cell (mask g') (r + dx) (c + dy) = Some true.
Proof.
  intros g'.
  assert (wf_game demoGame) as Hwf by wf_by_computation.
  assert (revealEmpty demoGame 0 3 MAX_REVEALS = Ret (g', 25)) as Hrun
    by (vm_compute; reflexivity).
  assert (0 < 25) as Hleft by lia.
  split_and!; [exact Hwf | exact Hrun | exact Hleft |].
  exact (revealEmpty_closed_when_budget_left demoGame 0 3 MAX_REVEALS g' 25
           Hwf Hrun Hleft).
Defined.

Lemma reachable_flags_on_mines_witness :
  reachable demoFlagged /\ cell (flags demoFlagged) 2 2 = Some true /\
  cell (board demoFlagged) 2 2 = Some (-1).
Proof.
  split_and!; [exact demoFlagged_reachable | reflexivity |].
  exact (reachable_flags_on_mines demoFlagged 2 2 demoFlagged_reachable
           eq_refl).
Defined.

Lemma reachable_mines_hidden_witness :
  reachable demoFlagged /\ gameOver demoFlagged = false /\
  cell (board demoFlagged) 0 0 = Some (-1) /\
  cell (mask demoFlagged) 0 0 = Some false.
Proof.
  split_and!; [exact demoFlagged_reachable | reflexivity | reflexivity |].
  exact (reachable_mines_hidden demoFlagged 0 0 demoFlagged_reachable
           eq_refl eq_refl).
Defined.

Lemma reachable_lost_only_by_mine_click_witness :
  let g' := game_of (cellAction demoFlagged 0 0 5000) demoGame in
  reachable demoFlagged /\ gameOver demoFlagged = false /\
  cellAction demoFlagged 0 0 5000 = Ret g' /\
  gameOver g' = true /\ won g' = false /\
  cell (board demoFlagged) 0 0 = Some (-1) /\
  cell (mask demoFlagged) 0 0 = Some false /\
  cell (flags demoFlagged) 0 0 = Some false /\
  moves g' = moves demoFlagged + 1 /\ endTime g' = Some 5000 /\
  mines_shown g'.
Proof.
  intros g'.
  assert (cellAction demoFlagged 0 0 5000 = Ret g') as Hrun
    by (vm_compute; reflexivity).
  assert (gameOver g' = true) as Hgo by (vm_compute; reflexivity).
  assert (won g' = false) as Hwon by (vm_compute; reflexivity).
  split_and!; [exact demoFlagged_reachable | reflexivity | exact Hrun |
               exact Hgo | exact Hwon | ..];
    apply (reachable_lost_only_by_mine_click demoFlagged 0 0 5000 g'
             demoFlagged_reachable eq_refl Hrun Hgo Hwon).
Defined.

Lemma reachable_won_flags_are_mines_witness :
  reachable demoWon /\ won demoWon = true /\
  (cell (flags demoWon) 7 7 = Some true <->
   cell (board demoWon) 7 7 = Some (-1)).
Proof.
  split_and!; [exact demoWon_reachable | reflexivity |].
  exact (reachable_won_flags_are_mines demoWon 7 7 demoWon_reachable eq_refl).
Defined.

Lemma reachable_endTime_iff_over_witness :
  reachable demoWon /\
  (gameOver demoWon = true <-> is_Some (endTime demoWon)) /\
  (won demoWon = true -> gameOver demoWon = true).
Proof.
  split; [exact demoWon_reachable|].
  exact (reachable_endTime_iff_over demoWon demoWon_reachable).
Defined.

Lemma click_on_mine_loses_witness :
  wf_game demoGame /\
  cell (flags demoGame) 0 0 = Some false /\
  cell (board demoGame) 0 0 = Some (-1) /\
  exists g',
    cellAction demoGame 0 0 2000 = Ret g' /\
    gameOver g' = true /\ endTime g' = Some 2000 /\
    moves g' = moves demoGame + 1 /\ won g' = won demoGame /\
    board g' = board demoGame /\ flags g' = flags demoGame /\
    forall r c,
      cell (mask g') r c =
      if decide (cell (board demoGame) r c = Some (-1))
      then Some true else cell (mask demoGame) r c.
Proof.
  assert (wf_game demoGame) as Hwf by wf_by_computation.
  split_and!; [exact Hwf | reflexivity | reflexivity |].
  exact (click_on_mine_loses demoGame 0 0 2000 Hwf eq_refl eq_refl).
Defined.

Lemma click_on_flag_is_ignored_witness :
  reachable demoFlagged /\ gameOver demoFlagged = false /\
  cell (flags demoFlagged) 2 2 = Some true /\
  cellAction demoFlagged 2 2 5000 = Ret demoFlagged.
Proof.
  split_and!; [exact demoFlagged_reachable | reflexivity | reflexivity |].
  exact (click_on_flag_is_ignored demoFlagged 2 2 5000 demoFlagged_reachable
           eq_refl eq_refl).
Defined.

Lemma cell_action_frame_witness :
  let g' := game_of (cellAction demoOpened 1 3 3000) demoGame in
  wf_game demoOpened /\ cellAction demoOpened 1 3 3000 = Ret g' /\
  board g' = board demoOpened /\ startTime g' = startTime demoOpened /\
  flags_grow demoOpened g' /\ (won demoOpened = true -> won g' = true) /\
  moves demoOpened ≤ moves g' ≤ moves demoOpened + 1.
Proof.
  intros g'.
  assert (wf_game demoOpened) as Hwf by wf_by_computation.
  assert (cellAction demoOpened 1 3 3000 = Ret g') as Hrun
    by (vm_compute; reflexivity).
  split; [exact Hwf|]. split; [exact Hrun|].
  exact (cell_action_frame demoOpened 1 3 3000 g' Hwf Hrun).
Defined.

Lemma chord_with_nothing_to_open_witness :
  reachable demoFlagged /\ gameOver demoFlagged = false /\
  cell (mask demoFlagged) 1 3 = Some true /\
  cell (board demoFlagged) 1 3 = Some 1 /\ 0 < 1 /\
  flagCount demoFlagged 1 3 = 1 /\ hiddenNeighbours demoFlagged 1 3 = [] /\
  cellAction demoFlagged 1 3 5000 = Ret demoFlagged.
Proof.
  assert (0 < 1) as Hpos by lia.
  split_and!; [exact demoFlagged_reachable | reflexivity | reflexivity |
               reflexivity | exact Hpos | reflexivity | reflexivity |].
  exact (chord_with_nothing_to_open demoFlagged 1 3 5000 1
           demoFlagged_reachable eq_refl eq_refl eq_refl Hpos eq_refl eq_refl).
Defined.

Lemma click_outside_rows_throws_witness :
  wf_game demoGame /\ gameOver demoGame = false /\ ¬ (0 ≤ 8 < ROWS) /\
  exists j,
    encode demoGame = Some j /\
    cellAction demoGame 8 0 2000 = Stop TypeError /\
    handleCallback (Some j) 8 0 2000 = Stop TypeError.
Proof.
  assert (wf_game demoGame) as Hwf by wf_by_computation.
  assert (¬ (0 ≤ 8 < ROWS)) as Hrow by (unfold ROWS; lia).
  split_and!; [exact Hwf | reflexivity | exact Hrow |].
  eexists. split; [reflexivity|].
  exact (click_outside_rows_throws demoGame 8 0 2000 _ Hwf eq_refl Hrow
           eq_refl).
Defined.

Lemma generation_returns_on_covering_samples_witness :
  Forall sample_ok cells /\ (forall p, p ∈ cells -> p ∈ cells) /\
  exists game,
    createNewGame cells 1000 = Ret game /\ countMines (board game) = MINES.
Proof.
  split_and!; [exact cells_sample_ok | exact (fun p Hp => Hp) |].
  exact (generation_returns_on_covering_samples cells 1000 cells_sample_ok
           (fun p Hp => Hp)).
Defined.

Lemma generated_mines_are_the_samples_used_witness :
  Forall sample_ok demoSamples /\
  createNewGame demoSamples 1000 = Ret demoGame /\
  exists used rest,
    demoSamples = used ++ rest /\
    (forall r c, cell (board demoGame) r c = Some (-1) <-> (r, c) ∈ used) /\
    (forall rest', createNewGame (used ++ rest') 1000 = Ret demoGame) /\
    (forall shorter tail, used = shorter ++ tail -> tail <> [] ->
       createNewGame shorter 1000 = Stop OutOfFuel).
Proof.
  split_and!; [exact demoSamples_ok | exact demoGame_created |].
  exact (generated_mines_are_the_samples_used demoSamples 1000 demoGame
           demoSamples_ok demoGame_created).
Defined.

Lemma calculateNumbers_idempotent_witness :
  wf_grid demoBoard /\
  exists b1,
    calculateNumbers demoBoard = Ret b1 /\ calculateNumbers b1 = Ret b1 /\
    (forall r c, cell b1 r c = Some (-1) <-> cell demoBoard r c = Some (-1)) /\
    forall r c, isValidPosition r c = true ->
      exists v, cell b1 r c = Some v /\ -1 ≤ v ≤ 8.
Proof.
  assert (wf_grid demoBoard) as Hwf
    by (unfold wf_grid; repeat split; repeat constructor).
  split; [exact Hwf|].
  exact (calculateNumbers_idempotent demoBoard Hwf).
Defined.

Lemma handleRequest_keeps_store_witness :
  Forall sample_ok demoSamples /\ store_ok (encode demoGame) /\
  handleRequest (CellClick 0 3) demoSamples 2000 (encode demoGame)
  = Ret (encode demoOpened) /\
  store_ok (encode demoOpened).
Proof.
  assert (store_ok (encode demoGame)) as Hok.
  { right. exists demoGame.
    split_and!; [exact demoGame_reachable | reflexivity | reflexivity]. }
  assert (handleRequest (CellClick 0 3) demoSamples 2000 (encode demoGame)
          = Ret (encode demoOpened)) as Hrun by (vm_compute; reflexivity).
  split_and!; [exact demoSamples_ok | exact Hok | exact Hrun |].
  exact (handleRequest_keeps_store (CellClick 0 3) demoSamples 2000
           (encode demoGame) (encode demoOpened) demoSamples_ok Hok Hrun).
Defined.

Lemma parseCallback_cellData_witness :
  - 2 ^ 53 < 3 < 2 ^ 53 /\ - 2 ^ 53 < 7 < 2 ^ 53 /\
  cellData 3 7 = "c_3_7" /\ parseCallback (cellData 3 7) = Cell 3 7.
Proof.
  assert (- 2 ^ 53 < 3 < 2 ^ 53) as Hrow by (vm_compute; split; reflexivity).
  assert (- 2 ^ 53 < 7 < 2 ^ 53) as Hcol by (vm_compute; split; reflexivity).
  split_and!; [apply Hrow | apply Hrow | apply Hcol | apply Hcol |
               reflexivity |].
  exact (parseCallback_cellData 3 7 Hrow Hcol).
Defined.

Lemma generateKeyboard_buttons_witness :
  wf_game demoFlagged /\
  exists keyboard,
    generateKeyboard demoFlagged = Ret keyboard /\ wf_grid keyboard /\
    forall row col, isValidPosition row col = true ->
      exists b, cell keyboard row col = Some b /\
        getCellDisplay demoFlagged row col = Ret (text b) /\
        callback_data b = cellData row col.
Proof.
  assert (wf_game demoFlagged) as Hwf by wf_by_computation.
  split; [exact Hwf|].
  exact (generateKeyboard_buttons demoFlagged Hwf).
Defined.

Lemma keyboard_hides_the_board_witness :
  wf_game demoOpened /\ wf_game demoOtherBoard /\
  mask demoOpened = mask demoOtherBoard /\
  flags demoOpened = flags demoOtherBoard /\
  cell (board demoOpened) 7 3 = Some 0 /\
  cell (board demoOtherBoard) 7 3 = Some 5 /\
  generateKeyboard demoOpened = generateKeyboard demoOtherBoard.
Proof.
  assert (wf_game demoOpened) as Hwf by wf_by_computation.
  assert (wf_game demoOtherBoard) as Hwf' by wf_by_computation.
  split_and!; [exact Hwf | exact Hwf' | reflexivity | reflexivity |
               reflexivity | reflexivity |].
  apply (keyboard_hides_the_board demoOpened demoOtherBoard Hwf Hwf'
           eq_refl eq_refl).
  intros row col Hmask _.
  change (board demoOtherBoard) with (put (board demoOpened) 7 3 5).
  symmetry. apply cell_put_ne. intros E. inversion E; subst row col.
  vm_compute in Hmask. discriminate Hmask.
Defined.

Lemma reachable_display_witness :
  reachable demoFlagged /\ isValidPosition 2 3 = true /\
  exists s, getCellDisplay demoFlagged 2 3 = Ret (Some s) /\
    (s = EMOJI.FLAG \/ s = EMOJI.HIDDEN \/ s = EMOJI.MINE \/
     s ∈ EMOJI.NUMBERS) /\
    (s = EMOJI.MINE ->
     gameOver demoFlagged = true /\ won demoFlagged = false).
Proof.
  split_and!; [exact demoFlagged_reachable | reflexivity |].
  exact (reachable_display demoFlagged 2 3 demoFlagged_reachable eq_refl).
Defined.

Lemma reachable_status_text_witness :
  reachable demoWon /\
  exists t n,
    generateGameBoard demoWon 9000 =
      EMOJI.TIMER +:+ " " +:+ formatTime (Some t) +:+
      " | 移动: " +:+ pretty (moves demoWon) +:+ newline +:+
      "剩余地雷: " +:+ pretty n /\
    (gameOver demoWon = false -> t = 9000 - startTime demoWon) /\
    (gameOver demoWon = true -> endTime demoWon = Some (startTime demoWon + t)) /\
    0 ≤ n ≤ MINES /\ (n = 0 <-> won demoWon = true).
Proof.
  split; [exact demoWon_reachable|].
  exact (reachable_status_text demoWon 9000 demoWon_reachable).
Defined.

Lemma formatTime_minutes_seconds_witness :
  0 ≤ 125000 /\
  exists ss,
    formatTime (Some 125000) = pretty (125000 / 60000) +:+ ":" +:+ ss /\
    String.length ss = 2%nat /\
    numberOf ss = Some ((125000 / 1000) `mod` 60).
Proof.
  assert (0 ≤ 125000) as Hms by lia.
  split; [exact Hms|].
  exact (formatTime_minutes_seconds 125000 Hms).
Defined.

Lemma click_handled_iff_row_exists_witness :
  wf_game demoGame /\ gameOver demoGame = false /\
  exists j,
    encode demoGame = Some j /\
    ((exists stored', handleCallback (Some j) 0 3 2000 = Ret stored') <->
     0 ≤ 0 < ROWS).
Proof.
  assert (wf_game demoGame) as Hwf by wf_by_computation.
  split_and!; [exact Hwf | reflexivity |].
  eexists. split; [reflexivity|].
  exact (click_handled_iff_row_exists demoGame 0 3 2000 _ Hwf eq_refl
           eq_refl).
Defined.
